(** * NEATc: the feed-forward network evaluator (src/nn/nn.c) and the
      population loop (src/neat/population.c), embedded in Rocq.

    Platform assumptions of the embedding (LP64 / LLP64 with IEEE-754):
    - [size_t] is a 64-bit unsigned integer, modelled as [Z] with the
      wrap-around written out ([size_wrap]);
    - [float] is IEEE-754 binary32 and [double] is binary64, evaluated with
      [FLT_EVAL_METHOD == 0] and round-to-nearest-even; both are modelled
      with the executable specification [SpecFloat] of the Standard Library;
    - a failed [assert], [exit(-1)] and undefined behaviour (an access
      outside an allocated block) are modelled as [None]. *)

From Stdlib Require Import ZArith Bool List Lia SpecFloat.
From stdpp Require Import base option list gmap.

Local Open Scope Z_scope.

(** ** IEEE-754 formats *)

Abbreviation float := spec_float.

(** C [float]: IEEE-754 binary32. *)
Module F32.
Definition prec : Z := 24.
Definition emax : Z := 128.

(** Conversion of a C integer to [float]. *)
Definition of_Z (z : Z) : float := binary_normalize prec emax z 0 false.

(** Conversion from [double]: a rounding to this format (exact when the
    value is representable). *)
Definition round (x : float) : float :=
  match x with
  | S754_finite s m e => binary_round prec emax s m e
  | _ => x
  end.

Definition add : float -> float -> float := SFadd prec emax.
Definition sub : float -> float -> float := SFsub prec emax.
Definition mul : float -> float -> float := SFmul prec emax.
Definition div : float -> float -> float := SFdiv prec emax.
Definition opp : float -> float := SFopp.
Definition abs : float -> float := SFabs.
Definition ltb : float -> float -> bool := SFltb.
Definition leb : float -> float -> bool := SFleb.
Definition eqb : float -> float -> bool := SFeqb.
Definition max_float : float := SFmax_float prec emax.
End F32.

(** C [double]: IEEE-754 binary64. *)
Module F64.
Definition prec : Z := 53.
Definition emax : Z := 1024.

(** Conversion of a C integer to [double]. *)
Definition of_Z (z : Z) : float := binary_normalize prec emax z 0 false.

(** Conversion from [float]: a rounding to this format (exact when the
    value is representable). *)
Definition round (x : float) : float :=
  match x with
  | S754_finite s m e => binary_round prec emax s m e
  | _ => x
  end.

Definition add : float -> float -> float := SFadd prec emax.
Definition sub : float -> float -> float := SFsub prec emax.
Definition mul : float -> float -> float := SFmul prec emax.
Definition div : float -> float -> float := SFdiv prec emax.
Definition opp : float -> float := SFopp.
Definition abs : float -> float := SFabs.
Definition ltb : float -> float -> bool := SFltb.
Definition leb : float -> float -> bool := SFleb.
Definition eqb : float -> float -> bool := SFeqb.
Definition max_float : float := SFmax_float prec emax.
End F64.

(** [FLT_MAX] of <float.h>. *)
Definition FLT_MAX : float := F32.max_float.

Definition is_zero (x : float) : bool :=
  match x with S754_zero _ => true | _ => false end.

Definition is_nan (x : float) : bool :=
  match x with S754_nan => true | _ => false end.

(** Neither an infinity nor a NaN. *)
Definition is_finite (x : float) : bool :=
  match x with S754_zero _ | S754_finite _ _ _ => true | _ => false end.

(** The double literal [0.5] and the float value it converts to. *)
Definition d_half : float := Eval vm_compute in F64.div (F64.of_Z 1) (F64.of_Z 2).
Definition f_half : float := Eval vm_compute in F32.round d_half.

(** ** Machine integers *)

Definition SIZE_MAX : Z := 2 ^ 64 - 1.
Definition INT_MAX : Z := 2 ^ 31 - 1.

(** Unsigned arithmetic on [size_t] is reduced modulo [SIZE_MAX + 1]. *)
Definition size_wrap (z : Z) : Z := z mod 2 ^ 64.

Definition is_size_t (z : Z) : Prop := 0 <= z <= SIZE_MAX.

(** [for(size_t i = 0; i < n; i++) body], as [c_for (Z.to_nat n) 0 body]. *)
Fixpoint c_for {S : Type} (n : nat) (i : Z) (body : Z -> S -> option S)
    (s : S) : option S :=
  match n with
  | O => Some s
  | Datatypes.S n' =>
      match body i s with
      | Some s' => c_for n' (i + 1) body s'
      | None => None
      end
  end.

(** ** The C library

    [exp] of <math.h>, [rand] and [RAND_MAX] of <stdlib.h> and the
    allocator are not part of the repository: the embedding is parametric
    in them.  [rand] threads the hidden state of the generator; [malloc]
    receives the set of live addresses of the heap it allocates in.

    Every allocation succeeds: [malloc] always returns the address of a
    block.  An allocator that returns [NULL], after which the [assert] on
    the result aborts, is outside the embedding; what is proved of a
    function that allocates is proved of the calls whose allocation
    succeeds. *)

Abbreviation addr := nat.

Class Libc := {
  c_exp : float -> float;
  RAND_MAX : Z;
  rand_state : Type;
  rand : rand_state -> Z * rand_state;
  malloc : gset addr -> addr
}.

(** ** src/nn/nn.c: data *)

(** A pointer to a float inside the items that trail the struct of the
    block at [fst]: [snd] counts floats from [(char* )net + sizeof(struct
    nn_ffnet)]. *)
Definition ptr : Type := addr * Z.

Definition ptr_add (p : ptr) (k : Z) : ptr := (fst p, snd p + k).

(** [p - q] is defined for two pointers into the same block only. *)
Definition ptr_diff (p q : ptr) : option Z :=
  if Nat.eqb (fst p) (fst q) then Some (snd p - snd q) else None.

(** What freshly allocated memory holds where a pointer is expected. *)
Definition uninit_ptr : ptr := (0%nat, -1).

(** [enum nn_activation]; a selector outside the three enumerators is a
    value the enum type can still hold. *)
Inductive nn_activation : Set :=
  | NN_ACTIVATION_SIGMOID
  | NN_ACTIVATION_FAST_SIGMOID
  | NN_ACTIVATION_RELU
  | NN_ACTIVATION_other (code : Z).

(** [struct nn_ffnet]. *)
Record nn_ffnet := {
  ninputs : Z;
  nhiddens : Z;
  noutputs : Z;
  nhidden_layers : Z;
  nweights : Z;
  nneurons : Z;
  hidden_activation : nn_activation;
  output_activation : nn_activation;
  bias : float;
  weight : ptr;
  output : ptr
}.

(** One allocated block: the struct followed by its floats. *)
Record nn_block := {
  blk_net : nn_ffnet;
  blk_items : list float
}.

Abbreviation nn_heap := (gmap addr nn_block).

(** Modelled from the spec: the header nn.h is not among the sources; the
    struct holds six [size_t] counts, two selectors, the bias and two
    pointers, which is 80 bytes with 8-byte words. *)
Definition sizeof_nn_ffnet : Z := 80.
Definition sizeof_float : Z := 4.

Definition load (h : nn_heap) (p : ptr) : option float :=
  blk ← h !! fst p;
  if 0 <=? snd p then blk_items blk !! Z.to_nat (snd p) else None.

Definition store (h : nn_heap) (p : ptr) (v : float) : option nn_heap :=
  blk ← h !! fst p;
  if (0 <=? snd p) && (snd p <? Z.of_nat (length (blk_items blk))) then
    Some (<[fst p := {| blk_net := blk_net blk;
                        blk_items := <[Z.to_nat (snd p) := v]> (blk_items blk) |}]> h)
  else None.

(** ** src/nn/nn.c: functions *)

Section NN.
Context `{Libc}.

Definition nn_sigmoid (input : float) : float :=
  if F64.ltb (F64.round input) (F64.of_Z (-45)) then F32.of_Z 0
  else if F64.ltb (F64.of_Z 45) (F64.round input) then F32.of_Z 1
  else
    F32.round
      (F64.div (F64.of_Z 1)
         (F64.add (F64.of_Z 1) (c_exp (F64.round (F32.opp input))))).

Definition nn_fast_sigmoid (input : float) : float :=
  F32.round
    (F64.div (F64.round input)
       (F64.add (F64.of_Z 1) (F64.abs (F64.round input)))).

Definition nn_relu (input : float) : float :=
  if F32.ltb input (F32.of_Z 0) then F32.round (F64.of_Z 0) else input.

(** [r] is the value the call of [rand()] returned. *)
Definition nn_rand (r : Z) (start end_ : float) : option float :=
  if F32.ltb start end_ then
    let range := F32.sub end_ start in
    Some (F32.add (F32.div (F32.of_Z r) (F32.div (F32.of_Z RAND_MAX) range))
            start)
  else None.

(** The default branch prints and calls [exit(-1)]. *)
Definition nn_activate (activation : nn_activation) (input : float)
    : option float :=
  match activation with
  | NN_ACTIVATION_SIGMOID => Some (nn_sigmoid input)
  | NN_ACTIVATION_FAST_SIGMOID => Some (nn_fast_sigmoid input)
  | NN_ACTIVATION_RELU => Some (nn_relu input)
  | NN_ACTIVATION_other _ => None
  end.

(** [net] is the struct as found at address [a]. *)
Definition nn_ffnet_set_pointers (a : addr) (net : nn_ffnet) : nn_ffnet :=
  let w : ptr := (a, 0) in
  {| ninputs := ninputs net; nhiddens := nhiddens net;
     noutputs := noutputs net; nhidden_layers := nhidden_layers net;
     nweights := nweights net; nneurons := nneurons net;
     hidden_activation := hidden_activation net;
     output_activation := output_activation net;
     bias := bias net;
     weight := w;
     output := ptr_add w (nweights net) |}.

Definition hidden_weights_of (input_count hidden_count hidden_layer_count : Z)
    : Z :=
  if 0 <? hidden_layer_count then
    let input_weights := size_wrap ((input_count + 1) * hidden_count) in
    let hidden_internal_weights :=
      size_wrap (size_wrap (size_wrap (hidden_layer_count - 1) *
                            size_wrap (hidden_count + 1)) * hidden_count) in
    size_wrap (input_weights + hidden_internal_weights)
  else 0.

Definition output_weights_of
    (input_count hidden_count output_count hidden_layer_count : Z) : Z :=
  let output_weights :=
    if 0 <? hidden_layer_count then size_wrap (hidden_count + 1)
    else size_wrap (input_count + 1) in
  size_wrap (output_weights * output_count).

Definition total_weights_of
    (input_count hidden_count output_count hidden_layer_count : Z) : Z :=
  size_wrap (hidden_weights_of input_count hidden_count hidden_layer_count +
             output_weights_of input_count hidden_count output_count
               hidden_layer_count).

Definition total_neurons_of
    (input_count hidden_count output_count hidden_layer_count : Z) : Z :=
  size_wrap (size_wrap (input_count +
                        size_wrap (hidden_count * hidden_layer_count)) +
             output_count).

Definition nn_ffnet_create
    (input_count hidden_count output_count hidden_layer_count : Z)
    (h : nn_heap) : option (addr * nn_heap) :=
  if negb (0 <? input_count) then None
  else if negb (0 <? output_count) then None
  else if negb (Bool.eqb (0 <? hidden_count) (0 <? hidden_layer_count))
  then None
  else
    let total_weights :=
      total_weights_of input_count hidden_count output_count
        hidden_layer_count in
    let total_neurons :=
      total_neurons_of input_count hidden_count output_count
        hidden_layer_count in
    let total_items := size_wrap (total_weights + total_neurons) in
    let items_bytes := size_wrap (sizeof_float * total_items) in
    (* malloc(sizeof(struct nn_ffnet) + items_bytes): when the sum wraps,
       the memset that follows writes past the block *)
    if SIZE_MAX <? sizeof_nn_ffnet + items_bytes then None
    else
      let a := malloc (dom h) in
      let net :=
        {| ninputs := input_count; nhiddens := hidden_count;
           noutputs := output_count; nhidden_layers := hidden_layer_count;
           nweights := total_weights; nneurons := total_neurons;
           hidden_activation := NN_ACTIVATION_SIGMOID;
           output_activation := NN_ACTIVATION_SIGMOID;
           bias := F32.round (F64.of_Z (-1));
           weight := uninit_ptr; output := uninit_ptr |} in
      Some (a, <[a := {| blk_net := nn_ffnet_set_pointers a net;
                         blk_items :=
                           replicate (Z.to_nat (items_bytes / sizeof_float))
                             (S754_zero false) |}]> h).

Definition nn_ffnet_copy (a : addr) (h : nn_heap) : option (addr * nn_heap) :=
  blk ← h !! a;
  let net := blk_net blk in
  let extra := size_wrap (nweights net + nneurons net) in
  let bytes :=
    size_wrap (sizeof_nn_ffnet + size_wrap (sizeof_float * extra)) in
  if negb (sizeof_nn_ffnet <? bytes) then None
  else
    let new := malloc (dom h) in
    (* memcpy(new, net, bytes) reads [bytes] bytes of the source block *)
    let n := (bytes - sizeof_nn_ffnet) / sizeof_float in
    if Z.of_nat (length (blk_items blk)) <? n then None
    else
      Some (new, <[new := {| blk_net := nn_ffnet_set_pointers new net;
                             blk_items := take (Z.to_nat n) (blk_items blk) |}]> h).

Definition nn_ffnet_destroy (a : addr) (h : nn_heap) : option nn_heap :=
  _ ← h !! a; Some (delete a h).

(** The arguments [-0.5] and [0.5] of [nn_rand], converted to float. *)
Definition rand_start : float := Eval vm_compute in F32.round (F64.opp d_half).
Definition rand_end : float := f_half.

(** The counter of the loop is an [int]: it cannot reach a weight count
    above [INT_MAX] without overflowing. *)
Definition nn_ffnet_randomize (a : addr) (st : nn_heap * rand_state)
    : option (nn_heap * rand_state) :=
  blk ← fst st !! a;
  let net := blk_net blk in
  if INT_MAX <? nweights net then None
  else
    c_for (Z.to_nat (nweights net)) 0
      (fun i '(h, rs) =>
         let '(r, rs') := rand rs in
         v ← nn_rand r rand_start rand_end;
         h' ← store h (ptr_add (weight net) i) v;
         Some (h', rs'))
      st.

Definition with_activations (hidden out : nn_activation) (net : nn_ffnet)
    : nn_ffnet :=
  {| ninputs := ninputs net; nhiddens := nhiddens net;
     noutputs := noutputs net; nhidden_layers := nhidden_layers net;
     nweights := nweights net; nneurons := nneurons net;
     hidden_activation := hidden;
     output_activation := out;
     bias := bias net; weight := weight net; output := output net |}.

Definition with_bias (b : float) (net : nn_ffnet) : nn_ffnet :=
  {| ninputs := ninputs net; nhiddens := nhiddens net;
     noutputs := noutputs net; nhidden_layers := nhidden_layers net;
     nweights := nweights net; nneurons := nneurons net;
     hidden_activation := hidden_activation net;
     output_activation := output_activation net;
     bias := b; weight := weight net; output := output net |}.

Definition nn_ffnet_set_activations (a : addr) (hidden out : nn_activation)
    (h : nn_heap) : option nn_heap :=
  blk ← h !! a;
  Some (<[a := {| blk_net := with_activations hidden out (blk_net blk);
                  blk_items := blk_items blk |}]> h).

Definition nn_ffnet_set_bias (a : addr) (b : float) (h : nn_heap)
    : option nn_heap :=
  blk ← h !! a;
  Some (<[a := {| blk_net := with_bias b (blk_net blk);
                  blk_items := blk_items blk |}]> h).

(** The state of the loops of [nn_ffnet_run]: the memory and the two
    moving pointers [weight] and [output]. *)
Record cursor := {
  c_heap : nn_heap;
  c_weight : ptr;
  c_output : ptr
}.

(** [memcpy(input, inputs, sizeof(float) * n)] from the caller's array. *)
Definition copy_inputs (input : ptr) (inputs : list float) (n : Z)
    (h : nn_heap) : option nn_heap :=
  c_for (Z.to_nat n) 0
    (fun k h =>
       x ← inputs !! Z.to_nat k;
       store h (ptr_add input k) x)
    h.

(** The body of the loops over the neurons of one layer:
    [sum = *weight++ * bias], [sum += *weight++ * input[k]] for every
    [k < nweights], [*output++ = nn_activate(activation, sum)]. *)
Definition nn_neuron (b : float) (activation : nn_activation)
    (input : ptr) (nw : Z) (c : cursor) : option cursor :=
  w0 ← load (c_heap c) (c_weight c);
  '(sum, w) ←
    c_for (Z.to_nat nw) 0
      (fun k '(sum, w) =>
         wk ← load (c_heap c) w;
         x ← load (c_heap c) (ptr_add input k);
         Some (F32.add sum (F32.mul wk x), ptr_add w 1))
      (F32.mul w0 b, ptr_add (c_weight c) 1);
  v ← nn_activate activation sum;
  h' ← store (c_heap c) (c_output c) v;
  Some {| c_heap := h'; c_weight := w; c_output := ptr_add (c_output c) 1 |}.

Definition nn_layer (b : float) (activation : nn_activation)
    (input : ptr) (nw : Z) (count : Z) (c : cursor) : option cursor :=
  c_for (Z.to_nat count) 0 (fun _ c => nn_neuron b activation input nw c) c.

(** [nn_ffnet_run] up to its two final assertions: the pointer [ret]
    and the state of the loops when they end. *)
Definition nn_ffnet_run_loops (a : addr) (inputs : list float) (h : nn_heap)
    : option (ptr * cursor) :=
  blk ← h !! a;
  let net := blk_net blk in
  let input := output net in
  h1 ← copy_inputs input inputs (ninputs net) h;
  '(c, input) ←
    c_for (Z.to_nat (nhidden_layers net)) 0
      (fun i '(c, input) =>
         let nw := if i =? 0 then ninputs net else nhiddens net in
         c' ← nn_layer (bias net) (hidden_activation net) input nw
                (nhiddens net) c;
         Some (c', ptr_add input nw))
      ({| c_heap := h1; c_weight := weight net;
          c_output := ptr_add (output net) (ninputs net) |}, input);
  let ret := c_output c in
  let nw := if nhidden_layers net =? 0 then ninputs net else nhiddens net in
  c' ← nn_layer (bias net) (output_activation net) input nw (noutputs net) c;
  Some (ret, c').

Definition nn_ffnet_run (a : addr) (inputs : list float) (h : nn_heap)
    : option (ptr * nn_heap) :=
  blk ← h !! a;
  let net := blk_net blk in
  '(ret, c) ← nn_ffnet_run_loops a inputs h;
  if negb (bool_decide (ptr_diff (c_weight c) (weight net)
                        = Some (nweights net))) then None
  else if negb (bool_decide (ptr_diff (c_output c) (output net)
                             = Some (nneurons net))) then None
  else Some (ret, c_heap c).

(** What the caller reads through the returned pointer: [ret[0]] to
    [ret[n - 1]]. *)
Definition read_floats (h : nn_heap) (p : ptr) (n : Z) : option (list float) :=
  mapM (fun k => load h (ptr_add p (Z.of_nat k))) (seq 0 (Z.to_nat n)).

(** Run, then read the [noutputs] floats behind the returned pointer. *)
Definition nn_outputs (a : addr) (inputs : list float) (h : nn_heap)
    : option (list float) :=
  blk ← h !! a;
  '(ret, h') ← nn_ffnet_run a inputs h;
  read_floats h' ret (noutputs (blk_net blk)).
End NN.

(** [for] loop with a [break] or [return] inside: the body answers
    [inl] to go on with the next index and [inr] to leave the loop. *)
Fixpoint c_for_break {S R : Type} (n : nat) (i : Z)
    (body : Z -> S -> option (S + R)) (s : S) : option (S + R) :=
  match n with
  | O => Some (inl s)
  | Datatypes.S n' =>
      match body i s with
      | Some (inl s') => c_for_break n' (i + 1) body s'
      | r => r
      end
  end.

(** ** src/neat/population.c: data *)

(** Modelled from the spec: [struct neat_config] is declared in a header
    that is not among the sources; these are the four options the
    population reads (spec, section 6).  The integer types of the
    counters are not known: they are unbounded here. *)
Record neat_config := {
  population_size : Z;
  genome_minimum_ticks_alive : Z;
  genome_compatibility_treshold : float;
  species_crossover_probability : float
}.

(** Modelled from the spec: [struct neat_genome] is declared in a header
    that is not among the sources; the population reads and writes the
    fields [fitness] and [time_alive], the rest (the embedded network and
    the identity of the genome) is [g_body]. *)
Record neat_genome (B : Type) := {
  fitness : float;
  time_alive : Z;
  g_body : B
}.
Arguments fitness {B} _.
Arguments time_alive {B} _.
Arguments g_body {B} _.

(** Modelled from the spec: [struct neat_species] is declared in a header
    that is not among the sources; the population reads its field
    [ngenomes]; the members are references to genomes and the
    representant is a reference fixed at creation (spec, section 3). *)
Record neat_species := {
  s_ngenomes : Z;
  s_genomes : list addr;
  s_representant : option addr
}.

(** Modelled from the spec: [neat_species_create(config, base)] is not
    among the sources; it creates a species that contains the base, when
    there is one, and whose representant is the base (spec, sections 3,
    4.1 and 4.2). *)
Definition neat_species_create (c : neat_config) (base : option addr)
    : neat_species :=
  {| s_ngenomes := match base with Some _ => 1 | None => 0 end;
     s_genomes := match base with Some g => [g] | None => [] end;
     s_representant := base |}.

(** Modelled from the spec: [neat_species_add_genome] is not among the
    sources; it appends the reference to the members (spec, section 4.2). *)
Definition neat_species_add_genome (s : neat_species) (g : addr)
    : neat_species :=
  {| s_ngenomes := s_ngenomes s + 1;
     s_genomes := s_genomes s ++ [g];
     s_representant := s_representant s |}.

(** Modelled from the spec: [neat_species_remove_genome] is not among the
    sources; it removes the reference from the members and does nothing
    when the reference is absent (spec, section 4.2). *)
Definition neat_species_remove_genome (s : neat_species) (g : addr)
    : neat_species :=
  let kept := filter (fun x => x <> g) (s_genomes s) in
  {| s_ngenomes := Z.of_nat (length kept);
     s_genomes := kept;
     s_representant := s_representant s |}.

(** Modelled from the spec: [neat_species_get_representant] is not among
    the sources; it returns the reference chosen at creation (spec,
    section 4.2). *)
Definition neat_species_get_representant (s : neat_species) : option addr :=
  s_representant s.

(** The collaborators whose behaviour the spec leaves open: what a fresh
    genome holds, what a copy holds, how a genome runs, the compatibility
    test, the average fitness of a species and the policy that selects a
    genitor.  Those that receive pointers also receive the memory the
    pointers refer to. *)
Class Collaborators `{Libc} := {
  genome_body : Type;
  neat_genome_create :
    neat_config -> Z -> rand_state -> neat_genome genome_body * rand_state;
  neat_genome_copy : neat_genome genome_body -> neat_genome genome_body;
  neat_genome_run :
    neat_genome genome_body -> list float ->
    option (list float * neat_genome genome_body);
  neat_genome_is_compatible :
    gmap addr (neat_genome genome_body) -> addr -> option addr -> float -> bool;
  neat_species_get_average_fitness :
    gmap addr (neat_genome genome_body) -> neat_species -> float;
  neat_species_select_genitor :
    gmap addr (neat_genome genome_body) -> neat_species -> rand_state ->
    addr * rand_state
}.

(** [struct neat_pop]; the two arrays are lists and [ngenomes], [nspecies]
    are the counts the struct keeps next to them. *)
Record neat_pop := {
  conf : neat_config;
  solved : bool;
  innovation : Z;
  ngenomes : Z;
  genomes : list addr;
  nspecies : Z;
  species : list neat_species
}.

(** An array of [length l] elements behind a pointer: an access outside
    of it is undefined. *)
Definition array_get {A : Type} (l : list A) (i : Z) : option A :=
  if 0 <=? i then l !! Z.to_nat i else None.

Definition array_set {A : Type} (l : list A) (i : Z) (x : A) : option (list A) :=
  if (0 <=? i) && (i <? Z.of_nat (length l)) then Some (<[Z.to_nat i := x]> l)
  else None.

Definition with_genomes (gs : list addr) (p : neat_pop) : neat_pop :=
  {| conf := conf p; solved := solved p; innovation := innovation p;
     ngenomes := ngenomes p; genomes := gs;
     nspecies := nspecies p; species := species p |}.

Definition with_species (n : Z) (sp : list neat_species) (p : neat_pop)
    : neat_pop :=
  {| conf := conf p; solved := solved p; innovation := innovation p;
     ngenomes := ngenomes p; genomes := genomes p;
     nspecies := n; species := sp |}.

Definition with_innovation (n : Z) (p : neat_pop) : neat_pop :=
  {| conf := conf p; solved := solved p; innovation := n;
     ngenomes := ngenomes p; genomes := genomes p;
     nspecies := nspecies p; species := species p |}.

Definition with_fitness {B : Type} (f : float) (g : neat_genome B)
    : neat_genome B :=
  {| fitness := f; time_alive := time_alive g; g_body := g_body g |}.

Definition with_time_alive {B : Type} (t : Z) (g : neat_genome B)
    : neat_genome B :=
  {| fitness := fitness g; time_alive := t; g_body := g_body g |}.

(** What the array of genomes holds between its [malloc] and the first
    assignment to a slot. *)
Definition uninit_addr : addr := 0%nat.

Definition sizeof_pointer : Z := 8.

(** ** src/neat/population.c: functions *)

Section Neat.
Context `{Collaborators}.

(** The state the functions of the population act on: the struct, the
    memory that holds the genomes and the state of [rand]. *)
Record world := {
  w_pop : neat_pop;
  w_heap : gmap addr (neat_genome genome_body);
  w_rand : rand_state
}.

Definition neat_reset_genomes (w : world) : option world :=
  let p := w_pop w in
  let '(g0, rs) := neat_genome_create (conf p) (innovation p) (w_rand w) in
  let a0 := malloc (dom (w_heap w)) in
  gs0 ← array_set (genomes p) 0 a0;
  '(gs, h) ←
    c_for (Z.to_nat (ngenomes p - 1)) 1
      (fun i '(gs, h) =>
         base ← array_get gs 0;
         g ← h !! base;
         let a := malloc (dom h) in
         gs' ← array_set gs i a;
         Some (gs', <[a := neat_genome_copy g]> h))
      (gs0, <[a0 := g0]> (w_heap w));
  Some {| w_pop := with_genomes gs (with_innovation (innovation p + 1) p);
          w_heap := h; w_rand := rs |}.

Definition neat_replace_genome (dest : Z) (src : addr) (w : world)
    : option world :=
  let p := w_pop w in
  old ← array_get (genomes p) dest;
  if Nat.eqb old src then None
  else
    (* neat_genome_destroy(p->genomes[dest]) *)
    _ ← w_heap w !! old;
    let h1 := delete old (w_heap w) in
    (* p->genomes[dest] = neat_genome_copy(src) *)
    g ← h1 !! src;
    let a := malloc (dom h1) in
    gs ← array_set (genomes p) dest a;
    Some {| w_pop := with_genomes gs p;
            w_heap := <[a := neat_genome_copy g]> h1;
            w_rand := w_rand w |}.

(** The returned species is the one at the returned index. *)
Definition neat_create_new_species (base : option addr) (p : neat_pop)
    : neat_pop * Z :=
  (with_species (nspecies p + 1)
     (species p ++ [neat_species_create (conf p) base]) p,
   nspecies p).

(** [worst_genome] is what the caller's variable holds at the call. *)
Definition neat_find_worst_fitness (w : world) (worst_genome : Z)
    : option (bool * Z) :=
  let p := w_pop w in
  '(worst, _, found_worst) ←
    c_for (Z.to_nat (ngenomes p)) 0
      (fun i '(worst, worst_fitness, found_worst) =>
         ga ← array_get (genomes p) i;
         genome ← w_heap w !! ga;
         let fitness := fitness genome in
         if F32.ltb fitness worst_fitness &&
            (genome_minimum_ticks_alive (conf p) <? time_alive genome)
         then Some (i, fitness, true)
         else Some (worst, worst_fitness, found_worst))
      (worst_genome, FLT_MAX, false);
  Some (found_worst, worst).

Definition neat_get_species_fitness_average (w : world) : option float :=
  let p := w_pop w in
  total_avg ←
    c_for (Z.to_nat (nspecies p)) 0
      (fun i total_avg =>
         s ← array_get (species p) i;
         Some (F32.add total_avg
                 (neat_species_get_average_fitness (w_heap w) s)))
      (F32.round (F64.of_Z 0));
  Some (F32.round (F64.div (F64.round total_avg) (F64.of_Z (nspecies p)))).

Definition neat_speciate_genome (genome_id : Z) (w : world) : option world :=
  let p := w_pop w in
  genome ← array_get (genomes p) genome_id;
  let compatibility_treshold := genome_compatibility_treshold (conf p) in
  r ← c_for_break (Z.to_nat (nspecies p)) 0
        (fun i (_ : unit) =>
           s ← array_get (species p) i;
           if neat_genome_is_compatible (w_heap w) genome
                (neat_species_get_representant s) compatibility_treshold
           then
             sp ← array_set (species p) i (neat_species_add_genome s genome);
             Some (inr sp)
           else Some (inl ()))
        ();
  match r with
  | inr sp =>
      Some {| w_pop := with_species (nspecies p) sp p;
              w_heap := w_heap w; w_rand := w_rand w |}
  | inl _ =>
      let '(p', new) := neat_create_new_species None p in
      s ← array_get (species p') new;
      sp ← array_set (species p') new (neat_species_add_genome s genome);
      Some {| w_pop := with_species (nspecies p') sp p';
              w_heap := w_heap w; w_rand := w_rand w |}
  end.

(** [(float)rand() / (float)RAND_MAX] for the value [r] of [rand()]. *)
Definition unit_random (r : Z) : float :=
  F32.div (F32.of_Z r) (F32.of_Z RAND_MAX).

(** What the loop of [neat_select_reproduction_species] does once the
    species [s] is selected, up to the [break]. *)
Definition neat_reproduce (s : neat_species) (worst_genome : Z) (w : world)
    : option world :=
  let p := w_pop w in
  let '(r, rs) := rand (w_rand w) in
  let random := unit_random r in
  w1 ←
    (if F32.ltb random (species_crossover_probability (conf p)) then
       (* TODO: do crossover *)
       Some {| w_pop := p; w_heap := w_heap w; w_rand := rs |}
     else
       let '(g, rs') := neat_species_select_genitor (w_heap w) s rs in
       neat_replace_genome worst_genome g
         {| w_pop := p; w_heap := w_heap w; w_rand := rs' |});
  neat_speciate_genome worst_genome w1.

Definition neat_select_reproduction_species (worst_genome : Z) (w : world)
    : option world :=
  let p := w_pop w in
  total_avg ← neat_get_species_fitness_average w;
  let '(r, rs) := rand (w_rand w) in
  let w0 := {| w_pop := p; w_heap := w_heap w; w_rand := rs |} in
  res ← c_for_break (Z.to_nat (nspecies p)) 0
          (fun i selection_random =>
             s ← array_get (species p) i;
             if s_ngenomes s =? 0 then Some (inl selection_random)
             else
               let avg := neat_species_get_average_fitness (w_heap w) s in
               let selection_prob := F32.div avg total_avg in
               if F32.ltb selection_prob selection_random then
                 Some (inl (F32.sub selection_random selection_prob))
               else
                 w' ← neat_reproduce s worst_genome w0;
                 Some (inr w'))
          (unit_random r);
  match res with
  | inr w' => Some w'
  | inl _ => Some w0
  end.

Definition neat_create (config : neat_config)
    (h : gmap addr (neat_genome genome_body)) (rs : rand_state)
    : option world :=
  if negb (0 <? population_size config) then None
  else if SIZE_MAX <? sizeof_pointer * population_size config then None
  else
    let p :=
      {| conf := config; solved := false; innovation := 1;
         ngenomes := population_size config;
         genomes := replicate (Z.to_nat (population_size config)) uninit_addr;
         nspecies := 0; species := [] |} in
    w ← neat_reset_genomes {| w_pop := p; w_heap := h; w_rand := rs |};
    base ← array_get (genomes (w_pop w)) 0;
    let '(p', _) :=
      neat_create_new_species (Some base) (with_species 0 [] (w_pop w)) in
    Some {| w_pop := p'; w_heap := w_heap w; w_rand := w_rand w |}.

Definition neat_run (genome_id : Z) (inputs : list float) (w : world)
    : option (list float * world) :=
  let p := w_pop w in
  if negb ((0 <=? genome_id) && (genome_id <? ngenomes p)) then None
  else
    ga ← array_get (genomes p) genome_id;
    g ← w_heap w !! ga;
    '(outputs, g') ← neat_genome_run g inputs;
    Some (outputs, {| w_pop := p; w_heap := <[ga := g']> (w_heap w);
                      w_rand := w_rand w |}).

Definition neat_epoch (w : world) : option world :=
  let p := w_pop w in
  '(found, worst_genome) ← neat_find_worst_fitness w 0;
  if negb found then Some w
  else
    (* Remove the worst genome from the species if it contains it *)
    sp ← c_for (Z.to_nat (nspecies p)) 0
           (fun i sp =>
              s ← array_get sp i;
              wg ← array_get (genomes p) worst_genome;
              array_set sp i (neat_species_remove_genome s wg))
           (species p);
    neat_select_reproduction_species worst_genome
      {| w_pop := with_species (nspecies p) sp p;
         w_heap := w_heap w; w_rand := w_rand w |}.

Definition neat_set_fitness (genome_id : Z) (f : float) (w : world)
    : option world :=
  let p := w_pop w in
  if negb ((0 <=? genome_id) && (genome_id <? ngenomes p)) then None
  else
    ga ← array_get (genomes p) genome_id;
    g ← w_heap w !! ga;
    Some {| w_pop := p; w_heap := <[ga := with_fitness f g]> (w_heap w);
            w_rand := w_rand w |}.

Definition neat_increase_time_alive (genome_id : Z) (w : world)
    : option world :=
  let p := w_pop w in
  if negb ((0 <=? genome_id) && (genome_id <? ngenomes p)) then None
  else
    ga ← array_get (genomes p) genome_id;
    g ← w_heap w !! ga;
    Some {| w_pop := p;
            w_heap := <[ga := with_time_alive (time_alive g + 1) g]> (w_heap w);
            w_rand := w_rand w |}.
End Neat.

(** A concrete C library, to run the embedding: [exp] is exact at the
    zeros and the special values and a two-term approximation elsewhere,
    [rand] is the sample generator of the C standard scaled to
    [RAND_MAX = 2147483647], [malloc] returns the least free address. *)
Definition exp_model (x : float) : float :=
  match x with
  | S754_zero _ => F64.of_Z 1
  | S754_nan => S754_nan
  | S754_infinity true => S754_zero false
  | S754_infinity false => x
  | S754_finite _ _ _ => F64.abs (F64.add (F64.of_Z 1) x)
  end.

Definition rand_model (s : Z) : Z * Z :=
  let s' := (s * 1103515245 + 12345) mod 2 ^ 31 in (s', s').

Definition libc_model : Libc := {|
  c_exp := exp_model;
  RAND_MAX := 2147483647;
  rand_state := Z;
  rand := rand_model;
  malloc := fun live => fresh live
|}.

(** ** Specification of the network evaluator *)

Section NNSpec.
Context `{Libc}.

Definition range_Forall (P : float -> Prop) (lo hi : Z) (items : list float)
    : Prop :=
  forall (k : nat) (x : float),
    lo <= Z.of_nat k < hi -> items !! k = Some x -> P x.

Definition known_activation (act : nn_activation) : Prop :=
  match act with NN_ACTIVATION_other _ => False | _ => True end.

(** [v] is the value of the activation function at a zero. *)
Definition act_zero (act : nn_activation) (v : float) : Prop :=
  exists s : bool, nn_activate act (S754_zero s) = Some v.

Definition zero_weights (b : float) (lo hi ilo ihi : Z) (items : list float)
    : Prop :=
  range_Forall (fun x => is_zero x = true) lo hi items /\
  is_finite b = true /\
  range_Forall (fun x => is_finite x = true) ilo ihi items.

Definition weight_count (I H O L : Z) : Z :=
  if 0 <? L then (I + 1) * H + (L - 1) * (H + 1) * H + (H + 1) * O
  else (I + 1) * O.

Definition neuron_count (I H O L : Z) : Z := I + H * L + O.

Definition valid_topology (I H O L : Z) : Prop :=
  0 < I /\ 0 < O /\ 0 <= H /\ 0 <= L /\ (0 < H <-> 0 < L).

Record nn_wf (a : addr) (blk : nn_block) : Prop := {
  wf_topology :
    valid_topology (ninputs (blk_net blk)) (nhiddens (blk_net blk))
      (noutputs (blk_net blk)) (nhidden_layers (blk_net blk));
  wf_nweights :
    nweights (blk_net blk) =
    weight_count (ninputs (blk_net blk)) (nhiddens (blk_net blk))
      (noutputs (blk_net blk)) (nhidden_layers (blk_net blk));
  wf_nneurons :
    nneurons (blk_net blk) =
    neuron_count (ninputs (blk_net blk)) (nhiddens (blk_net blk))
      (noutputs (blk_net blk)) (nhidden_layers (blk_net blk));
  wf_weight : weight (blk_net blk) = (a, 0);
  wf_output : output (blk_net blk) = (a, nweights (blk_net blk));
  wf_items :
    Z.of_nat (length (blk_items blk)) =
    nweights (blk_net blk) + nneurons (blk_net blk);
  wf_fits :
    sizeof_nn_ffnet +
    sizeof_float * (nweights (blk_net blk) + nneurons (blk_net blk))
    <= SIZE_MAX;
  wf_hidden_activation : known_activation (hidden_activation (blk_net blk));
  wf_output_activation : known_activation (output_activation (blk_net blk))
}.

(** C, Annex F: [exp(+-0)] returns 1. *)
Definition exp_zero_one : Prop :=
  forall s : bool, c_exp (S754_zero s) = F64.of_Z 1.

Definition zero_run (net : nn_ffnet) (items inputs : list float) : Prop :=
  exp_zero_one /\
  range_Forall (fun x => is_zero x = true) 0 (nweights net) items /\
  is_finite (bias net) = true /\
  Forall (fun x => is_finite x = true) (take (Z.to_nat (ninputs net)) inputs).

(** The byte size of the block fits [size_t]. *)
Definition fits (I H O L : Z) : Prop :=
  sizeof_nn_ffnet +
  sizeof_float * (weight_count I H O L + neuron_count I H O L) <= SIZE_MAX.

Definition blocks_agree (a b : addr) (h1 h2 : nn_heap) : Prop :=
  exists net1 net2 items,
    h1 !! a = Some {| blk_net := net1; blk_items := items |} /\
    h2 !! b = Some {| blk_net := net2; blk_items := items |}.

Definition cursor_agree (a b : addr) (c1 c2 : cursor) : Prop :=
  blocks_agree a b (c_heap c1) (c_heap c2) /\
  exists wi oi,
    c_weight c1 = (a, wi) /\ c_weight c2 = (b, wi) /\
    c_output c1 = (a, oi) /\ c_output c2 = (b, oi).

(** The two structs differ in where their pointers point only. *)
Definition net_agree (a b : addr) (net1 net2 : nn_ffnet) : Prop :=
  ninputs net1 = ninputs net2 /\ nhiddens net1 = nhiddens net2 /\
  noutputs net1 = noutputs net2 /\
  nhidden_layers net1 = nhidden_layers net2 /\
  nweights net1 = nweights net2 /\ nneurons net1 = nneurons net2 /\
  hidden_activation net1 = hidden_activation net2 /\
  output_activation net1 = output_activation net2 /\
  bias net1 = bias net2 /\
  exists wi oi,
    weight net1 = (a, wi) /\ weight net2 = (b, wi) /\
    output net1 = (a, oi) /\ output net2 = (b, oi).

Definition result_agree {A : Type} (R : A -> A -> Prop) (a b : addr)
    (r1 r2 : ptr * A) : Prop :=
  (exists k, r1.1 = (a, k) /\ r2.1 = (b, k)) /\ R r1.2 r2.2.

(** The allocator returns an address that is not live. *)
Definition malloc_fresh : Prop := forall live : gset addr, malloc live ∉ live.

(** The caller's assignment [net->weight[i] = v] for [i < net->nweights]. *)
Definition set_weight (a : addr) (i : Z) (v : float) (h : nn_heap)
    : option nn_heap :=
  blk ← h !! a;
  if (0 <=? i) && (i <? nweights (blk_net blk)) then
    store h (ptr_add (weight (blk_net blk)) i) v
  else None.

Fixpoint set_weights (a : addr) (l : list (Z * float)) (h : nn_heap)
    : option nn_heap :=
  match l with
  | [] => Some h
  | (i, v) :: l' => h' ← set_weight a i v h; set_weights a l' h'
  end.

(** The value the claim gives to each activation function at zero. *)
Definition zero_value (act : nn_activation) (v : float) : Prop :=
  match act with
  | NN_ACTIVATION_SIGMOID => v = f_half
  | NN_ACTIVATION_FAST_SIGMOID => is_zero v = true
  | NN_ACTIVATION_RELU => is_zero v = true
  | NN_ACTIVATION_other _ => False
  end.
End NNSpec.

(** ** Specification of the population loop *)

Section NeatSpec.
Context `{Collaborators}.

(** The genome in slot [i]. *)
Definition genome_at (w : world) (i : Z) : option (neat_genome genome_body) :=
  ga ← array_get (genomes (w_pop w)) i; w_heap w !! ga.

(** The counts agree with the arrays, every slot holds a live genome and
    no two slots hold the same one. *)
Record pop_wf (w : world) : Prop := {
  wf_ngenomes : ngenomes (w_pop w) = Z.of_nat (length (genomes (w_pop w)));
  wf_nspecies : nspecies (w_pop w) = Z.of_nat (length (species (w_pop w)));
  wf_live : Forall (fun ga => is_Some (w_heap w !! ga)) (genomes (w_pop w));
  wf_nodup : NoDup (genomes (w_pop w))
}.

(** The genome in slot [i] is older than the minimum age and its fitness
    is below [FLT_MAX]. *)
Definition candidate (w : world) (i : Z) (g : neat_genome genome_body) : Prop :=
  genome_at w i = Some g /\
  genome_minimum_ticks_alive (conf (w_pop w)) < time_alive g /\
  F32.ltb (fitness g) FLT_MAX = true.

(** Slot [worst] holds a candidate, no candidate has a smaller fitness,
    and every candidate in an earlier slot has a greater one. *)
Definition first_minimum (w : world) (worst : Z) : Prop :=
  exists g, candidate w worst g /\
    forall j gj, candidate w j gj ->
      F32.ltb (fitness gj) (fitness g) = false /\
      (j < worst -> F32.ltb (fitness g) (fitness gj) = true).

(** A loop with a [break] over the elements of an array, as a recursion
    on the list. *)
Fixpoint scan {A St R : Type} (f : Z -> A -> St -> option (St + R))
    (l : list A) (i : Z) (s : St) : option (St + R) :=
  match l with
  | [] => Some (inl s)
  | x :: l' =>
      match f i x s with
      | Some (inl s') => scan f l' (i + 1) s'
      | r => r
      end
  end.

(** The roulette of the spec over the species from index [i] on: empty
    species are skipped; a species whose share is below [r] is passed and
    its share is subtracted from [r]; the first other species is
    selected. *)
Fixpoint roulette (share : neat_species -> float) (l : list neat_species)
    (i : Z) (r : float) : option (Z * neat_species) :=
  match l with
  | [] => None
  | s :: l' =>
      if s_ngenomes s =? 0 then roulette share l' (i + 1) r
      else if F32.ltb (share s) r then
        roulette share l' (i + 1) (F32.sub r (share s))
      else Some (i, s)
  end.

(** What the roulette leaves of [r] when it passes every species. *)
Fixpoint roulette_rest (share : neat_species -> float)
    (l : list neat_species) (r : float) : float :=
  match l with
  | [] => r
  | s :: l' =>
      if s_ngenomes s =? 0 then roulette_rest share l' r
      else if F32.ltb (share s) r then
        roulette_rest share l' (F32.sub r (share s))
      else r
  end.

(** The unweighted mean of the average fitness of all species, in the
    arithmetic of the code: a float sum from the left, divided in double
    by the number of species. *)
Definition species_mean (w : world) : float :=
  F32.round
    (F64.div
       (F64.round
          (fold_left
             (fun total s =>
                F32.add total (neat_species_get_average_fitness (w_heap w) s))
             (species (w_pop w)) (S754_zero false)))
       (F64.of_Z (nspecies (w_pop w)))).

(** The share of a species: its average fitness over the mean. *)
Definition species_share (w : world) (s : neat_species) : float :=
  F32.div (neat_species_get_average_fitness (w_heap w) s) (species_mean w).

(** Add the genome [g] to the first species of [l] that [compatible]
    accepts, when there is one. *)
Fixpoint add_to_first (compatible : neat_species -> bool) (g : addr)
    (l : list neat_species) : option (list neat_species) :=
  match l with
  | [] => None
  | s :: l' =>
      if compatible s then Some (neat_species_add_genome s g :: l')
      else (cons s) <$> add_to_first compatible g l'
  end.

(** Re-speciation of the spec: the genome joins the first species whose
    representant it is compatible with, or a new species appended to the
    list. *)
Definition speciate (w : world) (g : addr) (l : list neat_species)
    : list neat_species :=
  let compatible s :=
    neat_genome_is_compatible (w_heap w) g (neat_species_get_representant s)
      (genome_compatibility_treshold (conf (w_pop w))) in
  match add_to_first compatible g l with
  | Some l' => l'
  | None =>
      l ++ [neat_species_add_genome
              (neat_species_create (conf (w_pop w)) None) g]
  end.

(** The calls a population receives between its creation and its
    destruction. *)
Inductive neat_call : Type :=
  | call_run (genome_id : Z) (inputs : list float)
  | call_set_fitness (genome_id : Z) (f : float)
  | call_increase_time_alive (genome_id : Z)
  | call_epoch.

Definition neat_do (c : neat_call) (w : world) : option world :=
  match c with
  | call_run genome_id inputs => snd <$> neat_run genome_id inputs w
  | call_set_fitness genome_id f => neat_set_fitness genome_id f w
  | call_increase_time_alive genome_id => neat_increase_time_alive genome_id w
  | call_epoch => neat_epoch w
  end.

Fixpoint neat_do_all (cs : list neat_call) (w : world) : option world :=
  match cs with
  | [] => Some w
  | c :: cs' => w' ← neat_do c w; neat_do_all cs' w'
  end.

(** The genomes of [w'] are those of [w], but for the slot [i], whose
    genome was destroyed and replaced by a new one. *)
Definition one_slot_replaced (w w' : world) (i : nat) : Prop :=
  (forall j : nat, j <> i ->
     genomes (w_pop w') !! j = genomes (w_pop w) !! j) /\
  (forall ga g, w_heap w !! ga = Some g ->
     genomes (w_pop w) !! i <> Some ga -> w_heap w' !! ga = Some g).

Definition with_rand (rs : rand_state) (w : world) : world :=
  {| w_pop := w_pop w; w_heap := w_heap w; w_rand := rs |}.

Definition with_pop (p : neat_pop) (w : world) : world :=
  {| w_pop := p; w_heap := w_heap w; w_rand := w_rand w |}.

(** The population once [neat_epoch] has removed the genome [wg] from
    every species. *)
Definition detach (w : world) (wg : addr) : world :=
  with_pop
    (with_species (nspecies (w_pop w))
       (map (fun s => neat_species_remove_genome s wg) (species (w_pop w)))
       (w_pop w))
    w.
End NeatSpec.

(** ** Specification of the random draws *)

Section RandSpec.
Context `{Libc}.

(** C, 7.22.2.1: [rand] returns an integer in the range 0 to [RAND_MAX]. *)
Definition rand_in_range : Prop := forall rs, 0 <= (rand rs).1 <= RAND_MAX.

(** [RAND_MAX] is at least 32767, fits an [int] and is one less than a
    power of two, as in the C libraries in use. *)
Definition rand_max_pow2 : Prop :=
  exists k, 15 <= k <= 31 /\ RAND_MAX = 2 ^ k - 1.

Definition in_closed_range (lo hi w : float) : Prop :=
  F32.leb lo w = true /\ F32.leb w hi = true.

Definition f_one : float := Eval vm_compute in F32.of_Z 1.
End RandSpec.

(** ** Values of binary32 *)

(** The value a rounding returns, from the mantissa it rounded to. *)
Definition encode32 (s : bool) (m2 e' : Z) : float :=
  if m2 =? 0 then S754_zero s
  else if m2 =? 2 ^ 24 then
    if e' + 1 <=? 104 then S754_finite s (2 ^ 23)%positive (e' + 1)
    else S754_infinity s
  else if e' <=? 104 then S754_finite s (Z.to_pos m2) e'
  else S754_infinity s.

(** The value of a finite float with mantissa [m] and exponent [e], as a
    multiple of the smallest positive float [2 ^ -149]. *)
Definition val32 (m e : Z) : Z := m * 2 ^ (e + 149).

(** ** Concrete inputs *)

(** A network with one input, no hidden layer and one output, with ReLU
    selected, all weights zero and a zero bias, alone in its memory. *)
Definition relu_zero_net : nn_ffnet :=
  {| ninputs := 1; nhiddens := 0; noutputs := 1; nhidden_layers := 0;
     nweights := 2; nneurons := 2;
     hidden_activation := NN_ACTIVATION_RELU;
     output_activation := NN_ACTIVATION_RELU;
     bias := S754_zero false; weight := (0%nat, 0); output := (0%nat, 2) |}.

Definition relu_zero_block : nn_block :=
  {| blk_net := relu_zero_net; blk_items := replicate 4 (S754_zero false) |}.

Definition relu_zero_heap : nn_heap := {[ 0%nat := relu_zero_block ]}.

(** Modelled from the spec: [neat_species_get_average_fitness] is not
    among the sources; the sample takes the mean of the fitness of the
    members. *)
Definition average_fitness_model (h : gmap addr (neat_genome Z))
    (s : neat_species) : float :=
  F32.div
    (fold_left
       (fun acc ga =>
          F32.add acc
            (match h !! ga with Some g => fitness g | None => S754_nan end))
       (s_genomes s) (S754_zero false))
    (F32.of_Z (s_ngenomes s)).

(** Modelled from the spec: a sample of the collaborators that are not
    among the sources.  A genome carries its innovation number; a copy
    holds what the original holds; two live genomes are compatible; the
    genitor is the first member. *)
Definition collaborators_model : @Collaborators libc_model := {|
  genome_body := Z;
  neat_genome_create := fun _ innovation rs =>
    ({| fitness := S754_zero false; time_alive := 0; g_body := innovation |}, rs);
  neat_genome_copy := fun g => g;
  neat_genome_run := fun g _ => Some ([], g);
  neat_genome_is_compatible := fun h g rep _ =>
    match rep with
    | Some r => bool_decide (is_Some (h !! g)) && bool_decide (is_Some (h !! r))
    | None => false
    end;
  neat_species_get_average_fitness := average_fitness_model;
  neat_species_select_genitor := fun h s rs => (hd 0%nat (s_genomes s), rs)
|}.

(** A seed whose first draw is [RAND_MAX]. *)
Definition seed_max : Z := 230538014.

Section Samples.
#[local] Existing Instance libc_model.
#[local] Existing Instance collaborators_model.

Definition config_1 : neat_config :=
  {| population_size := 1; genome_minimum_ticks_alive := 0;
     genome_compatibility_treshold := F32.of_Z 1;
     species_crossover_probability := f_half |}.

(** One genome, one tick old, of fitness [FLT_MAX]. *)
Definition calls_flt_max : list neat_call :=
  [call_set_fitness 0 FLT_MAX; call_increase_time_alive 0].

Definition config_2 : neat_config :=
  {| population_size := 2; genome_minimum_ticks_alive := 0;
     genome_compatibility_treshold := F32.of_Z 1;
     species_crossover_probability := F32.of_Z 2 |}.

(** Two genomes, one tick old, the second less fit than the first. *)
Definition calls_2 : list neat_call :=
  [call_set_fitness 0 (F32.of_Z 2); call_set_fitness 1 (F32.of_Z 1);
   call_increase_time_alive 0; call_increase_time_alive 1].

Definition neat_sample (config : neat_config) (cs : list neat_call)
    : option world :=
  w ← neat_create config ∅ 1; neat_do_all cs w.

Definition genome_sample (f : float) (age : Z) : neat_genome Z :=
  {| fitness := f; time_alive := age; g_body := 1 |}.

(** A species of the given members whose representant is the genome at
    address 0. *)
Definition species_sample (members : list addr) : neat_species :=
  {| s_ngenomes := Z.of_nat (length members); s_genomes := members;
     s_representant := Some 0%nat |}.

Definition pop_2 (sp : list neat_species) : neat_pop :=
  {| conf := config_2; solved := false; innovation := 2;
     ngenomes := 2; genomes := [0%nat; 1%nat];
     nspecies := 1; species := sp |}.

(** The population [neat_create config_2] returns. *)
Definition world_created_2 : world :=
  {| w_pop := pop_2 [species_sample [0%nat]];
     w_heap :=
       ({[ 0%nat := genome_sample (S754_zero false) 0;
           1%nat := genome_sample (S754_zero false) 0 ]}
        : gmap addr (neat_genome Z));
     w_rand := 1 |}.

(** The population after [calls_2]. *)
Definition world_2 : world :=
  {| w_pop := pop_2 [species_sample [0%nat]];
     w_heap :=
       ({[ 0%nat := genome_sample (F32.of_Z 2) 1;
           1%nat := genome_sample (F32.of_Z 1) 1 ]}
        : gmap addr (neat_genome Z));
     w_rand := 1 |}.

(** The population after [calls_2] and one [neat_epoch]. *)
Definition world_2_epoch : world :=
  {| w_pop := pop_2 [species_sample [0%nat; 1%nat]];
     w_heap := w_heap world_2;
     w_rand := 377401575 |}.

(** The population after [neat_create config_1] and [calls_flt_max]. *)
Definition world_flt_max : world :=
  {| w_pop :=
       {| conf := config_1; solved := false; innovation := 2;
          ngenomes := 1; genomes := [0%nat];
          nspecies := 1; species := [species_sample [0%nat]] |};
     w_heap :=
       ({[ 0%nat := genome_sample FLT_MAX 1 ]} : gmap addr (neat_genome Z));
     w_rand := 1 |}.
End Samples.

(** ** src/neat/population.c: the end of the life cycle *)

Section NeatDestroy.
Context `{Collaborators}.

(** Modelled from the spec: [neat_genome_destroy] is not among the
    sources; it releases the genome with the network it owns.  Releasing
    a genome that is not live is undefined. *)
Definition neat_genome_destroy (ga : addr)
    (h : gmap addr (neat_genome genome_body))
    : option (gmap addr (neat_genome genome_body)) :=
  _ ← h !! ga; Some (delete ga h).

(** What is left of the memory of the genomes.  The species hold
    references only: [neat_species_destroy] releases none of the
    genomes. *)
Definition neat_destroy (w : world)
    : option (gmap addr (neat_genome genome_body)) :=
  let p := w_pop w in
  h ← c_for (Z.to_nat (ngenomes p)) 0
        (fun i h => ga ← array_get (genomes p) i; neat_genome_destroy ga h)
        (w_heap w);
  (* free(p->genomes) *)
  _ ← c_for (Z.to_nat (nspecies p)) 0
        (fun i (_ : unit) =>
           (* neat_species_destroy(p->species[i]) *)
           _ ← array_get (species p) i; Some ())
        ();
  (* free(p->species); free(p) *)
  Some h.
End NeatDestroy.

(** ** Specification of the memory of the population *)

Section NeatMemorySpec.
Context `{Collaborators}.

(** The genomes of the slots are the only change to the memory [h] the
    population was created in. *)
Definition owned (h : gmap addr (neat_genome genome_body)) (w : world)
    : Prop :=
  Forall (fun ga => h !! ga = None) (genomes (w_pop w)) /\
  forall x, x ∉ genomes (w_pop w) -> w_heap w !! x = h !! x.

(** Every member of every species is the genome of a slot. *)
Definition members_in_slots (w : world) : Prop :=
  Forall (fun s => Forall (fun ga => ga ∈ genomes (w_pop w)) (s_genomes s))
    (species (w_pop w)).
End NeatMemorySpec.

(** ** Specification of the random weights *)

Section DrawsSpec.
Context `{Libc}.

(** The state of the generator after [n] calls of [rand]. *)
Definition rand_after (n : nat) (rs : rand_state) : rand_state :=
  Nat.iter n (fun s => (rand s).2) rs.
End DrawsSpec.

(** ** Specification of the run: the function the network computes *)

Section ForwardSpec.
Context `{Libc}.

(** [sum += w * x] over the weights and the values, from the left. *)
Fixpoint weighted_sum (sum : float) (ws xs : list float) : float :=
  match ws, xs with
  | w :: ws', x :: xs' => weighted_sum (F32.add sum (F32.mul w x)) ws' xs'
  | _, _ => sum
  end.

(** The value of a neuron of weights [ws] over the values [xs] of the
    layer before: the first weight is multiplied by the bias. *)
Definition neuron_value (b : float) (act : nn_activation) (ws xs : list float)
    : option float :=
  match ws with
  | w0 :: ws' => nn_activate act (weighted_sum (F32.mul w0 b) ws' xs)
  | [] => None
  end.

(** The values of a layer of [count] neurons over [xs], each neuron
    taking its [length xs + 1] weights off [ws], and the weights left. *)
Fixpoint layer_values (b : float) (act : nn_activation) (count : nat)
    (ws xs : list float) : option (list float * list float) :=
  match count with
  | O => Some ([], ws)
  | S count' =>
      v ← neuron_value b act (take (S (length xs)) ws) xs;
      '(vs, ws') ← layer_values b act count' (drop (S (length xs)) ws) xs;
      Some (v :: vs, ws')
  end.

(** The values of the last of [layers] hidden layers of [count] neurons,
    and the weights left. *)
Fixpoint hidden_values (b : float) (act : nn_activation) (layers count : nat)
    (ws xs : list float) : option (list float * list float) :=
  match layers with
  | O => Some (xs, ws)
  | S layers' =>
      '(vs, ws') ← layer_values b act count ws xs;
      hidden_values b act layers' count ws' vs
  end.

(** The outputs of the network of weights [ws] on [inputs]. *)
Definition forward (net : nn_ffnet) (ws inputs : list float)
    : option (list float) :=
  '(xs, ws') ←
    hidden_values (bias net) (hidden_activation net)
      (Z.to_nat (nhidden_layers net)) (Z.to_nat (nhiddens net)) ws inputs;
  '(outs, _) ←
    layer_values (bias net) (output_activation net)
      (Z.to_nat (noutputs net)) ws' xs;
  Some outs.
End ForwardSpec.

(** The weights [n] hidden layers of [Hn] neurons read, the first of
    them from [nw] values. *)
Definition hidden_consumed (n nw Hn : nat) : nat :=
  match n with
  | O => O
  | S n' => (Hn * S nw + n' * (Hn * S Hn))%nat
  end.

(** [weight_count] on natural numbers. *)
Definition weight_count_nat (In Hn On Ln : nat) : nat :=
  (hidden_consumed Ln In Hn
   + On * S (match Ln with O => In | S _ => Hn end))%nat.

Section ReplaceSample.
#[local] Existing Instance libc_model.
#[local] Existing Instance collaborators_model.


End ReplaceSample.

(** * Proofs *)

(** ** Loops *)

Lemma c_for_inv {St : Type} (P : Z -> St -> Prop) (body : Z -> St -> option St) :
forall (n : nat) (i : Z) (s : St),
  P i s ->
  (forall j t, i <= j < i + Z.of_nat n -> P j t ->
     exists t', body j t = Some t' /\ P (j + 1) t') ->
  exists s', c_for n i body s = Some s' /\ P (i + Z.of_nat n) s'.
Proof.
induction n as [|n IH]; intros i s Hs Hstep; simpl.
- exists s. split; [done|]. by replace (i + Z.of_nat 0) with i by lia.
- destruct (Hstep i s) as (t' & -> & Ht'); [lia|done|].
  destruct (IH (i + 1) t' Ht') as (s' & -> & Hs').
  + intros j t Hj. apply Hstep. lia.
  + exists s'. split; [done|].
    by replace (i + Z.of_nat (S n)) with (i + 1 + Z.of_nat n) by lia.
Qed.

(** ** The network evaluator *)

Section NNProofs.
Context `{Libc}.

Lemma load_at (h : nn_heap) a net items i :
  h !! a = Some {| blk_net := net; blk_items := items |} ->
  0 <= i < Z.of_nat (length items) ->
  exists x, items !! Z.to_nat i = Some x /\ load h (a, i) = Some x.
Proof.
  intros Hh Hi. destruct (lookup_lt_is_Some_2 items (Z.to_nat i)) as [x Hx]; [lia|].
  exists x. split; [done|]. unfold load; simpl. rewrite Hh; simpl.
  destruct (Z.leb_spec 0 i); [done|lia].
Qed.

Lemma store_at (h : nn_heap) a net items i v :
  h !! a = Some {| blk_net := net; blk_items := items |} ->
  0 <= i < Z.of_nat (length items) ->
  store h (a, i) v =
    Some (<[a := {| blk_net := net; blk_items := <[Z.to_nat i := v]> items |}]> h).
Proof.
  intros Hh Hi. unfold store; simpl. rewrite Hh; simpl.
  destruct (Z.leb_spec 0 i); [|lia].
  destruct (Z.ltb_spec i (Z.of_nat (length items))); [done|lia].
Qed.

Lemma mul_zero_finite (w x : float) :
  is_zero w = true -> is_finite x = true -> is_zero (F32.mul w x) = true.
Proof. by destruct w, x. Qed.

Lemma add_zero_zero (x y : float) :
  is_zero x = true -> is_zero y = true -> is_zero (F32.add x y) = true.
Proof. destruct x as [[]| | |], y as [[]| | |]; done. Qed.

Lemma nn_activate_known act x :
  known_activation act -> exists v, nn_activate act x = Some v.
Proof. destruct act; simpl; eauto. done. Qed.

Lemma nn_neuron_spec (h : nn_heap) a net items b act wi ii oi nw :
  h !! a = Some {| blk_net := net; blk_items := items |} ->
  known_activation act ->
  0 <= nw -> 0 <= wi -> wi + nw + 1 <= Z.of_nat (length items) ->
  0 <= ii -> ii + nw <= Z.of_nat (length items) ->
  0 <= oi < Z.of_nat (length items) ->
  exists sum v,
    nn_activate act sum = Some v /\
    nn_neuron b act (a, ii) nw
      {| c_heap := h; c_weight := (a, wi); c_output := (a, oi) |} =
    Some {| c_heap :=
              <[a := {| blk_net := net;
                        blk_items := <[Z.to_nat oi := v]> items |}]> h;
            c_weight := (a, wi + nw + 1);
            c_output := (a, oi + 1) |} /\
    (range_Forall (fun x => is_zero x = true) wi (wi + nw + 1) items ->
     is_finite b = true ->
     range_Forall (fun x => is_finite x = true) ii (ii + nw) items ->
     is_zero sum = true).
Proof.
  intros Hh Hact Hnw Hwi Hwn Hii Hin Hoi.
  unfold nn_neuron; simpl.
  destruct (load_at h a net items wi Hh) as (w0 & Hw0 & ->); [lia|]. simpl.
  set (cond :=
    range_Forall (fun x => is_zero x = true) wi (wi + nw + 1) items /\
    is_finite b = true /\
    range_Forall (fun x => is_finite x = true) ii (ii + nw) items).
  destruct (c_for_inv
    (fun k (t : float * ptr) =>
       t.2 = (a, wi + 1 + k) /\ (cond -> is_zero t.1 = true))
    (fun k '(sum, w) =>
       wk ← load h w;
       x ← load h (ptr_add (a, ii) k);
       Some (F32.add sum (F32.mul wk x), ptr_add w 1))
    (Z.to_nat nw) 0 (F32.mul w0 b, ptr_add (a, wi) 1))
    as ([sum w] & -> & Hw & Hsum).
  - simpl. split; [unfold ptr_add; simpl; f_equal; lia|].
    intros (Hz & Hb & _). apply mul_zero_finite; [|done].
    apply (Hz (Z.to_nat wi) w0); [lia|done].
  - intros k [sum w] Hk [Hw Hsum]. simpl in Hw. subst w.
    destruct (load_at h a net items (wi + 1 + k) Hh) as (wk & Hwk & ->); [lia|].
    simpl. change (ptr_add (a, ii) k) with (a, ii + k).
    destruct (load_at h a net items (ii + k) Hh) as (x & Hx & ->); [lia|].
    simpl. eexists. split; [done|]. simpl. split.
    + unfold ptr_add; simpl. f_equal. lia.
    + intros Hc. pose proof Hc as (Hz & Hb & Hf).
      apply add_zero_zero; [by apply Hsum|].
      apply mul_zero_finite.
      * apply (Hz (Z.to_nat (wi + 1 + k)) wk); [lia|done].
      * apply (Hf (Z.to_nat (ii + k)) x); [lia|done].
  - simpl in Hw. subst w. rewrite Z2Nat.id in * by lia.
    destruct (nn_activate_known act sum Hact) as [v Hv].
    exists sum, v. split; [done|]. simpl. rewrite Hv. simpl.
    rewrite (store_at h a net items oi v Hh) by lia. simpl.
    split; [do 3 f_equal; lia|].
    intros ? ? ?. apply Hsum. by split.
Qed.

Lemma nn_layer_spec (h : nn_heap) a net items b act wi ii oi nw count :
  h !! a = Some {| blk_net := net; blk_items := items |} ->
  known_activation act ->
  0 <= nw -> 0 <= wi -> 0 <= ii -> 0 <= count ->
  wi + count * (nw + 1) <= oi -> ii + nw <= oi ->
  oi + count <= Z.of_nat (length items) ->
  exists items',
    nn_layer b act (a, ii) nw count
      {| c_heap := h; c_weight := (a, wi); c_output := (a, oi) |} =
    Some {| c_heap := <[a := {| blk_net := net; blk_items := items' |}]> h;
            c_weight := (a, wi + count * (nw + 1));
            c_output := (a, oi + count) |} /\
    length items' = length items /\
    (forall k : nat, ~ (oi <= Z.of_nat k < oi + count) ->
       items' !! k = items !! k) /\
    (zero_weights b wi (wi + count * (nw + 1)) ii (ii + nw) items ->
     range_Forall (act_zero act) oi (oi + count) items').
Proof.
  intros Hh Hact Hnw Hwi Hii Hcount Hw Hi Ho.
  assert (Hoi : 0 <= oi) by nia.
  unfold nn_layer.
  destruct (c_for_inv
    (fun j (c : cursor) =>
       exists items',
         c = {| c_heap := <[a := {| blk_net := net; blk_items := items' |}]> h;
                c_weight := (a, wi + j * (nw + 1));
                c_output := (a, oi + j) |} /\
         length items' = length items /\
         (forall k : nat, ~ (oi <= Z.of_nat k < oi + j) ->
            items' !! k = items !! k) /\
         (zero_weights b wi (wi + count * (nw + 1)) ii (ii + nw) items ->
          range_Forall (act_zero act) oi (oi + j) items'))
    (fun _ c => nn_neuron b act (a, ii) nw c)
    (Z.to_nat count) 0
    {| c_heap := h; c_weight := (a, wi); c_output := (a, oi) |})
    as (c' & Hc' & items' & -> & Hlen & Hsame & Hval).
  - exists items. rewrite insert_id by done.
    split; [do 2 f_equal; f_equal; lia|]. split; [done|]. split; [done|].
    intros _ k x Hk. lia.
  - intros j c Hj (items1 & -> & Hlen & Hsame & Hval).
    rewrite Z2Nat.id in Hj by lia.
    destruct (nn_neuron_spec
      (<[a := {| blk_net := net; blk_items := items1 |}]> h) a net items1
      b act (wi + j * (nw + 1)) ii (oi + j) nw)
      as (sum & v & Hv & Hrun & Hz);
      try rewrite Hlen; try done; try nia.
    { apply lookup_insert_eq. }
    rewrite Hrun, insert_insert_eq.
    eexists. split; [done|].
    exists (<[Z.to_nat (oi + j) := v]> items1).
    split; [f_equal; f_equal; (lia || nia)|].
    split; [by rewrite length_insert|].
    split.
    + intros k Hk. rewrite list_lookup_insert_ne by lia. apply Hsame. lia.
    + intros Hzw k x Hk Hx.
      destruct (decide (k = Z.to_nat (oi + j))) as [->|Hne].
      * rewrite list_lookup_insert_eq in Hx by lia. injection Hx as <-.
        assert (Hs : is_zero sum = true).
        { destruct Hzw as (Hzw & Hb & Hf). apply Hz; [|done|].
          - intros k' x' Hk' Hx'. rewrite Hsame in Hx' by nia.
            apply (Hzw k' x'); [nia|done].
          - intros k' x' Hk' Hx'. rewrite Hsame in Hx' by lia.
            apply (Hf k' x'); [lia|done]. }
        destruct sum; try done. by eexists.
      * rewrite list_lookup_insert_ne in Hx by done.
        apply (Hval Hzw k x); [lia|done].
  - rewrite Z2Nat.id in * by lia. simpl in *.
    exists items'. rewrite Hc'. done.
Qed.

Lemma copy_inputs_spec (h : nn_heap) a net items base inputs n :
  h !! a = Some {| blk_net := net; blk_items := items |} ->
  0 <= base -> 0 <= n -> base + n <= Z.of_nat (length items) ->
  n <= Z.of_nat (length inputs) ->
  exists items',
    copy_inputs (a, base) inputs n h =
      Some (<[a := {| blk_net := net; blk_items := items' |}]> h) /\
    length items' = length items /\
    (forall k : nat, ~ (base <= Z.of_nat k < base + n) ->
       items' !! k = items !! k) /\
    (forall k : nat, Z.of_nat k < n ->
       items' !! (Z.to_nat base + k)%nat = inputs !! k).
Proof.
  intros Hh Hbase Hn Hlen Hin. unfold copy_inputs.
  destruct (c_for_inv
    (fun j (h' : nn_heap) =>
       exists items',
         h' = <[a := {| blk_net := net; blk_items := items' |}]> h /\
         length items' = length items /\
         (forall k : nat, ~ (base <= Z.of_nat k < base + j) ->
            items' !! k = items !! k) /\
         (forall k : nat, Z.of_nat k < j ->
            items' !! (Z.to_nat base + k)%nat = inputs !! k))
    (fun k h' => x ← inputs !! Z.to_nat k; store h' (ptr_add (a, base) k) x)
    (Z.to_nat n) 0 h) as (h' & Hrun & items' & -> & Hl & Hsame & Hval).
  - exists items. rewrite insert_id by done.
    split; [done|]. split; [done|]. split; [done|]. intros k Hk. lia.
  - intros j h' Hj (items1 & -> & Hl & Hsame & Hval).
    rewrite Z2Nat.id in Hj by lia.
    destruct (lookup_lt_is_Some_2 inputs (Z.to_nat j)) as [x Hx]; [lia|].
    rewrite Hx. simpl. change (ptr_add (a, base) j) with (a, base + j).
    rewrite (store_at _ a net items1 (base + j) x) by
      (try apply lookup_insert_eq; lia).
    rewrite insert_insert_eq. eexists. split; [done|].
    exists (<[Z.to_nat (base + j) := x]> items1).
    split; [done|]. split; [by rewrite length_insert|]. split.
    + intros k Hk. rewrite list_lookup_insert_ne by lia. apply Hsame. lia.
    + intros k Hk. destruct (decide (k = Z.to_nat j)) as [->|Hne].
      * rewrite <- Z2Nat.inj_add by lia.
        rewrite list_lookup_insert_eq by lia. done.
      * rewrite list_lookup_insert_ne by lia. apply Hval. lia.
  - rewrite Z2Nat.id in * by lia. simpl in *. exists items'. by rewrite Hrun.
Qed.

Lemma nn_sigmoid_zero (s : bool) :
  exp_zero_one -> nn_sigmoid (S754_zero s) = f_half.
Proof.
  intros Hexp. unfold nn_sigmoid. simpl.
  rewrite Hexp. by destruct s.
Qed.

Lemma nn_fast_sigmoid_zero (s : bool) :
  nn_fast_sigmoid (S754_zero s) = S754_zero s.
Proof. by destruct s. Qed.

Lemma nn_relu_zero (s : bool) : nn_relu (S754_zero s) = S754_zero s.
Proof. by destruct s. Qed.

Lemma act_zero_finite act v :
  exp_zero_one -> act_zero act v -> is_finite v = true.
Proof.
  intros Hexp [s Hs]. destruct act; simpl in Hs; try done;
    injection Hs as <-.
  - by rewrite nn_sigmoid_zero.
  - by rewrite nn_fast_sigmoid_zero.
  - by rewrite nn_relu_zero.
Qed.

Lemma nn_ffnet_run_loops_spec (h : nn_heap) a net items inputs :
  h !! a = Some {| blk_net := net; blk_items := items |} ->
  nn_wf a {| blk_net := net; blk_items := items |} ->
  ninputs net <= Z.of_nat (length inputs) ->
  let ret := nweights net + ninputs net + nhiddens net * nhidden_layers net in
  exists items',
    nn_ffnet_run_loops a inputs h =
      Some ((a, ret),
            {| c_heap := <[a := {| blk_net := net; blk_items := items' |}]> h;
               c_weight := (a, nweights net);
               c_output := (a, nweights net + nneurons net) |}) /\
    length items' = length items /\
    (forall k : nat, Z.of_nat k < nweights net -> items' !! k = items !! k) /\
    (zero_run net items inputs ->
     range_Forall (act_zero (output_activation net)) ret
       (ret + noutputs net) items').
Proof.
  intros Hh [Htop HW HN Hwp Hop Hlen _ Hha Hoa] Hin ret. simpl in *.
  destruct Htop as (HI & HO & HH & HL & HHL).
  unfold nn_ffnet_run_loops. rewrite Hh. simpl. rewrite Hop, Hwp.
  set (I := ninputs net) in *. set (Hd := nhiddens net) in *.
  set (O := noutputs net) in *. set (L := nhidden_layers net) in *.
  set (NW := nweights net) in *.
  assert (HNW : 0 <= NW /\
                (0 < L ->
                 (I + 1) * Hd + (L - 1) * (Hd + 1) * Hd + (Hd + 1) * O = NW)
                /\ (L = 0 -> (I + 1) * O = NW)).
  { unfold weight_count in HW.
    destruct (Z.ltb_spec 0 L); split; try split; try lia; nia. }
  destruct HNW as (HNW0 & HNWp & HNWz).
  unfold neuron_count in HN.
  destruct (copy_inputs_spec h a net items NW inputs I Hh)
    as (items1 & -> & Hl1 & Hsame1 & Hval1); try lia; try nia.
  simpl.
  set (Wf := fun i : Z => if i =? 0 then 0 else (I + 1) * Hd + (i - 1) * (Hd + 1) * Hd).
  set (Inf := fun i : Z => if i =? 0 then 0 else I + (i - 1) * Hd).
  match goal with
  | |- context [c_for ?n ?i0 ?body ?s0] =>
    destruct (c_for_inv
      (fun i (t : cursor * ptr) =>
         exists items',
           t.1 = {| c_heap := <[a := {| blk_net := net; blk_items := items' |}]> h;
                    c_weight := (a, Wf i);
                    c_output := (a, NW + I + i * Hd) |} /\
           t.2 = (a, NW + Inf i) /\
           length items' = length items /\
           (forall k : nat, Z.of_nat k < NW -> items' !! k = items !! k) /\
           (zero_run net items inputs ->
            range_Forall (fun x => is_finite x = true) NW (NW + I + i * Hd) items'))
      body n i0 s0)
      as ([c input] & -> & items2 & Hc & Hinp & Hl2 & Hsame2 & Hfin2)
  end.
  - exists items1. simpl.
    split; [f_equal; unfold ptr_add; simpl; f_equal; lia|].
    split; [f_equal; unfold Inf; simpl; lia|].
    split; [done|]. split; [intros k Hk; apply Hsame1; lia|].
    intros (_ & _ & _ & Hfi) k x Hk Hx.
    replace k with (Z.to_nat NW + (k - Z.to_nat NW))%nat in Hx by lia.
    rewrite Hval1 in Hx by lia.
    rewrite Forall_lookup in Hfi. apply (Hfi (k - Z.to_nat NW)%nat x).
    rewrite lookup_take_lt by lia. done.
  - intros i [c input] Hi (items2 & Hc & Hinp & Hl2 & Hsame2 & Hfin2).
    simpl in Hc, Hinp. subst c input. rewrite Z2Nat.id in Hi by lia.
    assert (HLp : 0 < L) by lia. assert (HHp : 0 < Hd) by lia.
    specialize (HNWp HLp).
    set (nw := if i =? 0 then I else Hd).
    assert (Hnw : 0 < nw /\ Wf i + Hd * (nw + 1) = Wf (i + 1)
                  /\ Inf i + nw = Inf (i + 1) /\ Inf (i + 1) = I + i * Hd
                  /\ 0 <= Wf i /\ 0 <= Inf i /\ Wf (i + 1) <= NW).
    { unfold nw, Wf, Inf. destruct (Z.eqb_spec i 0) as [Hi0|Hne];
        destruct (Z.eqb_spec (i + 1) 0); try lia; repeat split; try nia. }
    destruct Hnw as (Hnw0 & HWf & HInf & HInf' & HWf0 & HInf0 & HWfle).
    destruct (nn_layer_spec
      (<[a := {| blk_net := net; blk_items := items2 |}]> h) a net items2
      (bias net) (hidden_activation net) (Wf i) (NW + Inf i)
      (NW + I + i * Hd) nw Hd)
      as (items3 & Hrun & Hl3 & Hsame3 & Hval3);
      try rewrite Hl2; try done; try lia; try nia.
    { apply lookup_insert_eq. }
    rewrite Hrun, insert_insert_eq. simpl.
    eexists. split; [done|]. exists items3. simpl.
    split; [f_equal; f_equal; nia|].
    split; [unfold ptr_add; simpl; f_equal; lia|].
    split; [lia|].
    split; [intros k Hk; rewrite Hsame3 by lia; by apply Hsame2|].
    intros Hz k x Hk Hx.
    destruct (Z.lt_ge_cases (Z.of_nat k) (NW + I + i * Hd)) as [Hlt|Hge].
    + rewrite Hsame3 in Hx by lia. apply (Hfin2 Hz k x); [lia|done].
    + pose proof Hz as (Hexp & Hzw & Hb & Hfi).
      apply (act_zero_finite (hidden_activation net)); [done|].
      apply (Hval3) with (k := k); [|nia|done].
      split; [|split; [done|]].
      * intros k' x' Hk' Hx'. rewrite Hsame2 in Hx' by nia.
        apply (Hzw k' x'); [nia|done].
      * intros k' x' Hk' Hx'. apply (Hfin2 Hz k' x'); [nia|done].
  - simpl in Hc, Hinp. subst c input. rewrite Z2Nat.id in * by lia.
    set (nw := if L =? 0 then I else Hd).
    assert (Hnw : 0 < nw /\ Wf L + O * (nw + 1) = NW
                  /\ Inf L + nw = I + Hd * L /\ 0 <= Wf L /\ 0 <= Inf L).
    { unfold nw, Wf, Inf. destruct (Z.eqb_spec L 0) as [HL0|Hne].
      - specialize (HNWz HL0). repeat split; try lia; nia.
      - assert (HLp : 0 < L) by lia. specialize (HNWp HLp).
        repeat split; try lia; nia. }
    destruct Hnw as (Hnw0 & HWf & HInf & HWf0 & HInf0).
    destruct (nn_layer_spec
      (<[a := {| blk_net := net; blk_items := items2 |}]> h) a net items2
      (bias net) (output_activation net) (Wf L) (NW + Inf L)
      (NW + I + L * Hd) nw O)
      as (items3 & Hrun & Hl3 & Hsame3 & Hval3);
      try rewrite Hl2; try done; try lia; try nia.
    { apply lookup_insert_eq. }
    simpl. replace (0 + L) with L by lia.
    rewrite Hrun, insert_insert_eq. simpl.
    exists items3.
    split; [unfold ret; do 2 f_equal; [f_equal; lia|f_equal; f_equal; nia]|].
    split; [lia|].
    split; [intros k Hk; rewrite Hsame3 by lia; by apply Hsame2|].
    intros Hz k x Hk Hx.
    pose proof Hz as (Hexp & Hzw & Hb & Hfi).
    apply (Hval3) with (k := k); [|unfold ret in Hk; nia|done].
    split; [|split; [done|]].
    * intros k' x' Hk' Hx'. rewrite Hsame2 in Hx' by nia.
      apply (Hzw k' x'); [nia|done].
    * intros k' x' Hk' Hx'. apply (Hfin2 Hz k' x'); [nia|done].
Qed.

Lemma size_wrap_small z : 0 <= z <= SIZE_MAX -> size_wrap z = z.
Proof. intros Hz. unfold size_wrap, SIZE_MAX in *. apply Z.mod_small. lia. Qed.

Lemma counts_nonneg I Hd O L :
  valid_topology I Hd O L ->
  0 <= weight_count I Hd O L /\ 0 <= neuron_count I Hd O L.
Proof.
  intros (HI & HO & HH & HL & HHL). unfold weight_count, neuron_count.
  destruct (Z.ltb_spec 0 L); split; nia.
Qed.

Lemma total_weights_of_fits I Hd O L :
  valid_topology I Hd O L -> fits I Hd O L ->
  total_weights_of I Hd O L = weight_count I Hd O L.
Proof.
  intros Hv Hf. pose proof (counts_nonneg I Hd O L Hv) as [Hw Hn].
  destruct Hv as (HI & HO & HH & HL & HHL).
  unfold fits, sizeof_nn_ffnet, sizeof_float in Hf.
  unfold total_weights_of, hidden_weights_of, output_weights_of.
  unfold weight_count, neuron_count in *.
  destruct (Z.ltb_spec 0 L) as [HLp|HLz].
  - assert (0 < Hd) by lia.
    rewrite (size_wrap_small ((I + 1) * Hd)) by nia.
    rewrite (size_wrap_small (L - 1)) by nia.
    rewrite (size_wrap_small (Hd + 1)) by nia.
    rewrite (size_wrap_small ((L - 1) * (Hd + 1))) by nia.
    rewrite (size_wrap_small ((L - 1) * (Hd + 1) * Hd)) by nia.
    rewrite (size_wrap_small ((I + 1) * Hd + (L - 1) * (Hd + 1) * Hd)) by nia.
    rewrite (size_wrap_small ((Hd + 1) * O)) by nia.
    rewrite size_wrap_small by nia. done.
  - rewrite (size_wrap_small (I + 1)) by nia.
    rewrite (size_wrap_small ((I + 1) * O)) by nia.
    rewrite size_wrap_small by nia. lia.
Qed.

Lemma total_neurons_of_fits I Hd O L :
  valid_topology I Hd O L -> fits I Hd O L ->
  total_neurons_of I Hd O L = neuron_count I Hd O L.
Proof.
  intros Hv Hf. pose proof (counts_nonneg I Hd O L Hv) as [Hw Hn].
  destruct Hv as (HI & HO & HH & HL & HHL).
  unfold fits, sizeof_nn_ffnet, sizeof_float in Hf.
  unfold total_neurons_of. unfold neuron_count in *.
  rewrite (size_wrap_small (Hd * L)) by nia.
  rewrite (size_wrap_small (I + Hd * L)) by nia.
  rewrite size_wrap_small by nia. done.
Qed.

Lemma nn_ffnet_create_spec I Hd O L (h : nn_heap) :
  valid_topology I Hd O L -> fits I Hd O L ->
  let a := malloc (dom h) in
  let net :=
    {| ninputs := I; nhiddens := Hd; noutputs := O; nhidden_layers := L;
       nweights := weight_count I Hd O L;
       nneurons := neuron_count I Hd O L;
       hidden_activation := NN_ACTIVATION_SIGMOID;
       output_activation := NN_ACTIVATION_SIGMOID;
       bias := F32.round (F64.of_Z (-1));
       weight := (a, 0);
       output := (a, weight_count I Hd O L) |} in
  let items :=
    replicate (Z.to_nat (weight_count I Hd O L + neuron_count I Hd O L))
      (S754_zero false) in
  nn_ffnet_create I Hd O L h =
    Some (a, <[a := {| blk_net := net; blk_items := items |}]> h) /\
  nn_wf a {| blk_net := net; blk_items := items |}.
Proof.
  intros Hv Hf a net items.
  pose proof (counts_nonneg I Hd O L Hv) as [Hw Hn].
  pose proof (total_weights_of_fits I Hd O L Hv Hf) as HW.
  pose proof (total_neurons_of_fits I Hd O L Hv Hf) as HN.
  pose proof Hv as (HI & HO & HH & HL & HHL).
  pose proof Hf as Hf'. unfold fits, sizeof_nn_ffnet, sizeof_float in Hf'.
  split.
  - unfold nn_ffnet_create.
    destruct (Z.ltb_spec 0 I); [|lia]. destruct (Z.ltb_spec 0 O); [|lia]. simpl.
    replace (Bool.eqb (0 <? Hd) (0 <? L)) with true
      by (destruct (Z.ltb_spec 0 Hd), (Z.ltb_spec 0 L); simpl; lia).
    simpl. rewrite HW, HN.
    rewrite (size_wrap_small (weight_count I Hd O L + neuron_count I Hd O L))
      by lia.
    unfold sizeof_float, sizeof_nn_ffnet.
    rewrite size_wrap_small by lia.
    destruct (Z.ltb_spec SIZE_MAX
      (80 + 4 * (weight_count I Hd O L + neuron_count I Hd O L))); [lia|].
    rewrite Z.mul_comm, Z.div_mul by lia. done.
  - constructor; simpl; try done.
    unfold items. rewrite length_replicate. lia.
Qed.

Lemma c_for_rel {St Tt : Type} (R : St -> Tt -> Prop)
    (body1 : Z -> St -> option St) (body2 : Z -> Tt -> option Tt) :
  (forall j s t, R s t -> option_Forall2 R (body1 j s) (body2 j t)) ->
  forall (n : nat) (i : Z) (s : St) (t : Tt),
    R s t -> option_Forall2 R (c_for n i body1 s) (c_for n i body2 t).
Proof.
  intros Hbody. induction n as [|n IH]; intros i s t Hst; simpl.
  - by constructor.
  - destruct (Hbody i s t Hst); [by apply IH|constructor].
Qed.

Lemma c_for_pres {St : Type} (P : St -> Prop) (body : Z -> St -> option St) :
  (forall j s s', P s -> body j s = Some s' -> P s') ->
  forall (n : nat) (i : Z) (s s' : St),
    P s -> c_for n i body s = Some s' -> P s'.
Proof.
  intros Hbody. induction n as [|n IH]; intros i s s' Hs; simpl.
  - by intros [= <-].
  - destruct (body i s) as [t|] eqn:Ht; [|done]. apply IH. by eapply Hbody.
Qed.

Lemma load_agree a b (h1 h2 : nn_heap) i :
  blocks_agree a b h1 h2 -> load h1 (a, i) = load h2 (b, i).
Proof.
  intros (net1 & net2 & items & H1 & H2). unfold load. simpl.
  by rewrite H1, H2.
Qed.

Lemma store_agree a b (h1 h2 : nn_heap) i v :
  blocks_agree a b h1 h2 ->
  option_Forall2 (blocks_agree a b) (store h1 (a, i) v) (store h2 (b, i) v).
Proof.
  intros (net1 & net2 & items & H1 & H2). unfold store. simpl.
  rewrite H1, H2. simpl.
  destruct ((0 <=? i) && (i <? Z.of_nat (length items))); constructor.
  exists net1, net2, (<[Z.to_nat i := v]> items).
  by rewrite !lookup_insert_eq.
Qed.

Lemma nn_neuron_agree a b bs act ii nw c1 c2 :
  cursor_agree a b c1 c2 ->
  option_Forall2 (cursor_agree a b)
    (nn_neuron bs act (a, ii) nw c1) (nn_neuron bs act (b, ii) nw c2).
Proof.
  intros (Hh & wi & oi & Hw1 & Hw2 & Ho1 & Ho2). unfold nn_neuron.
  rewrite Hw1, Hw2, Ho1, Ho2. rewrite (load_agree a b _ _ wi Hh).
  destruct (load (c_heap c2) (b, wi)) as [w0|]; simpl; [|constructor].
  destruct (c_for_rel
    (fun (s t : float * ptr) =>
       s.1 = t.1 /\ exists k, s.2 = (a, k) /\ t.2 = (b, k))
    (fun k '(sum, w) =>
       wk ← load (c_heap c1) w;
       x ← load (c_heap c1) (ptr_add (a, ii) k);
       Some (F32.add sum (F32.mul wk x), ptr_add w 1))
    (fun k '(sum, w) =>
       wk ← load (c_heap c2) w;
       x ← load (c_heap c2) (ptr_add (b, ii) k);
       Some (F32.add sum (F32.mul wk x), ptr_add w 1))) with
    (n := Z.to_nat nw) (i := 0) (s := (F32.mul w0 bs, ptr_add (a, wi) 1))
    (t := (F32.mul w0 bs, ptr_add (b, wi) 1))
    as [[sum1 p1] [sum2 p2] (Hs & k & Hp1 & Hp2)|].
  - intros j [s1 p1] [s2 p2] (Hs & k & Hp1 & Hp2). simpl in *. subst.
    rewrite (load_agree a b _ _ k Hh).
    destruct (load (c_heap c2) (b, k)) as [wk|]; simpl; [|constructor].
    change (ptr_add (a, ii) j) with (a, ii + j).
    change (ptr_add (b, ii) j) with (b, ii + j).
    rewrite (load_agree a b _ _ (ii + j) Hh).
    destruct (load (c_heap c2) (b, ii + j)) as [x|]; simpl; constructor.
    simpl. split; [done|]. by exists (k + 1).
  - simpl. split; [done|]. by exists (wi + 1).
  - simpl in *. subst. simpl.
    destruct (nn_activate act sum2) as [v|]; simpl; [|constructor].
    destruct (store_agree a b _ _ oi v Hh) as [h1' h2' Hh'|]; simpl;
      constructor.
    split; [done|]. simpl. by exists k, (oi + 1).
  - simpl. constructor.
Qed.

Lemma nn_layer_agree a b bs act ii nw count c1 c2 :
  cursor_agree a b c1 c2 ->
  option_Forall2 (cursor_agree a b)
    (nn_layer bs act (a, ii) nw count c1)
    (nn_layer bs act (b, ii) nw count c2).
Proof.
  intros Hc. unfold nn_layer. apply c_for_rel; [|done].
  intros _ s t Hst. by apply nn_neuron_agree.
Qed.

Lemma nn_ffnet_run_spec (h : nn_heap) a net items inputs :
  h !! a = Some {| blk_net := net; blk_items := items |} ->
  nn_wf a {| blk_net := net; blk_items := items |} ->
  ninputs net <= Z.of_nat (length inputs) ->
  let ret := nweights net + ninputs net + nhiddens net * nhidden_layers net in
  exists items',
    nn_ffnet_run a inputs h =
      Some ((a, ret), <[a := {| blk_net := net; blk_items := items' |}]> h) /\
    length items' = length items /\
    (forall k : nat, Z.of_nat k < nweights net -> items' !! k = items !! k) /\
    (zero_run net items inputs ->
     range_Forall (act_zero (output_activation net)) ret
       (ret + noutputs net) items').
Proof.
  intros Hh Hwf Hin ret.
  destruct (nn_ffnet_run_loops_spec h a net items inputs Hh Hwf Hin)
    as (items' & Hrun & Hrest).
  exists items'. split; [|done].
  unfold nn_ffnet_run. rewrite Hh. simpl. rewrite Hrun. simpl.
  destruct Hwf as [_ _ _ Hwp Hop _ _ _ _]. simpl in *. rewrite Hwp, Hop.
  unfold ptr_diff. simpl. rewrite Nat.eqb_refl.
  rewrite !bool_decide_eq_true_2 by (f_equal; lia). done.
Qed.

Lemma read_floats_spec (h : nn_heap) a net items base n (P : float -> Prop) :
  h !! a = Some {| blk_net := net; blk_items := items |} ->
  0 <= base -> 0 <= n -> base + n <= Z.of_nat (length items) ->
  range_Forall P base (base + n) items ->
  exists outs,
    read_floats h (a, base) n = Some outs /\
    length outs = Z.to_nat n /\ Forall P outs.
Proof.
  intros Hh Hbase Hn Hlen HP. unfold read_floats.
  destruct (mapM (fun k => load h (ptr_add (a, base) (Z.of_nat k)))
              (seq 0 (Z.to_nat n))) as [outs|] eqn:Hm.
  - exists outs. split; [done|]. apply mapM_Some_1 in Hm.
    split; [by rewrite <- (Forall2_length _ _ _ Hm), length_seq|].
    apply Forall_lookup. intros i x Hx.
    destruct (Forall2_lookup_r _ _ _ _ _ Hm Hx) as (k & Hk & Hload).
    apply lookup_seq in Hk as [-> Hk].
    change (ptr_add (a, base) (Z.of_nat (0 + i)))
      with (a, base + Z.of_nat (0 + i)%nat) in Hload.
    destruct (load_at h a net items (base + Z.of_nat (0 + i)%nat) Hh)
      as (y & Hy & Hload'); [lia|].
    rewrite Hload' in Hload. injection Hload as ->.
    apply (HP (Z.to_nat (base + Z.of_nat (0 + i)%nat)) x); [lia|done].
  - exfalso. apply eq_None_not_Some in Hm. apply Hm.
    apply mapM_is_Some, Forall_forall. intros k Hk.
    apply elem_of_seq in Hk.
    destruct (load_at h a net items (base + Z.of_nat k) Hh)
      as (y & Hy & Hload'); [lia|].
    unfold compose. change (ptr_add (a, base) (Z.of_nat k)) with (a, base + Z.of_nat k).
    rewrite Hload'. done.
Qed.

(** The outputs of a network whose weights are all zero. *)
Lemma nn_outputs_zero_weights (h : nn_heap) a net items inputs :
  h !! a = Some {| blk_net := net; blk_items := items |} ->
  nn_wf a {| blk_net := net; blk_items := items |} ->
  ninputs net <= Z.of_nat (length inputs) ->
  zero_run net items inputs ->
  exists outs,
    nn_outputs a inputs h = Some outs /\
    length outs = Z.to_nat (noutputs net) /\
    Forall (act_zero (output_activation net)) outs.
Proof.
  intros Hh Hwf Hin Hz.
  destruct (nn_ffnet_run_spec h a net items inputs Hh Hwf Hin)
    as (items' & Hrun & Hlen & _ & Hval).
  unfold nn_outputs. rewrite Hh. simpl. rewrite Hrun. simpl.
  destruct Hwf as [(HI & HO & HH & HL & HHL) HW HN _ _ Hl _ _ _]. simpl in *.
  pose proof (counts_nonneg _ _ _ _ (conj HI (conj HO (conj HH (conj HL HHL)))))
    as [Hw0 Hn0].
  unfold neuron_count in *.
  apply (read_floats_spec _ a net items'); try lia; try nia.
  - apply lookup_insert_eq.
  - by apply Hval.
Qed.

Lemma copy_inputs_agree a b (h1 h2 : nn_heap) i inputs n :
  blocks_agree a b h1 h2 ->
  option_Forall2 (blocks_agree a b)
    (copy_inputs (a, i) inputs n h1) (copy_inputs (b, i) inputs n h2).
Proof.
  intros Hh. unfold copy_inputs. apply c_for_rel; [|done].
  intros j s t Hst. destruct (inputs !! Z.to_nat j); simpl; [|constructor].
  by apply store_agree.
Qed.

Lemma nn_ffnet_run_loops_agree a b (h1 h2 : nn_heap) net1 net2 items inputs :
  h1 !! a = Some {| blk_net := net1; blk_items := items |} ->
  h2 !! b = Some {| blk_net := net2; blk_items := items |} ->
  net_agree a b net1 net2 ->
  option_Forall2 (result_agree (cursor_agree a b) a b)
    (nn_ffnet_run_loops a inputs h1) (nn_ffnet_run_loops b inputs h2).
Proof.
  intros H1 H2 (HI & HH & HO & HL & HW & HN & Hha & Hoa & Hb &
                wi & oi & Hw1 & Hw2 & Ho1 & Ho2).
  unfold nn_ffnet_run_loops. rewrite H1, H2. simpl.
  rewrite Hw1, Hw2, Ho1, Ho2, HI, HH, HO, HL, Hha, Hoa, Hb.
  destruct (copy_inputs_agree a b h1 h2 oi inputs (ninputs net2))
    as [h1' h2' Hh'|]; [by exists net1, net2, items| |constructor].
  simpl.
  match goal with
  | |- option_Forall2 _ (c_for ?cnt ?i0 ?body1 ?s1 ≫= _)
         (c_for _ _ ?body2 ?s2 ≫= _) =>
    destruct (c_for_rel
      (fun (s t : cursor * ptr) =>
         cursor_agree a b s.1 t.1 /\
         exists k, s.2 = (a, k) /\ t.2 = (b, k))
      body1 body2) with (n := cnt) (i := i0) (s := s1) (t := s2)
      as [[c1 p1] [c2 p2] (Hc & k & Hp1 & Hp2)|]
  end.
  - intros j [c1 p1] [c2 p2] (Hc & k & Hp1 & Hp2). simpl in *. subst.
    destruct (nn_layer_agree a b (bias net2) (hidden_activation net2) k
                (if j =? 0 then ninputs net2 else nhiddens net2)
                (nhiddens net2) c1 c2 Hc) as [c1' c2' Hc'|];
      simpl; constructor.
    split; [done|]. simpl. by eexists.
  - simpl. split; [|by exists oi].
    split; [done|]. simpl. by exists wi, (oi + ninputs net2).
  - simpl in *. subst.
    destruct (nn_layer_agree a b (bias net2) (output_activation net2) k
                (if nhidden_layers net2 =? 0 then ninputs net2
                 else nhiddens net2)
                (noutputs net2) c1 c2 Hc) as [c1' c2' Hc'|];
      simpl; constructor.
    split; [|done]. simpl.
    destruct Hc as (_ & wi' & oi' & _ & _ & -> & ->). by exists oi'.
  - simpl. constructor.
Qed.

Lemma nn_ffnet_run_agree a b (h1 h2 : nn_heap) net1 net2 items inputs :
  h1 !! a = Some {| blk_net := net1; blk_items := items |} ->
  h2 !! b = Some {| blk_net := net2; blk_items := items |} ->
  net_agree a b net1 net2 ->
  option_Forall2 (result_agree (blocks_agree a b) a b)
    (nn_ffnet_run a inputs h1) (nn_ffnet_run b inputs h2).
Proof.
  intros H1 H2 Hn.
  pose proof (nn_ffnet_run_loops_agree a b h1 h2 net1 net2 items inputs
                H1 H2 Hn) as Hl.
  destruct Hn as (HI & HH & HO & HL & HW & HN & Hha & Hoa & Hb &
                  wi & oi & Hw1 & Hw2 & Ho1 & Ho2).
  unfold nn_ffnet_run. rewrite H1, H2. simpl.
  destruct Hl as [[r1 c1] [r2 c2] (Hr & Hh & wi' & oi' & Hcw1 & Hcw2 & Hco1 & Hco2)|];
    simpl; [|constructor]. simpl in *.
  rewrite Hcw1, Hcw2, Hco1, Hco2, Hw1, Hw2, Ho1, Ho2, HW, HN.
  unfold ptr_diff. simpl. rewrite !Nat.eqb_refl.
  destruct (bool_decide (Some (wi' - wi) = Some (nweights net2))); simpl;
    [|constructor].
  destruct (bool_decide (Some (oi' - oi) = Some (nneurons net2))); simpl;
    constructor.
  by split.
Qed.

Lemma mapM_pointwise {A B : Type} (f g : A -> option B) (l : list A) :
  (forall x, f x = g x) -> mapM f l = mapM g l.
Proof.
  intros Hfg. induction l as [|x l IH]; [done|].
  change (mapM f (x :: l)) with (y ← f x; k ← mapM f l; mret (y :: k)).
  change (mapM g (x :: l)) with (y ← g x; k ← mapM g l; mret (y :: k)).
  by rewrite Hfg, IH.
Qed.

Lemma read_floats_agree a b (h1 h2 : nn_heap) k n :
  blocks_agree a b h1 h2 ->
  read_floats h1 (a, k) n = read_floats h2 (b, k) n.
Proof.
  intros Hh. unfold read_floats. apply mapM_pointwise. intros j.
  apply (load_agree a b h1 h2 _ Hh).
Qed.

Lemma nn_outputs_agree a b (h1 h2 : nn_heap) net1 net2 items inputs :
  h1 !! a = Some {| blk_net := net1; blk_items := items |} ->
  h2 !! b = Some {| blk_net := net2; blk_items := items |} ->
  net_agree a b net1 net2 ->
  nn_outputs a inputs h1 = nn_outputs b inputs h2.
Proof.
  intros H1 H2 Hn.
  pose proof (nn_ffnet_run_agree a b h1 h2 net1 net2 items inputs H1 H2 Hn)
    as Hr.
  unfold nn_outputs. rewrite H1, H2. simpl.
  destruct Hr as [[r1 h1'] [r2 h2'] ((k & Hr1 & Hr2) & Hh)|]; simpl; [|done].
  simpl in *. subst.
  destruct Hn as (_ & _ & -> & _). by apply read_floats_agree.
Qed.

Lemma nn_ffnet_copy_spec (h : nn_heap) a net items :
  h !! a = Some {| blk_net := net; blk_items := items |} ->
  nn_wf a {| blk_net := net; blk_items := items |} ->
  let b := malloc (dom h) in
  nn_ffnet_copy a h =
    Some (b, <[b := {| blk_net := nn_ffnet_set_pointers b net;
                       blk_items := items |}]> h) /\
  nn_wf b {| blk_net := nn_ffnet_set_pointers b net; blk_items := items |}.
Proof.
  intros Hh Hwf b. pose proof Hwf as [Htop HW HN Hwp Hop Hlen Hfit Hha Hoa].
  simpl in *. pose proof (counts_nonneg _ _ _ _ Htop) as [Hw0 Hn0].
  rewrite <- HW, <- HN in *.
  assert (Hn1 : 0 < nneurons net).
  { rewrite HN. destruct Htop as (? & ? & ? & ? & ?). unfold neuron_count. nia. }
  unfold sizeof_nn_ffnet, sizeof_float in Hfit.
  split; [|by constructor].
  unfold nn_ffnet_copy. rewrite Hh. simpl.
  unfold sizeof_nn_ffnet, sizeof_float.
  rewrite (size_wrap_small (nweights net + nneurons net)) by lia.
  rewrite (size_wrap_small (4 * _)) by lia.
  rewrite size_wrap_small by lia.
  destruct (Z.ltb_spec 80 (80 + 4 * (nweights net + nneurons net))); [|lia].
  simpl.
  replace ((80 + 4 * (nweights net + nneurons net) - 80) / 4)
    with (nweights net + nneurons net)
    by (rewrite Z.add_simpl_l, Z.mul_comm, Z.div_mul; lia).
  destruct (Z.ltb_spec (Z.of_nat (length items))
              (nweights net + nneurons net)); [lia|].
  rewrite take_ge by lia. done.
Qed.

Lemma store_other (h h' : nn_heap) p v a :
  store h p v = Some h' -> p.1 <> a -> h' !! a = h !! a.
Proof.
  unfold store. destruct (h !! p.1) as [blk|]; simpl; [|done].
  destruct (_ && _); [|done]. intros [= <-] Hne. by rewrite lookup_insert_ne.
Qed.

Lemma store_header (h h' : nn_heap) p v a :
  store h p v = Some h' -> blk_net <$> h' !! a = blk_net <$> h !! a.
Proof.
  unfold store. destruct (h !! p.1) as [blk|] eqn:Hb; simpl; [|done].
  destruct (_ && _); [|done]. intros [= <-].
  destruct (decide (p.1 = a)) as [<-|Hne].
  - by rewrite lookup_insert_eq, Hb.
  - by rewrite lookup_insert_ne.
Qed.

Lemma set_weights_other a b l : forall (h h' : nn_heap) net,
  h !! b = Some net -> (weight (blk_net net)).1 = b -> a <> b ->
  set_weights b l h = Some h' -> h' !! a = h !! a.
Proof.
  induction l as [|[i v] l IH]; intros h h' blk Hb Hp Hne; simpl.
  - by intros [= <-].
  - unfold set_weight. rewrite Hb. simpl.
    destruct (_ && _); [|done].
    destruct (store h (ptr_add (weight (blk_net blk)) i) v) as [h1|] eqn:Hs;
      [|done]. simpl. intros Hrest.
    pose proof (store_header _ _ _ _ b Hs) as Hhdr. rewrite Hb in Hhdr.
    destruct (h1 !! b) as [blk1|] eqn:Hb1; [|done].
    simpl in Hhdr. injection Hhdr as Hhdr.
    rewrite (IH h1 h' blk1 Hb1) by (try done; by rewrite Hhdr).
    apply (store_other _ _ _ _ _ Hs). simpl. by rewrite Hp.
Qed.

Lemma nn_ffnet_randomize_other a b (h h' : nn_heap) rs rs' blk :
  h !! b = Some blk -> (weight (blk_net blk)).1 = b -> a <> b ->
  nn_ffnet_randomize b (h, rs) = Some (h', rs') -> h' !! a = h !! a.
Proof.
  intros Hb Hp Hne. unfold nn_ffnet_randomize. simpl. rewrite Hb. simpl.
  destruct (INT_MAX <? _); [done|]. intros Hrun.
  apply (c_for_pres (fun st : nn_heap * rand_state => st.1 !! a = h !! a))
    in Hrun; [done| |done].
  intros j [h1 r1] [h2 r2] Hinv. simpl in *.
  destruct (rand r1) as [r r1'].
  destruct (store h1 _ _) as [h3|] eqn:Hs; [|done]. simpl.
  intros [= <- <-]. rewrite <- Hinv.
  apply (store_other _ _ _ _ _ Hs). simpl. by rewrite Hp.
Qed.

(** Outputs of the network at [a] depend on the block at [a] only. *)
Lemma nn_outputs_frame a (h1 h2 : nn_heap) blk inputs :
  h1 !! a = Some blk -> h2 !! a = Some blk ->
  (weight (blk_net blk)).1 = a -> (output (blk_net blk)).1 = a ->
  nn_outputs a inputs h1 = nn_outputs a inputs h2.
Proof.
  destruct blk as [net items]. simpl. intros H1 H2 Hw Ho.
  apply (nn_outputs_agree a a h1 h2 net net items); try done.
  repeat split; try done.
  exists (weight net).2, (output net).2.
  destruct (weight net), (output net); simpl in *; by subst.
Qed.

Lemma range_Forall_take (P : float -> Prop) (n : Z) (items : list float) :
  Forall P (take (Z.to_nat n) items) -> range_Forall P 0 n items.
Proof.
  intros HF k x Hk Hx. rewrite Forall_lookup in HF. apply (HF k x).
  rewrite lookup_take_lt by lia. done.
Qed.

Lemma nn_ffnet_create_fields I Hd O L (h h' : nn_heap) a :
  nn_ffnet_create I Hd O L h = Some (a, h') ->
  exists net items,
    h' !! a = Some {| blk_net := net; blk_items := items |} /\
    nweights net = total_weights_of I Hd O L /\
    nneurons net = total_neurons_of I Hd O L.
Proof.
  unfold nn_ffnet_create.
  destruct (negb (0 <? I)); [done|]. destruct (negb (0 <? O)); [done|].
  destruct (negb (Bool.eqb _ _)); [done|]. destruct (SIZE_MAX <? _); [done|].
  intros [= <- <-]. eexists _, _. rewrite lookup_insert_eq. done.
Qed.

Lemma nn_ffnet_create_is_Some I Hd O L (h : nn_heap) :
  0 < I -> 0 < O -> (0 <? Hd) = (0 <? L) ->
  sizeof_nn_ffnet +
  size_wrap (sizeof_float *
             size_wrap (total_weights_of I Hd O L + total_neurons_of I Hd O L))
    <= SIZE_MAX ->
  is_Some (nn_ffnet_create I Hd O L h).
Proof.
  intros HI HO HHL Hsz. unfold nn_ffnet_create.
  destruct (Z.ltb_spec 0 I); [|lia]. destruct (Z.ltb_spec 0 O); [|lia].
  rewrite HHL, eqb_reflx. simpl.
  destruct (Z.ltb_spec SIZE_MAX
    (sizeof_nn_ffnet +
     size_wrap (sizeof_float *
       size_wrap (total_weights_of I Hd O L + total_neurons_of I Hd O L))));
    [lia|]. done.
Qed.

(** C4 (amended).  For every valid topology (I > 0, O > 0, H > 0 iff
    L > 0) whose block size fits [size_t]: [nn_ffnet_create] returns a
    well-formed network of that topology; and for every well-formed network
    of that topology, whatever its weights, the weight count is
    (I+1)H + (L-1)(H+1)H + (H+1)O when L > 0 and (I+1)O when L = 0, the
    weight buffer (from [weight] to [output]) has that length, the scratch
    buffer behind it has I + HL + O slots, and one run moves the weight
    pointer by exactly the weight count and the output pointer by exactly
    the neuron count, one float at a time, so that the two final assertions
    of [nn_ffnet_run] hold. *)
Theorem nn_ffnet_counts (I Hd O L : Z) :
  valid_topology I Hd O L -> fits I Hd O L ->
  (forall h : nn_heap, exists a net items,
     nn_ffnet_create I Hd O L h =
       Some (a, <[a := {| blk_net := net; blk_items := items |}]> h) /\
     ninputs net = I /\ nhiddens net = Hd /\ noutputs net = O /\
     nhidden_layers net = L /\
     nn_wf a {| blk_net := net; blk_items := items |}) /\
  (forall (h : nn_heap) a net items inputs,
     h !! a = Some {| blk_net := net; blk_items := items |} ->
     nn_wf a {| blk_net := net; blk_items := items |} ->
     ninputs net = I -> nhiddens net = Hd -> noutputs net = O ->
     nhidden_layers net = L ->
     I <= Z.of_nat (length inputs) ->
     nweights net = weight_count I Hd O L /\
     nneurons net = neuron_count I Hd O L /\
     ptr_diff (output net) (weight net) = Some (weight_count I Hd O L) /\
     Z.of_nat (length items) - weight_count I Hd O L = neuron_count I Hd O L /\
     exists ret c,
       nn_ffnet_run_loops a inputs h = Some (ret, c) /\
       ptr_diff (c_weight c) (weight net) = Some (weight_count I Hd O L) /\
       ptr_diff (c_output c) (output net) = Some (neuron_count I Hd O L) /\
       nn_ffnet_run a inputs h = Some (ret, c_heap c)).
Proof.
  intros Hv Hf. split.
  - intros h. destruct (nn_ffnet_create_spec I Hd O L h Hv Hf) as [Hc Hwf].
    eexists _, _, _. split; [exact Hc|]. simpl. done.
  - intros h a net items inputs Hh Hwf <- <- <- <- Hin.
    destruct (nn_ffnet_run_loops_spec h a net items inputs Hh Hwf Hin)
      as (items1 & Hl & _).
    destruct (nn_ffnet_run_spec h a net items inputs Hh Hwf Hin)
      as (items2 & Hr & _).
    rewrite Hl in *.
    pose proof Hwf as [_ HW HN Hwp Hop Hlen _ _ _]. simpl in *.
    rewrite <- HW, <- HN, Hwp, Hop. unfold ptr_diff; simpl.
    rewrite Nat.eqb_refl.
    split; [done|]. split; [done|]. split; [f_equal; lia|]. split; [lia|].
    eexists _, _. split; [done|]. simpl. rewrite Nat.eqb_refl.
    split; [f_equal; lia|]. split; [f_equal; lia|].
    unfold nn_ffnet_run in *. rewrite Hh in *. simpl in *.
    rewrite Hl in *. simpl in *. rewrite Hwp, Hop in *.
    unfold ptr_diff in *. simpl in *. rewrite Nat.eqb_refl in *.
    rewrite !bool_decide_eq_true_2 by (f_equal; lia). done.
Qed.

Lemma act_zero_value act v :
  exp_zero_one -> act_zero act v -> zero_value act v.
Proof.
  intros Hexp [s Hs]. destruct act; simpl in *; try done; injection Hs as <-.
  - by apply nn_sigmoid_zero.
  - by rewrite nn_fast_sigmoid_zero.
  - by rewrite nn_relu_zero.
Qed.

Lemma is_zero_finite x : is_zero x = true -> is_finite x = true.
Proof. by destruct x. Qed.

(** C6 (amended).  For every well-formed network whose weights are all
    zero and whose bias is zero, a run on finite inputs (no infinity, no
    NaN) produces [noutputs] outputs, each the value of the output
    activation at zero: 0.5 for the logistic sigmoid, a zero for ReLU and
    for the fast sigmoid. *)
Theorem nn_outputs_zero (h : nn_heap) a net items inputs :
  h !! a = Some {| blk_net := net; blk_items := items |} ->
  nn_wf a {| blk_net := net; blk_items := items |} ->
  exp_zero_one ->
  Forall (fun w => is_zero w = true) (take (Z.to_nat (nweights net)) items) ->
  is_zero (bias net) = true ->
  ninputs net <= Z.of_nat (length inputs) ->
  Forall (fun x => is_finite x = true) (take (Z.to_nat (ninputs net)) inputs) ->
  exists outs,
    nn_outputs a inputs h = Some outs /\
    length outs = Z.to_nat (noutputs net) /\
    Forall (zero_value (output_activation net)) outs.
Proof.
  intros Hh Hwf Hexp Hw Hb Hin Hfin.
  destruct (nn_outputs_zero_weights h a net items inputs Hh Hwf Hin)
    as (outs & Ho & Hlen & Hval).
  { split; [done|]. split; [by apply range_Forall_take|].
    split; [by apply is_zero_finite|done]. }
  exists outs. split; [done|]. split; [done|].
  eapply Forall_impl; [exact Hval|]. intros v. by apply act_zero_value.
Qed.

(** C10 (amended).  A freshly created network has both activation
    selectors set to the logistic sigmoid, its bias set to -1.0 and every
    weight and scratch slot set to +0; its first run on finite inputs
    yields 0.5 for every output. *)
Theorem nn_ffnet_create_fresh (I Hd O L : Z) (h : nn_heap) :
  valid_topology I Hd O L -> fits I Hd O L -> exp_zero_one ->
  exists a net items,
    nn_ffnet_create I Hd O L h =
      Some (a, <[a := {| blk_net := net; blk_items := items |}]> h) /\
    hidden_activation net = NN_ACTIVATION_SIGMOID /\
    output_activation net = NN_ACTIVATION_SIGMOID /\
    bias net = F32.opp (F32.of_Z 1) /\
    Forall (fun x => x = S754_zero false) items /\
    forall inputs,
      I <= Z.of_nat (length inputs) ->
      Forall (fun x => is_finite x = true) (take (Z.to_nat I) inputs) ->
      exists outs,
        nn_outputs a inputs
          (<[a := {| blk_net := net; blk_items := items |}]> h) = Some outs /\
        length outs = Z.to_nat O /\
        Forall (fun v => v = f_half) outs.
Proof.
  intros Hv Hf Hexp.
  destruct (nn_ffnet_create_spec I Hd O L h Hv Hf) as [Hc Hwf].
  eexists _, _, _. split; [exact Hc|]. simpl.
  split; [done|]. split; [done|]. split; [done|].
  split; [apply Forall_replicate; done|].
  intros inputs Hin Hfin.
  match type of Hwf with nn_wf ?a {| blk_net := ?net; blk_items := ?items |} =>
    destruct (nn_outputs_zero_weights
                (<[a := {| blk_net := net; blk_items := items |}]> h)
                a net items inputs) as (outs & Ho & Hlen & Hval);
      [apply lookup_insert_eq|done|done| |]
  end.
  { split; [done|]. simpl. split; [|split; [done|done]].
    intros k x _ Hx. apply lookup_replicate in Hx as [-> _]. done. }
  exists outs. split; [done|]. split; [done|].
  eapply Forall_impl; [exact Hval|]. intros v Hv'.
  by apply (act_zero_value NN_ACTIVATION_SIGMOID).
Qed.

(** C7.  With a [malloc] that returns fresh blocks, [nn_ffnet_copy] of a
    well-formed network adds one block, at an address that was free, and
    changes nothing else: the new block holds the struct and the items of
    the original, its two pointers set into itself, and it is a
    well-formed network.  For every input vector the copy outputs what
    the original outputs, and the original outputs what it did before
    the copy.  No sequence of writes to the weights of the copy, no
    [nn_ffnet_randomize] of the copy and no run of the copy changes the
    block of the original or what it outputs on any inputs; and writes to
    the weights of the original and runs of the original leave the copy
    and what it outputs as they are. *)
Theorem nn_ffnet_copy_independent (h : nn_heap) a net items :
  malloc_fresh ->
  h !! a = Some {| blk_net := net; blk_items := items |} ->
  nn_wf a {| blk_net := net; blk_items := items |} ->
  exists b h1,
    nn_ffnet_copy a h = Some (b, h1) /\ b <> a /\ h !! b = None /\
    h1 = <[b := {| blk_net := nn_ffnet_set_pointers b net;
                   blk_items := items |}]> h /\
    nn_wf b {| blk_net := nn_ffnet_set_pointers b net; blk_items := items |} /\
    (forall inputs, nn_outputs b inputs h1 = nn_outputs a inputs h) /\
    (forall inputs, nn_outputs a inputs h1 = nn_outputs a inputs h) /\
    (forall inputs, ninputs net <= Z.of_nat (length inputs) ->
       is_Some (nn_outputs a inputs h)) /\
    (forall writes h2,
       set_weights b writes h1 = Some h2 ->
       h2 !! a = h !! a /\
       forall inputs, nn_outputs a inputs h2 = nn_outputs a inputs h) /\
    (forall rs rs' h2,
       nn_ffnet_randomize b (h1, rs) = Some (h2, rs') ->
       h2 !! a = h !! a /\
       forall inputs, nn_outputs a inputs h2 = nn_outputs a inputs h) /\
    (forall inputs, ninputs net <= Z.of_nat (length inputs) ->
       exists r h2,
         nn_ffnet_run b inputs h1 = Some (r, h2) /\ r.1 = b /\
         h2 !! a = h !! a /\
         forall inputs', nn_outputs a inputs' h2 = nn_outputs a inputs' h) /\
    (forall writes h2,
       set_weights a writes h1 = Some h2 ->
       h2 !! b = h1 !! b /\
       forall inputs, nn_outputs b inputs h2 = nn_outputs a inputs h) /\
    (forall inputs, ninputs net <= Z.of_nat (length inputs) ->
       exists r h2,
         nn_ffnet_run a inputs h1 = Some (r, h2) /\ r.1 = a /\
         h2 !! b = h1 !! b /\
         forall inputs', nn_outputs b inputs' h2 = nn_outputs a inputs' h).
Proof.
  intros Hfresh Hh Hwf.
  destruct (nn_ffnet_copy_spec h a net items Hh Hwf) as [Hc Hwfb].
  set (b := malloc (dom h)) in *.
  assert (Hb : h !! b = None) by (apply not_elem_of_dom, Hfresh).
  assert (Hba : b <> a) by (intros ->; congruence).
  set (netb := nn_ffnet_set_pointers b net) in *.
  set (h1 := <[b := {| blk_net := netb; blk_items := items |}]> h) in *.
  assert (Hb1 : h1 !! b = Some {| blk_net := netb; blk_items := items |})
    by apply lookup_insert_eq.
  assert (Ha1 : h1 !! a = Some {| blk_net := net; blk_items := items |})
    by (unfold h1; by rewrite lookup_insert_ne).
  pose proof Hwf as [_ _ _ Hwp Hop _ _ _ _]. simpl in Hwp, Hop.
  assert (Hframe : forall h2 : nn_heap, h2 !! a = h !! a ->
            forall inputs, nn_outputs a inputs h2 = nn_outputs a inputs h).
  { intros h2 H2 inputs.
    apply (nn_outputs_frame a h2 h {| blk_net := net; blk_items := items |});
      try done; [by rewrite H2|by simpl; rewrite Hwp|by simpl; rewrite Hop]. }
  assert (Hcopy : forall (h2 : nn_heap),
            h2 !! b = Some {| blk_net := netb; blk_items := items |} ->
            forall inputs, nn_outputs b inputs h2 = nn_outputs a inputs h).
  { intros h2 H2 inputs.
    apply (nn_outputs_agree b a h2 h netb net items); try done.
    unfold netb. simpl. repeat split; try done.
    exists 0, (nweights net). rewrite Hwp, Hop. simpl. done. }
  exists b, h1. split; [done|]. split; [done|]. split; [done|].
  split; [done|]. split; [done|].
  split; [by apply Hcopy|]. split; [apply Hframe; congruence|].
  split; [|split; [|split; [|split; [|split]]]].
  - intros inputs Hin.
    destruct (nn_ffnet_run_spec h a net items inputs Hh Hwf Hin)
      as (items' & Hrun & Hlen & _).
    unfold nn_outputs. rewrite Hh. simpl. rewrite Hrun. simpl.
    pose proof Hwf as [(HI & HO & HH & HL & HHL) HW HN _ _ Hl _ _ _].
    simpl in *. unfold neuron_count in HN.
    pose proof (counts_nonneg _ _ _ _ (conj HI (conj HO (conj HH (conj HL HHL)))))
      as [Hw0 _]. rewrite <- HW in Hw0.
    destruct (read_floats_spec (<[a := {| blk_net := net; blk_items := items' |}]> h)
                a net items'
                (nweights net + ninputs net + nhiddens net * nhidden_layers net)
                (noutputs net) (fun _ => True)) as (outs & -> & _);
      try done; try lia; try nia.
    apply lookup_insert_eq.
  - intros writes h2 Hset.
    assert (H2 : h2 !! a = h !! a).
    { rewrite Hh, <- Ha1.
      by apply (set_weights_other a b writes h1 h2
                  {| blk_net := netb; blk_items := items |}). }
    split; [done|by apply Hframe].
  - intros rs rs' h2 Hrand.
    assert (H2 : h2 !! a = h !! a).
    { rewrite Hh, <- Ha1.
      by apply (nn_ffnet_randomize_other a b h1 h2 rs rs'
                  {| blk_net := netb; blk_items := items |}). }
    split; [done|by apply Hframe].
  - intros inputs Hin.
    destruct (nn_ffnet_run_spec h1 b netb items inputs Hb1 Hwfb Hin)
      as (items' & Hrun & _).
    eexists _, _. split; [exact Hrun|]. split; [done|].
    assert (H2 : (<[b := {| blk_net := netb; blk_items := items' |}]> h1) !! a
                 = h !! a).
    { rewrite lookup_insert_ne by done. congruence. }
    split; [done|by apply Hframe].
  - intros writes h2 Hset.
    assert (H2 : h2 !! b = h1 !! b).
    { apply (set_weights_other b a writes h1 h2
               {| blk_net := net; blk_items := items |}); try done.
      by simpl; rewrite Hwp. }
    split; [done|]. apply Hcopy. by rewrite H2.
  - intros inputs Hin.
    destruct (nn_ffnet_run_spec h1 a net items inputs Ha1 Hwf Hin)
      as (items' & Hrun & _).
    eexists _, _. split; [exact Hrun|]. split; [done|].
    assert (H2 : (<[a := {| blk_net := net; blk_items := items' |}]> h1) !! b
                 = h1 !! b)
      by (by rewrite lookup_insert_ne).
    split; [done|]. apply Hcopy. by rewrite H2.
Qed.
End NNProofs.

(** ** Comparisons of floats *)

Ltac float_cases :=
  repeat match goal with
  | |- context [Z.compare ?x ?y] => destruct (Z.compare_spec x y)
  | |- context [Pos.compare_cont Eq ?x ?y] =>
      change (Pos.compare_cont Eq x y) with (Pos.compare x y);
      destruct (Pos.compare_spec x y)
  | H : context [Z.compare ?x ?y] |- _ => destruct (Z.compare_spec x y)
  | H : context [Pos.compare_cont Eq ?x ?y] |- _ =>
      change (Pos.compare_cont Eq x y) with (Pos.compare x y) in H;
      destruct (Pos.compare_spec x y)
  end; simpl in *; try discriminate; try lia; try congruence.

Lemma ltb_irrefl (x : float) : F32.ltb x x = false.
Proof.
  unfold F32.ltb, SFltb, SFcompare.
  destruct x as [[]|[]| |[] m e]; simpl; try done; float_cases.
Qed.

Lemma ltb_trans (x y z : float) :
  F32.ltb x y = true -> F32.ltb y z = true -> F32.ltb x z = true.
Proof.
  unfold F32.ltb, SFltb, SFcompare.
  destruct x as [[]|[]| |[] mx ex], y as [[]|[]| |[] my ey],
    z as [[]|[]| |[] mz ez]; simpl; try done; intros Hxy Hyz; float_cases.
Qed.

(** Below a number that is not above it: [x < y] and not [z < y] give
    [x < z], when [z] is a number. *)
Lemma ltb_not_ltb (x y z : float) :
  F32.ltb x y = true -> F32.ltb z y = false -> is_nan z = false ->
  F32.ltb x z = true.
Proof.
  unfold F32.ltb, SFltb, SFcompare.
  destruct x as [[]|[]| |[] mx ex], y as [[]|[]| |[] my ey],
    z as [[]|[]| |[] mz ez]; simpl; try done; intros Hxy Hyz _; float_cases.
Qed.

Lemma ltb_not_nan (x y : float) : F32.ltb x y = true -> is_nan x = false.
Proof. by destruct x. Qed.

(** ** Rounding to binary32 *)

Lemma digits2_pos_bounds (m : positive) :
  2 ^ (Zpos (digits2_pos m) - 1) <= Zpos m < 2 ^ Zpos (digits2_pos m).
Proof.
  assert (Hstep : forall d : positive,
            2 ^ (Z.succ (Zpos d) - 1) = 2 * 2 ^ (Zpos d - 1) /\
            2 ^ Z.succ (Zpos d) = 4 * 2 ^ (Zpos d - 1) /\
            2 ^ Zpos d = 2 * 2 ^ (Zpos d - 1)).
  { intros d. rewrite Z.pow_succ_r by lia.
    replace (Z.succ (Zpos d) - 1) with (Z.succ (Zpos d - 1)) by lia.
    replace (Zpos d) with (Z.succ (Zpos d - 1)) at 3 5 by lia.
    rewrite !Z.pow_succ_r by lia. lia. }
  induction m as [m IH|m IH|]; simpl digits2_pos.
  - rewrite Pos2Z.inj_succ.
    destruct (Hstep (digits2_pos m)) as (-> & -> & Hd). rewrite Hd in IH. lia.
  - rewrite Pos2Z.inj_succ.
    destruct (Hstep (digits2_pos m)) as (-> & -> & Hd). rewrite Hd in IH. lia.
  - simpl. lia.
Qed.

(** One step of [shr] on a non-negative mantissa. *)
Lemma shr_1_spec (m : Z) (r s : bool) :
  0 <= m ->
  shr_1 {| shr_m := m; shr_r := r; shr_s := s |} =
  {| shr_m := m / 2; shr_r := Z.odd m; shr_s := r || s |}.
Proof.
  intros Hm. destruct m as [|[p|p|]|p]; try done; simpl.
  - f_equal. rewrite Pos2Z.inj_xI. symmetry.
    rewrite Z.add_comm, Z.mul_comm, Z.div_add by lia. done.
  - f_equal. rewrite Pos2Z.inj_xO. symmetry.
    rewrite Z.mul_comm, Z.div_mul by lia. done.
Qed.

(** [n] steps of [shr]: the mantissa is divided by [2 ^ n], and a round
    bit that is set tells that the division lost something. *)
Lemma shr_iter_spec (n : positive) : forall (m : Z) (r s : bool),
  0 <= m ->
  let mrs := SpecFloat.iter_pos shr_1 n {| shr_m := m; shr_r := r; shr_s := s |} in
  shr_m mrs = m / 2 ^ Zpos n /\
  (shr_r mrs = true -> m mod 2 ^ Zpos n <> 0).
Proof.
  assert (Hmod : forall m a b, 0 < a -> 0 < b ->
            (m / a) mod b <> 0 -> m mod (a * b) <> 0).
  { intros m a b Ha Hb Hne. rewrite Z.rem_mul_r by lia.
    pose proof (Z.mod_pos_bound m a Ha).
    pose proof (Z.mod_pos_bound (m / a) b Hb). nia. }
  assert (Hone : forall m r s, 0 <= m ->
            let mrs := shr_1 {| shr_m := m; shr_r := r; shr_s := s |} in
            shr_m mrs = m / 2 ^ 1 /\ (shr_r mrs = true -> m mod 2 ^ 1 <> 0)).
  { intros m r s Hm. rewrite shr_1_spec by done. simpl. split; [done|].
    rewrite Z.odd_spec. intros [k ->].
    rewrite Z.add_comm, Z.mul_comm, Z.mod_add by lia. done. }
  induction n as [n IH|n IH|]; intros m r s Hm; cbv zeta;
    [change (SpecFloat.iter_pos shr_1 n~1 ?x)
       with (SpecFloat.iter_pos shr_1 n (SpecFloat.iter_pos shr_1 n (shr_1 x)))
    |change (SpecFloat.iter_pos shr_1 n~0 ?x)
       with (SpecFloat.iter_pos shr_1 n (SpecFloat.iter_pos shr_1 n x))
    |change (SpecFloat.iter_pos shr_1 1 ?x) with (shr_1 x)].
  - destruct (shr_1 {| shr_m := m; shr_r := r; shr_s := s |})
      as [m1 r1 s1] eqn:H1.
    pose proof (Hone m r s Hm) as [Hm1 Hr1]. rewrite H1 in Hm1, Hr1.
    simpl in Hm1, Hr1.
    assert (Hm1' : 0 <= m1) by (subst m1; apply Z.div_pos; lia).
    destruct (SpecFloat.iter_pos shr_1 n {| shr_m := m1; shr_r := r1; shr_s := s1 |})
      as [m2 r2 s2] eqn:H2.
    pose proof (IH m1 r1 s1 Hm1') as [Hm2 Hr2]. rewrite H2 in Hm2, Hr2.
    simpl in Hm2, Hr2.
    assert (Hm2' : 0 <= m2) by (subst m2; apply Z.div_pos; lia).
    pose proof (IH m2 r2 s2 Hm2') as [Hm3 Hr3].
    replace (Zpos n~1) with (2 * Zpos n + 1) by lia.
    replace (2 ^ (2 * Zpos n + 1)) with (2 ^ 1 * (2 ^ Zpos n * 2 ^ Zpos n))
      by (rewrite <- !Z.pow_add_r by lia; f_equal; lia).
    split.
    + rewrite Hm3, Hm2, Hm1. rewrite !Z.div_div by lia. done.
    + intros Hr. apply Hmod; [lia|lia|]. rewrite <- Hm1.
      apply Hmod; [lia|lia|]. rewrite <- Hm2. by apply Hr3.
  - destruct (SpecFloat.iter_pos shr_1 n {| shr_m := m; shr_r := r; shr_s := s |})
      as [m2 r2 s2] eqn:H2.
    pose proof (IH m r s Hm) as [Hm2 Hr2]. rewrite H2 in Hm2, Hr2.
    simpl in Hm2, Hr2.
    assert (Hm2' : 0 <= m2) by (subst m2; apply Z.div_pos; lia).
    pose proof (IH m2 r2 s2 Hm2') as [Hm3 Hr3].
    replace (Zpos n~0) with (2 * Zpos n) by lia.
    replace (2 ^ (2 * Zpos n)) with (2 ^ Zpos n * 2 ^ Zpos n)
      by (rewrite <- !Z.pow_add_r by lia; f_equal; lia).
    split.
    + rewrite Hm3, Hm2. rewrite !Z.div_div by lia. done.
    + intros Hr. apply Hmod; [lia|lia|]. rewrite <- Hm2. by apply Hr3.
  - apply Hone. done.
Qed.

Lemma fexp32_eq (e : Z) : fexp 24 128 e = Z.max (e - 24) (-149).
Proof. reflexivity. Qed.

Lemma round_nearest_even_cases (mrs : shr_record) :
  let m2 := round_nearest_even (shr_m mrs) (loc_of_shr_record mrs) in
  m2 = shr_m mrs \/ (m2 = shr_m mrs + 1 /\ shr_r mrs = true).
Proof.
  destruct mrs as [m [] []]; simpl; auto.
  destruct (Z.even m); auto.
Qed.

(** The first shift of [binary_round_aux]. *)
Lemma shr_fexp_spec (p : positive) (ex e' : Z) (lx : location) :
  e' = fexp 24 128 (Zpos (digits2_pos p) + ex) ->
  ex <= e' ->
  (shr_fexp 24 128 (Zpos p) ex lx).2 = e' /\
  shr_m (shr_fexp 24 128 (Zpos p) ex lx).1 = Zpos p / 2 ^ (e' - ex) /\
  (shr_r (shr_fexp 24 128 (Zpos p) ex lx).1 = true ->
   (ex < e' /\ Zpos p mod 2 ^ (e' - ex) <> 0) \/
   (ex = e' /\ lx <> loc_Exact)).
Proof.
  intros He' He. unfold shr_fexp. simpl Zdigits2. rewrite <- He'.
  destruct (e' - ex) as [|n|n] eqn:Hn; try lia.
  - simpl. replace e' with ex by lia. split; [done|].
    split; [by destruct lx as [|[]]; simpl; rewrite Z.div_1_r|].
    intros Hr. right. split; [done|]. by destruct lx.
  - unfold shr. destruct lx as [|c].
    + simpl shr_record_of_loc.
      destruct (shr_iter_spec n (Zpos p) false false) as [Hm Hr]; [lia|].
      simpl. split; [lia|]. split; [done|]. intros H. left. split; [lia|].
      by apply Hr.
    + assert (Hrec : exists r s, shr_record_of_loc (Zpos p) (loc_Inexact c)
                      = {| shr_m := Zpos p; shr_r := r; shr_s := s |}).
      { destruct c; simpl; eauto. }
      destruct Hrec as (r & s & ->).
      destruct (shr_iter_spec n (Zpos p) r s) as [Hm Hr]; [lia|].
      simpl. split; [lia|]. split; [done|]. intros H. left. split; [lia|].
      by apply Hr.
Qed.

Lemma Zdigits2_bounds (m : Z) :
  0 < m -> 2 ^ (Zdigits2 m - 1) <= m < 2 ^ Zdigits2 m.
Proof. destruct m as [|p|p]; try lia. intros _. apply digits2_pos_bounds. Qed.

Lemma Zdigits2_unique (m d : Z) :
  0 < d -> 2 ^ (d - 1) <= m < 2 ^ d -> Zdigits2 m = d.
Proof.
  intros Hd Hm. assert (0 < m) by (pose proof (Z.pow_pos_nonneg 2 (d - 1)); lia).
  pose proof (Zdigits2_bounds m H) as Hb.
  assert (0 < Zdigits2 m) by (destruct m; simpl; lia).
  destruct (Z.lt_trichotomy (Zdigits2 m) d) as [Hlt|[Heq|Hgt]]; [|done|].
  - assert (2 ^ Zdigits2 m <= 2 ^ (d - 1)) by (apply Z.pow_le_mono_r; lia). lia.
  - assert (2 ^ d <= 2 ^ (Zdigits2 m - 1)) by (apply Z.pow_le_mono_r; lia). lia.
Qed.

(** The two shifts and the rounding in between. *)
Lemma binary_round_aux_spec (s : bool) (p : positive) (ex e' m1 : Z)
    (lx : location) :
  e' = fexp 24 128 (Zpos (digits2_pos p) + ex) ->
  m1 = Zpos p / 2 ^ (e' - ex) ->
  -149 <= ex -> ex <= e' ->
  exists m2,
    (m2 = m1 \/
     (m2 = m1 + 1 /\
      ((ex < e' /\ Zpos p mod 2 ^ (e' - ex) <> 0) \/
       (ex = e' /\ lx <> loc_Exact)))) /\
    0 <= m1 < 2 ^ 24 /\ (2 ^ 23 <= m1 \/ e' = -149) /\
    binary_round_aux 24 128 s (Zpos p) ex lx = encode32 s m2 e'.
Proof.
  intros He' Hm1' Hex He.
  destruct (shr_fexp_spec p ex e' lx He' He) as (He1 & Hm1 & Hr1).
  unfold binary_round_aux.
  destruct (shr_fexp 24 128 (Zpos p) ex lx) as [mrs e1]. simpl in He1, Hm1, Hr1.
  subst e1. rewrite <- Hm1' in Hm1.
  pose proof (round_nearest_even_cases mrs) as Hm2. simpl in Hm2.
  remember (round_nearest_even (shr_m mrs) (loc_of_shr_record mrs)) as m2
    eqn:Hm2eq.
  rewrite Hm1 in Hm2. clear Hm2eq.
  pose proof (digits2_pos_bounds p) as Hd.
  remember (Zpos (digits2_pos p)) as d eqn:Hdeq.
  assert (Hd0 : 0 < d) by lia.
  assert (Hn : 0 <= e' - ex) by lia.
  assert (Hpow : 0 < 2 ^ (e' - ex)) by (apply Z.pow_pos_nonneg; lia).
  assert (Hm1b : 0 <= m1 /\ m1 < 2 ^ 24 /\ (2 ^ 23 <= m1 \/ e' = -149)).
  { rewrite fexp32_eq in He'. subst m1.
    split; [apply Z.div_pos; lia|].
    destruct (Z.max_spec (d + ex - 24) (-149)) as [[Hc Hmax]|[Hc Hmax]];
      rewrite Hmax in He'.
    - (* clamped to the smallest exponent *)
      split; [|by right].
      apply Z.div_lt_upper_bound; [lia|].
      assert (2 ^ d <= 2 ^ (e' - ex) * 2 ^ 24).
      { rewrite <- Z.pow_add_r by lia. apply Z.pow_le_mono_r; lia. }
      lia.
    - assert (Hsplit : 2 ^ d = 2 ^ (e' - ex) * 2 ^ 24 /\
                       2 ^ (d - 1) = 2 ^ (e' - ex) * 2 ^ 23).
      { rewrite <- !Z.pow_add_r by lia. split; f_equal; lia. }
      destruct Hsplit as [Hs1 Hs2].
      split; [apply Z.div_lt_upper_bound; lia|].
      left. apply Z.div_le_lower_bound; lia. }
  destruct Hm1b as (Hm10 & Hm1lt & Hm1ge).
  exists m2. split.
  { destruct Hm2 as [Hm2|[Hm2 Hr]]; [by left|]. right. split; [done|].
    by apply Hr1. }
  split; [done|]. split; [done|].
  assert (Hm2b : 0 <= m2 <= 2 ^ 24) by (destruct Hm2 as [->|[-> _]]; lia).
  assert (He'0 : -149 <= e') by lia.
  unfold encode32.
  destruct (Z.eqb_spec m2 0) as [Hz|Hnz].
  - rewrite Hz. unfold shr_fexp. simpl Zdigits2. rewrite fexp32_eq.
    replace (Z.max (0 + e' - 24) (-149) - e') with (Z.max (-24) (-149 - e'))
      by lia.
    destruct (Z.max (-24) (-149 - e')) as [|q|q] eqn:Hq; try lia; done.
  - destruct (Z.eqb_spec m2 (2 ^ 24)) as [Hc|Hnc].
    + rewrite Hc. change (2 ^ 24) with 16777216. unfold shr_fexp.
      change (Zdigits2 16777216) with 25. rewrite fexp32_eq.
      replace (Z.max (25 + e' - 24) (-149) - e') with 1 by lia.
      simpl. replace (e' + 1 <=? 128 - 24) with (e' + 1 <=? 104) by done.
      done.
    + assert (Hm2p : 0 < m2 < 2 ^ 24) by lia.
      assert (Hsh : shr_fexp 24 128 m2 e' loc_Exact =
                    ({| shr_m := m2; shr_r := false; shr_s := false |}, e')).
      { unfold shr_fexp. rewrite fexp32_eq.
        pose proof (Zdigits2_bounds m2 (proj1 Hm2p)) as Hd2.
        assert (Hd2' : Zdigits2 m2 <= 24).
        { destruct (Z.le_gt_cases (Zdigits2 m2) 24) as [|Hgt]; [done|].
          assert (2 ^ 24 <= 2 ^ (Zdigits2 m2 - 1))
            by (apply Z.pow_le_mono_r; lia). lia. }
        destruct (Z.max (Zdigits2 m2 + e' - 24) (-149) - e') as [|q|q] eqn:Hq;
          try lia; done. }
      rewrite Hsh. simpl. destruct m2 as [|q|q]; try lia. simpl.
      replace (e' <=? 128 - 24) with (e' <=? 104) by done. done.
Qed.

Lemma bounded32_inv (m : positive) (e : Z) :
  bounded 24 128 m e = true ->
  -149 <= e <= 104 /\ Zpos m < 2 ^ 24 /\ (2 ^ 23 <= Zpos m \/ e = -149).
Proof.
  unfold bounded, canonical_mantissa. rewrite fexp32_eq.
  intros [Hc He]%andb_prop. apply Z.eqb_eq in Hc. apply Z.leb_le in He.
  pose proof (digits2_pos_bounds m) as Hd.
  remember (Zpos (digits2_pos m)) as d. assert (0 < d) by lia.
  split; [lia|].
  assert (Hd24 : d <= 24) by lia.
  split.
  - assert (2 ^ d <= 2 ^ 24) by (apply Z.pow_le_mono_r; lia). lia.
  - destruct (Z.max_spec (d + e - 24) (-149)) as [[? Hmax]|[? Hmax]];
      rewrite Hmax in Hc; [by right|].
    left. replace d with 24 in Hd by lia. simpl in Hd. lia.
Qed.

Lemma bounded32_intro (m e : Z) :
  0 < m < 2 ^ 24 -> -149 <= e <= 104 -> (2 ^ 23 <= m \/ e = -149) ->
  bounded 24 128 (Z.to_pos m) e = true.
Proof.
  intros Hm He Hn. unfold bounded, canonical_mantissa. rewrite fexp32_eq.
  apply andb_true_intro. split; [|apply Z.leb_le; lia]. apply Z.eqb_eq.
  pose proof (digits2_pos_bounds (Z.to_pos m)) as Hd.
  rewrite Z2Pos.id in Hd by lia.
  remember (Zpos (digits2_pos (Z.to_pos m))) as d. assert (0 < d) by lia.
  assert (Hd24 : d <= 24).
  { destruct (Z.le_gt_cases d 24) as [|Hgt]; [done|].
    assert (2 ^ 24 <= 2 ^ (d - 1)) by (apply Z.pow_le_mono_r; lia). lia. }
  destruct Hn as [Hn| ->]; [|lia].
  assert (d = 24); [|lia].
  destruct (Z.le_gt_cases 24 d) as [|Hlt]; [lia|].
  assert (2 ^ d <= 2 ^ 23) by (apply Z.pow_le_mono_r; lia). lia.
Qed.

Lemma pow2_split (a b : Z) : 0 <= a -> 0 <= b -> 2 ^ (a + b) = 2 ^ a * 2 ^ b.
Proof. intros. by rewrite Z.pow_add_r. Qed.

(** The mantissa [m2] a rounding chose, against a float [B] above the
    exact value. *)
Lemma rounded_le (p : positive) (ex e' m1 m2 : Z) (lx : location)
    (mb : positive) (eb : Z) :
  -149 <= ex -> ex <= e' ->
  m1 = Zpos p / 2 ^ (e' - ex) ->
  (m2 = m1 \/
   (m2 = m1 + 1 /\
    ((ex < e' /\ Zpos p mod 2 ^ (e' - ex) <> 0) \/
     (ex = e' /\ lx <> loc_Exact)))) ->
  (2 ^ 23 <= m1 \/ e' = -149) ->
  bounded 24 128 mb eb = true ->
  (val32 (Zpos p) ex < val32 (Zpos mb) eb \/
   (lx = loc_Exact /\ val32 (Zpos p) ex <= val32 (Zpos mb) eb)) ->
  val32 m2 e' <= val32 (Zpos mb) eb.
Proof.
  intros Hex He Hm1 Hm2 Hnorm HB Hle.
  destruct (bounded32_inv mb eb HB) as (Heb & Hmb & _).
  unfold val32 in *.
  assert (Hn : 0 < 2 ^ (e' - ex)) by (apply Z.pow_pos_nonneg; lia).
  assert (Hu : 0 < 2 ^ (ex + 149)) by (apply Z.pow_pos_nonneg; lia).
  assert (Hue : 2 ^ (e' + 149) = 2 ^ (e' - ex) * 2 ^ (ex + 149)).
  { rewrite <- pow2_split by lia. f_equal. lia. }
  pose proof (Z.div_mod (Zpos p) (2 ^ (e' - ex)) ltac:(lia)) as Hdm.
  pose proof (Z.mod_pos_bound (Zpos p) (2 ^ (e' - ex)) Hn) as Hmod.
  rewrite <- Hm1 in Hdm.
  assert (Hfloor : m1 * 2 ^ (e' + 149) <= Zpos p * 2 ^ (ex + 149)).
  { rewrite Hue. nia. }
  destruct Hm2 as [->|[-> Hinexact]]; [lia|].
  assert (Hstrict : m1 * 2 ^ (e' + 149) < Zpos mb * 2 ^ (eb + 149)).
  { destruct Hinexact as [[Hlt Hne]|[Heq Hlx]].
    - assert (m1 * 2 ^ (e' + 149) < Zpos p * 2 ^ (ex + 149))
        by (rewrite Hue; nia). lia.
    - destruct Hle as [Hle|[Hlx' _]]; [lia|done]. }
  destruct (Z.le_gt_cases e' eb) as [Hcase|Hcase].
  - assert (Hbe : 2 ^ (eb + 149) = 2 ^ (eb - e') * 2 ^ (e' + 149)).
    { rewrite <- pow2_split by lia. f_equal. lia. }
    assert (0 < 2 ^ (eb - e')) by (apply Z.pow_pos_nonneg; lia).
    assert (0 < 2 ^ (e' + 149)) by (apply Z.pow_pos_nonneg; lia).
    rewrite Hbe in *.
    set (u := 2 ^ (e' + 149)) in *. set (k := 2 ^ (eb - e')) in *.
    clearbody u k.
    assert (m1 < Zpos mb * k) by nia.
    assert ((m1 + 1) * u <= Zpos mb * k * u)
      by (apply Z.mul_le_mono_nonneg_r; lia).
    lia.
  - exfalso. destruct Hnorm as [Hnorm|Hnorm]; [|lia].
    assert (Hbe : 2 ^ (e' + 149) = 2 ^ (e' - eb - 1) * (2 * 2 ^ (eb + 149))).
    { replace (2 * 2 ^ (eb + 149)) with (2 ^ (1 + (eb + 149)))
        by (rewrite pow2_split by lia; done).
      rewrite <- pow2_split by lia. f_equal. lia. }
    assert (0 < 2 ^ (e' - eb - 1)) by (apply Z.pow_pos_nonneg; lia).
    assert (0 < 2 ^ (eb + 149)) by (apply Z.pow_pos_nonneg; lia).
    rewrite Hbe in Hstrict.
    set (u := 2 ^ (eb + 149)) in *. set (k := 2 ^ (e' - eb - 1)) in *.
    clearbody u k.
    assert (2 ^ 23 * (k * (2 * u)) <= m1 * (k * (2 * u)))
      by (apply Z.mul_le_mono_nonneg_r; nia).
    assert (1 * (2 ^ 23 * 2 * u) <= k * (2 ^ 23 * 2 * u))
      by (apply Z.mul_le_mono_nonneg_r; nia).
    nia.
Qed.

(** A rounded mantissa whose value stays under a float is encoded
    without overflow. *)
Lemma encode32_le (s : bool) (m2 e' : Z) (mb : positive) (eb : Z) :
  0 <= m2 <= 2 ^ 24 -> -149 <= e' -> (2 ^ 23 <= m2 \/ e' = -149) ->
  bounded 24 128 mb eb = true ->
  val32 m2 e' <= val32 (Zpos mb) eb ->
  encode32 s m2 e' = S754_zero s \/
  exists m e,
    encode32 s m2 e' = S754_finite s m e /\ bounded 24 128 m e = true /\
    val32 (Zpos m) e = val32 m2 e'.
Proof.
  intros Hm2 He' Hnorm HB Hle.
  destruct (bounded32_inv mb eb HB) as (Heb & Hmb & _).
  unfold val32 in *. unfold encode32.
  assert (Hb : Zpos mb * 2 ^ (eb + 149) < 2 ^ 24 * 2 ^ (104 + 149)).
  { assert (2 ^ (eb + 149) <= 2 ^ (104 + 149)) by (apply Z.pow_le_mono_r; lia).
    assert (0 < 2 ^ (eb + 149)) by (apply Z.pow_pos_nonneg; lia). nia. }
  assert (Hexp : 2 ^ 23 <= m2 -> e' <= 104
                 /\ (m2 = 2 ^ 24 -> e' + 1 <= 104)).
  { intros Hge.
    destruct (Z.le_gt_cases e' 103) as [|Hgt]; [lia|].
    assert (2 ^ (104 + 149) <= 2 ^ (e' + 149)) by (apply Z.pow_le_mono_r; lia).
    assert (0 < 2 ^ (104 + 149)) by (apply Z.pow_pos_nonneg; lia).
    split.
    - destruct (Z.le_gt_cases e' 104) as [|Hgt']; [done|].
      assert (2 * 2 ^ (104 + 149) <= 2 ^ (e' + 149)).
      { replace (2 * 2 ^ (104 + 149)) with (2 ^ (1 + (104 + 149)))
          by (rewrite pow2_split by lia; done).
        apply Z.pow_le_mono_r; lia. }
      nia.
    - intros ->. nia. }
  destruct (Z.eqb_spec m2 0) as [Hz|Hnz]; [by left|right].
  destruct (Z.eqb_spec m2 (2 ^ 24)) as [Hc|Hnc].
  - destruct (Hexp ltac:(lia)) as [_ Hov]. specialize (Hov Hc).
    destruct (Z.leb_spec (e' + 1) 104); [|lia].
    eexists _, _. split; [done|]. split.
    + apply (bounded32_intro (2 ^ 23) (e' + 1)); lia.
    + rewrite Hc. replace (e' + 1 + 149) with (1 + (e' + 149)) by lia.
      rewrite pow2_split by lia. lia.
  - assert (He104 : e' <= 104).
    { destruct Hnorm as [Hn|Hn]; [by apply Hexp|lia]. }
    destruct (Z.leb_spec e' 104); [|lia].
    eexists _, _. split; [done|]. split.
    + apply bounded32_intro; lia.
    + rewrite Z2Pos.id by lia. done.
Qed.

Lemma rounded_ge (p : positive) (ex e' m1 m2 : Z)
    (ma : positive) (ea : Z) :
  -149 <= ex -> ex <= e' ->
  m1 = Zpos p / 2 ^ (e' - ex) ->
  m1 <= m2 ->
  (2 ^ 23 <= m1 \/ e' = -149) ->
  bounded 24 128 ma ea = true ->
  val32 (Zpos ma) ea <= val32 (Zpos p) ex ->
  val32 (Zpos ma) ea <= val32 m2 e'.
Proof.
  intros Hex He Hm1 Hm2 Hnorm HA Hle.
  destruct (bounded32_inv ma ea HA) as (Hea & Hma & _).
  unfold val32 in *.
  assert (Hn : 0 < 2 ^ (e' - ex)) by (apply Z.pow_pos_nonneg; lia).
  assert (Hw : 0 < 2 ^ (ex + 149)) by (apply Z.pow_pos_nonneg; lia).
  assert (Hu : 0 < 2 ^ (e' + 149)) by (apply Z.pow_pos_nonneg; lia).
  assert (Hue : 2 ^ (e' + 149) = 2 ^ (e' - ex) * 2 ^ (ex + 149)).
  { rewrite <- pow2_split by lia. f_equal. lia. }
  pose proof (Z.div_mod (Zpos p) (2 ^ (e' - ex)) ltac:(lia)) as Hdm.
  pose proof (Z.mod_pos_bound (Zpos p) (2 ^ (e' - ex)) Hn) as Hmod.
  rewrite <- Hm1 in Hdm.
  assert (Hceil : Zpos p * 2 ^ (ex + 149) < (m1 + 1) * 2 ^ (e' + 149)).
  { rewrite Hue. set (n := 2 ^ (e' - ex)) in *. set (w := 2 ^ (ex + 149)) in *.
    clearbody n w.
    assert (Zpos p * w < (m1 + 1) * n * w)
      by (apply Z.mul_lt_mono_pos_r; nia).
    lia. }
  assert (Hm1u : Zpos ma * 2 ^ (ea + 149) <= m1 * 2 ^ (e' + 149)).
  { destruct (Z.le_gt_cases e' ea) as [Hcase|Hcase].
    - assert (Hae : 2 ^ (ea + 149) = 2 ^ (ea - e') * 2 ^ (e' + 149)).
      { rewrite <- pow2_split by lia. f_equal. lia. }
      assert (0 < 2 ^ (ea - e')) by (apply Z.pow_pos_nonneg; lia).
      rewrite Hae in *.
      set (u := 2 ^ (e' + 149)) in *. set (k := 2 ^ (ea - e')) in *.
      clearbody u k.
      assert (Zpos ma * k < m1 + 1) by nia.
      assert (Zpos ma * k * u <= m1 * u)
        by (apply Z.mul_le_mono_nonneg_r; lia).
      lia.
    - destruct Hnorm as [Hnorm|Hnorm]; [|lia].
      assert (Hae : 2 ^ (e' + 149) = 2 ^ (e' - ea - 1) * (2 * 2 ^ (ea + 149))).
      { replace (2 * 2 ^ (ea + 149)) with (2 ^ (1 + (ea + 149)))
          by (rewrite pow2_split by lia; done).
        rewrite <- pow2_split by lia. f_equal. lia. }
      assert (0 < 2 ^ (e' - ea - 1)) by (apply Z.pow_pos_nonneg; lia).
      assert (0 < 2 ^ (ea + 149)) by (apply Z.pow_pos_nonneg; lia).
      rewrite Hae.
      set (u := 2 ^ (ea + 149)) in *. set (k := 2 ^ (e' - ea - 1)) in *.
      clearbody u k.
      assert (2 ^ 23 * (k * (2 * u)) <= m1 * (k * (2 * u)))
        by (apply Z.mul_le_mono_nonneg_r; nia).
      assert (1 * (2 ^ 23 * 2 * u) <= k * (2 ^ 23 * 2 * u))
        by (apply Z.mul_le_mono_nonneg_r; nia).
      nia. }
  assert (m1 * 2 ^ (e' + 149) <= m2 * 2 ^ (e' + 149))
    by (apply Z.mul_le_mono_nonneg_r; lia).
  lia.
Qed.

Lemma encode32_ge (s : bool) (m2 e' : Z) :
  0 < m2 <= 2 ^ 24 -> -149 <= e' -> (2 ^ 23 <= m2 \/ e' = -149) ->
  encode32 s m2 e' = S754_infinity s \/
  exists m e,
    encode32 s m2 e' = S754_finite s m e /\ bounded 24 128 m e = true /\
    val32 (Zpos m) e = val32 m2 e'.
Proof.
  intros Hm2 He' Hnorm. unfold encode32, val32.
  destruct (Z.eqb_spec m2 0) as [Hz|Hnz]; [lia|].
  destruct (Z.eqb_spec m2 (2 ^ 24)) as [Hc|Hnc].
  - destruct (Z.leb_spec (e' + 1) 104); [right|by left].
    eexists _, _. split; [done|]. split.
    + apply (bounded32_intro (2 ^ 23) (e' + 1)); lia.
    + rewrite Hc. replace (e' + 1 + 149) with (1 + (e' + 149)) by lia.
      rewrite pow2_split by lia. lia.
  - destruct (Z.leb_spec e' 104); [right|by left].
    eexists _, _. split; [done|]. split.
    + apply bounded32_intro; lia.
    + rewrite Z2Pos.id by lia. done.
Qed.

(** A rounding of a value that is at most a float [B] is a zero or a
    finite float at most [B]. *)
Lemma binary_round_aux_le (s : bool) (p : positive) (ex : Z) (lx : location)
    (mb : positive) (eb : Z) :
  -149 <= ex -> ex <= fexp 24 128 (Zpos (digits2_pos p) + ex) ->
  bounded 24 128 mb eb = true ->
  (val32 (Zpos p) ex < val32 (Zpos mb) eb \/
   (lx = loc_Exact /\ val32 (Zpos p) ex <= val32 (Zpos mb) eb)) ->
  binary_round_aux 24 128 s (Zpos p) ex lx = S754_zero s \/
  exists m e,
    binary_round_aux 24 128 s (Zpos p) ex lx = S754_finite s m e /\
    bounded 24 128 m e = true /\
    val32 (Zpos m) e <= val32 (Zpos mb) eb.
Proof.
  intros Hex He HB Hle.
  destruct (binary_round_aux_spec s p ex _ _ lx eq_refl eq_refl Hex He)
    as (m2 & Hm2 & Hm1 & Hnorm & ->).
  pose proof (rounded_le p ex _ _ m2 lx mb eb Hex He eq_refl Hm2 Hnorm HB Hle)
    as Hval.
  set (e' := fexp 24 128 (Zpos (digits2_pos p) + ex)) in *.
  assert (He' : -149 <= e') by (unfold e'; rewrite fexp32_eq; lia).
  assert (Hnorm2 : 2 ^ 23 <= m2 \/ e' = -149) by lia.
  destruct (encode32_le s m2 e' mb eb ltac:(lia) He' Hnorm2 HB Hval)
    as [Hz|(m & e & Hf & Hb & Hv)]; [by left|right].
  exists m, e. split; [done|]. split; [done|]. lia.
Qed.

(** A rounding of a value that is at least a float [A] is an infinity or
    a finite float at least [A]. *)
Lemma binary_round_aux_ge (s : bool) (p : positive) (ex : Z) (lx : location)
    (ma : positive) (ea : Z) :
  -149 <= ex -> ex <= fexp 24 128 (Zpos (digits2_pos p) + ex) ->
  bounded 24 128 ma ea = true ->
  val32 (Zpos ma) ea <= val32 (Zpos p) ex ->
  binary_round_aux 24 128 s (Zpos p) ex lx = S754_infinity s \/
  exists m e,
    binary_round_aux 24 128 s (Zpos p) ex lx = S754_finite s m e /\
    bounded 24 128 m e = true /\
    val32 (Zpos ma) ea <= val32 (Zpos m) e.
Proof.
  intros Hex He HA Hle.
  destruct (binary_round_aux_spec s p ex _ _ lx eq_refl eq_refl Hex He)
    as (m2 & Hm2 & Hm1 & Hnorm & ->).
  assert (Hm12 : Zpos p / 2 ^ (fexp 24 128 (Zpos (digits2_pos p) + ex) - ex)
                 <= m2) by lia.
  pose proof (rounded_ge p ex _ _ m2 ma ea Hex He eq_refl Hm12 Hnorm HA Hle)
    as Hval.
  set (e' := fexp 24 128 (Zpos (digits2_pos p) + ex)) in *.
  assert (He' : -149 <= e') by (unfold e'; rewrite fexp32_eq; lia).
  assert (Hpos : 0 < m2).
  { destruct (Z.le_gt_cases m2 0) as [Hm0|]; [|done].
    unfold val32 in Hval.
    assert (0 < 2 ^ (ea + 149))
      by (apply Z.pow_pos_nonneg; apply bounded32_inv in HA; lia).
    assert (0 < 2 ^ (e' + 149)) by (apply Z.pow_pos_nonneg; lia). nia. }
  assert (Hnorm2 : 2 ^ 23 <= m2 \/ e' = -149) by lia.
  destruct (encode32_ge s m2 e' ltac:(lia) He' Hnorm2)
    as [Hz|(m & e & Hf & Hb & Hv)]; [by left|right].
  exists m, e. split; [done|]. split; [done|]. lia.
Qed.

Lemma iter_xO (d m : positive) :
  Zpos (Pos.iter xO m d) = Zpos m * 2 ^ Zpos d.
Proof.
  induction d as [|d IH] using Pos.peano_ind.
  - simpl. lia.
  - rewrite Pos.iter_succ, Pos2Z.inj_succ, Z.pow_succ_r by lia.
    change (Zpos (Pos.iter xO m d)~0) with (2 * Zpos (Pos.iter xO m d)).
    rewrite IH. lia.
Qed.

Lemma shl_align_spec (p : positive) (ex ex' : Z) :
  (ex' < ex /\
   shl_align p ex ex' = (Z.to_pos (Zpos p * 2 ^ (ex - ex')), ex')) \/
  (ex <= ex' /\ shl_align p ex ex' = (p, ex)).
Proof.
  unfold shl_align. destruct (ex' - ex) as [|d|d] eqn:Hd.
  - right. split; [lia|done].
  - right. split; [lia|done].
  - left. split; [lia|]. f_equal.
    replace (ex - ex') with (Zpos d) by lia.
    rewrite <- iter_xO. by rewrite Pos2Z.id.
Qed.

Lemma val32_shift (m ex ex' : Z) :
  -149 <= ex' <= ex -> val32 (m * 2 ^ (ex - ex')) ex' = val32 m ex.
Proof.
  intros H. unfold val32. rewrite <- Z.mul_assoc, <- pow2_split by lia.
  do 2 f_equal. lia.
Qed.

Lemma digits2_shift (p : positive) (k : Z) :
  0 <= k ->
  Zpos (digits2_pos (Z.to_pos (Zpos p * 2 ^ k))) = Zpos (digits2_pos p) + k.
Proof.
  intros Hk. pose proof (digits2_pos_bounds p) as Hd.
  assert (H2k : 0 < 2 ^ k) by (apply Z.pow_pos_nonneg; lia).
  change (Zpos (digits2_pos (Z.to_pos (Zpos p * 2 ^ k))))
    with (Zdigits2 (Zpos (Z.to_pos (Zpos p * 2 ^ k)))).
  rewrite Z2Pos.id by nia.
  remember (Zpos (digits2_pos p)) as d. assert (0 < d) by lia.
  apply Zdigits2_unique; [lia|].
  replace (d + k - 1) with ((d - 1) + k) by lia.
  rewrite !pow2_split by lia. nia.
Qed.

Lemma binary_round_align (s : bool) (p : positive) (ex : Z) :
  -149 <= ex ->
  exists mz ez,
    binary_round 24 128 s p ex = binary_round_aux 24 128 s (Zpos mz) ez loc_Exact
    /\ -149 <= ez /\ ez <= fexp 24 128 (Zpos (digits2_pos mz) + ez)
    /\ val32 (Zpos mz) ez = val32 (Zpos p) ex.
Proof.
  intros Hex. unfold binary_round.
  destruct (shl_align_spec p ex (fexp 24 128 (Zpos (digits2_pos p) + ex)))
    as [[Hlt ->]|[Hle ->]].
  - eexists _, _. split; [done|].
    assert (Hf : -149 <= fexp 24 128 (Zpos (digits2_pos p) + ex))
      by (rewrite fexp32_eq; lia).
    split; [done|].
    assert (0 < 2 ^ (ex - fexp 24 128 (Zpos (digits2_pos p) + ex)))
      by (apply Z.pow_pos_nonneg; lia).
    split.
    + rewrite digits2_shift by lia.
      replace (Zpos (digits2_pos p)
               + (ex - fexp 24 128 (Zpos (digits2_pos p) + ex))
               + fexp 24 128 (Zpos (digits2_pos p) + ex))
        with (Zpos (digits2_pos p) + ex) by lia.
      lia.
    + rewrite Z2Pos.id by nia. apply val32_shift. lia.
  - eexists _, _. split; [done|]. split; [done|]. split; [done|]. done.
Qed.

Lemma binary_round_le (s : bool) (p : positive) (ex : Z)
    (mb : positive) (eb : Z) :
  -149 <= ex -> bounded 24 128 mb eb = true ->
  val32 (Zpos p) ex <= val32 (Zpos mb) eb ->
  binary_round 24 128 s p ex = S754_zero s \/
  exists m e,
    binary_round 24 128 s p ex = S754_finite s m e /\
    bounded 24 128 m e = true /\
    val32 (Zpos m) e <= val32 (Zpos mb) eb.
Proof.
  intros Hex HB Hle.
  destruct (binary_round_align s p ex Hex) as (mz & ez & -> & Hez & Hf & Hv).
  apply binary_round_aux_le; try done. right. split; [done|]. lia.
Qed.

Lemma binary_round_ge (s : bool) (p : positive) (ex : Z)
    (ma : positive) (ea : Z) :
  -149 <= ex -> bounded 24 128 ma ea = true ->
  val32 (Zpos ma) ea <= val32 (Zpos p) ex ->
  binary_round 24 128 s p ex = S754_infinity s \/
  exists m e,
    binary_round 24 128 s p ex = S754_finite s m e /\
    bounded 24 128 m e = true /\
    val32 (Zpos ma) ea <= val32 (Zpos m) e.
Proof.
  intros Hex HA Hle.
  destruct (binary_round_align s p ex Hex) as (mz & ez & -> & Hez & Hf & Hv).
  apply binary_round_aux_ge; try done. lia.
Qed.

(** Canonical floats are ordered as their values. *)
Lemma val32_le_inv (m1 : positive) (e1 : Z) (m2 : positive) (e2 : Z) :
  bounded 24 128 m1 e1 = true -> bounded 24 128 m2 e2 = true ->
  val32 (Zpos m1) e1 <= val32 (Zpos m2) e2 ->
  e1 < e2 \/ (e1 = e2 /\ (m1 <= m2)%positive).
Proof.
  intros (He1 & Hm1 & Hn1)%bounded32_inv (He2 & Hm2 & Hn2)%bounded32_inv Hle.
  unfold val32 in Hle.
  destruct (Z.lt_trichotomy e1 e2) as [Hlt|[Heq|Hgt]]; [by left| |].
  - right. split; [done|]. subst e2.
    assert (0 < 2 ^ (e1 + 149)) by (apply Z.pow_pos_nonneg; lia).
    assert (Zpos m1 <= Zpos m2) by nia. lia.
  - exfalso. destruct Hn1 as [Hn1|Hn1]; [|lia].
    assert (Hae : 2 ^ (e1 + 149) = 2 ^ (e1 - e2 - 1) * (2 * 2 ^ (e2 + 149))).
    { replace (2 * 2 ^ (e2 + 149)) with (2 ^ (1 + (e2 + 149)))
        by (rewrite pow2_split by lia; done).
      rewrite <- pow2_split by lia. f_equal. lia. }
    assert (0 < 2 ^ (e1 - e2 - 1)) by (apply Z.pow_pos_nonneg; lia).
    assert (0 < 2 ^ (e2 + 149)) by (apply Z.pow_pos_nonneg; lia).
    rewrite Hae in Hle.
    set (u := 2 ^ (e2 + 149)) in *. set (k := 2 ^ (e1 - e2 - 1)) in *.
    clearbody u k.
    assert (2 ^ 23 * (k * (2 * u)) <= Zpos m1 * (k * (2 * u)))
      by (apply Z.mul_le_mono_nonneg_r; nia).
    assert (1 * (2 ^ 23 * 2 * u) <= k * (2 ^ 23 * 2 * u))
      by (apply Z.mul_le_mono_nonneg_r; nia).
    nia.
Qed.

Lemma leb_of_val (m1 : positive) (e1 : Z) (m2 : positive) (e2 : Z) :
  bounded 24 128 m1 e1 = true -> bounded 24 128 m2 e2 = true ->
  val32 (Zpos m1) e1 <= val32 (Zpos m2) e2 ->
  F32.leb (S754_finite false m1 e1) (S754_finite false m2 e2) = true /\
  F32.leb (S754_finite true m2 e2) (S754_finite true m1 e1) = true.
Proof.
  intros H1 H2 Hle.
  unfold F32.leb, SFleb, SFcompare.
  destruct (val32_le_inv m1 e1 m2 e2 H1 H2 Hle) as [Hlt|[-> Hm]].
  - rewrite (proj2 (Z.compare_lt_iff e1 e2) Hlt).
    rewrite (proj2 (Z.compare_gt_iff e2 e1) Hlt). done.
  - rewrite Z.compare_refl.
    change (Pos.compare_cont Eq m1 m2) with (Pos.compare m1 m2).
    change (Pos.compare_cont Eq m2 m1) with (Pos.compare m2 m1).
    rewrite (Pos.compare_antisym m1 m2), CompOpp_involutive.
    destruct (Pos.compare_spec m1 m2) as [->|Hlt|Hgt]; [done|done|lia].
Qed.

Lemma shl_align_val (p : positive) (ex ez : Z) :
  -149 <= ez <= ex ->
  val32 (Zpos (shl_align p ex ez).1) ez = val32 (Zpos p) ex.
Proof.
  intros H. destruct (shl_align_spec p ex ez) as [[Hlt ->]|[Hle ->]]; simpl.
  - assert (0 < 2 ^ (ex - ez)) by (apply Z.pow_pos_nonneg; lia).
    rewrite Z2Pos.id by nia. by apply val32_shift.
  - by replace ez with ex by lia.
Qed.

(** [1.0] and [0.5] as values. *)
Lemma val32_one : val32 (2 ^ 23) (-23) = 2 ^ 149.
Proof. reflexivity. Qed.

Lemma val32_half : val32 (2 ^ 23) (-24) = 2 ^ 148.
Proof. reflexivity. Qed.

(** A float of value at least one is normal. *)
Lemma normal_of_ge_one (m : positive) (e : Z) :
  bounded 24 128 m e = true ->
  val32 (2 ^ 23) (-23) <= val32 (Zpos m) e ->
  -23 <= e /\ 2 ^ 23 <= Zpos m < 2 ^ 24 /\ Zdigits2 (Zpos m) = 24.
Proof.
  intros Hb Hle.
  assert (H1 : bounded 24 128 (2 ^ 23) (-23) = true) by reflexivity.
  destruct (bounded32_inv m e Hb) as (He & Hm & Hn).
  assert (He23 : -23 <= e).
  { destruct (val32_le_inv _ _ _ _ H1 Hb Hle) as [?|[? _]]; lia. }
  assert (2 ^ 23 <= Zpos m) by lia.
  split; [done|]. split; [lia|]. apply Zdigits2_unique; lia.
Qed.

(** The conversion of a positive integer that a float [D] bounds. *)
Lemma of_Z_bounds (r : Z) (mD : positive) (eD : Z) :
  1 <= r -> bounded 24 128 mD eD = true ->
  val32 r 0 <= val32 (Zpos mD) eD ->
  exists m e,
    F32.of_Z r = S754_finite false m e /\ bounded 24 128 m e = true /\
    val32 (2 ^ 23) (-23) <= val32 (Zpos m) e <= val32 (Zpos mD) eD.
Proof.
  intros Hr HD Hle. destruct r as [|p|p]; try lia.
  unfold F32.of_Z, binary_normalize.
  change F32.prec with 24. change F32.emax with 128.
  assert (H1 : bounded 24 128 (2 ^ 23) (-23) = true) by reflexivity.
  assert (Hge : val32 (Zpos (2 ^ 23)) (-23) <= val32 (Zpos p) 0).
  { unfold val32. change (Zpos (2 ^ 23) * 2 ^ (-23 + 149)) with (1 * 2 ^ 149).
    apply Z.mul_le_mono_nonneg_r; lia. }
  destruct (binary_round_le false p 0 mD eD ltac:(lia) HD Hle)
    as [Hz|(m & e & Hf & Hb & Hv)];
    destruct (binary_round_ge false p 0 _ _ ltac:(lia) H1 Hge)
      as [Hi|(m' & e' & Hf' & Hb' & Hv')]; try congruence.
  exists m, e. split; [done|]. split; [done|].
  rewrite Hf in Hf'. injection Hf' as <- <-. split; [exact Hv'|exact Hv].
Qed.

Lemma new_location_0 (n : Z) : new_location n 0 = loc_Exact.
Proof.
  unfold new_location, new_location_even, new_location_odd.
  by destruct (Z.even n).
Qed.

(** The quotient of two floats [1 <= x <= D] is at most one. *)
Lemma div_le_one (m1 : positive) (e1 : Z) (m2 : positive) (e2 : Z) :
  bounded 24 128 m1 e1 = true -> bounded 24 128 m2 e2 = true ->
  val32 (2 ^ 23) (-23) <= val32 (Zpos m1) e1 ->
  val32 (Zpos m1) e1 <= val32 (Zpos m2) e2 ->
  e2 <= 8 ->
  F32.div (S754_finite false m1 e1) (S754_finite false m2 e2)
    = S754_zero false \/
  exists m e,
    F32.div (S754_finite false m1 e1) (S754_finite false m2 e2)
      = S754_finite false m e /\
    bounded 24 128 m e = true /\
    val32 (Zpos m) e <= val32 (2 ^ 23) (-23).
Proof.
  intros Hb1 Hb2 Hge Hle He2.
  destruct (normal_of_ge_one m1 e1 Hb1 Hge) as (He1 & Hm1 & Hd1).
  destruct (normal_of_ge_one m2 e2 Hb2 (Z.le_trans _ _ _ Hge Hle))
    as (He2' & Hm2 & Hd2).
  assert (He12 : e1 <= e2).
  { destruct (val32_le_inv _ _ _ _ Hb1 Hb2 Hle) as [?|[? _]]; lia. }
  unfold F32.div, SFdiv, SFdiv_core_binary.
  change F32.prec with 24. change F32.emax with 128.
  rewrite Hd1, Hd2, fexp32_eq.
  replace (Z.min (Z.max (24 + e1 - (24 + e2) - 24) (-149)) (e1 - e2))
    with (e1 - e2 - 24) by lia.
  replace (e1 - e2 - (e1 - e2 - 24)) with 24 by lia.
  rewrite Z.shiftl_mul_pow2 by lia.
  pose proof (Z_div_mod (Zpos m1 * 2 ^ 24) (Zpos m2) ltac:(lia)) as Hdm.
  destruct (Z.div_eucl (Zpos m1 * 2 ^ 24) (Zpos m2)) as [q r].
  destruct Hdm as [Hdm Hr].
  assert (Hq : 2 ^ 23 <= q) by nia.
  destruct q as [|qp|qp]; try lia.
  simpl xorb.
  assert (Hdq : 24 <= Zpos (digits2_pos qp)).
  { pose proof (digits2_pos_bounds qp) as Hd.
    destruct (Z.le_gt_cases 24 (Zpos (digits2_pos qp))) as [|Hlt]; [done|].
    assert (2 ^ Zpos (digits2_pos qp) <= 2 ^ 23)
      by (apply Z.pow_le_mono_r; lia). lia. }
  apply binary_round_aux_le; [lia|rewrite fexp32_eq; lia|reflexivity|].
  assert (Hm12 : Zpos m1 <= Zpos m2 * 2 ^ (e2 - e1)).
  { unfold val32 in Hle.
    replace (e2 + 149) with ((e2 - e1) + (e1 + 149)) in Hle by lia.
    rewrite (pow2_split (e2 - e1) (e1 + 149)) in Hle by lia.
    assert (0 < 2 ^ (e1 + 149)) by (apply Z.pow_pos_nonneg; lia).
    nia. }
  assert (Hone : 2 ^ 149
                 = 2 ^ (24 + (e2 - e1)) * 2 ^ (e1 - e2 - 24 + 149)).
  { rewrite <- pow2_split by lia. f_equal. lia. }
  change (val32 (Zpos _) (-23)) with (2 ^ 149).
  rewrite Hone. unfold val32.
  assert (Hu : 0 < 2 ^ (e1 - e2 - 24 + 149)) by (apply Z.pow_pos_nonneg; lia).
  assert (Ht : 2 ^ (24 + (e2 - e1)) = 2 ^ 24 * 2 ^ (e2 - e1))
    by (apply pow2_split; lia).
  assert (0 < 2 ^ (e2 - e1)) by (apply Z.pow_pos_nonneg; lia).
  destruct (Z.eqb_spec r 0) as [->|Hr0].
  - right. split; [apply new_location_0|].
    apply Z.mul_le_mono_nonneg_r; [lia|]. rewrite Ht. nia.
  - left. apply Z.mul_lt_mono_pos_r; [done|]. rewrite Ht. nia.
Qed.

Lemma val32_sub (a b e : Z) : val32 (a - b) e = val32 a e - val32 b e.
Proof. unfold val32. lia. Qed.

(** Adding [-0.5] to a float between zero and one. *)
Lemma add_start_bounds (q : float) :
  (q = S754_zero false \/
   exists m e, q = S754_finite false m e /\ bounded 24 128 m e = true /\
               val32 (Zpos m) e <= val32 (2 ^ 23) (-23)) ->
  F32.leb rand_start (F32.add q rand_start) = true /\
  F32.leb (F32.add q rand_start) rand_end = true.
Proof.
  intros [->|(m & e & -> & Hb & Hle)]; [by vm_compute|].
  destruct (bounded32_inv m e Hb) as (He & Hm & _).
  assert (HB : bounded 24 128 (2 ^ 23) (-24) = true) by reflexivity.
  unfold rand_start, rand_end, f_half, F32.add, SFadd.
  change F32.prec with 24. change F32.emax with 128.
  pose proof (shl_align_val m e (Z.min e (-24)) ltac:(lia)) as Ha.
  pose proof (shl_align_val 8388608 (-24) (Z.min e (-24)) ltac:(lia)) as Hh.
  change (val32 (Zpos 8388608) (-24)) with (2 ^ 148) in Hh.
  change (val32 (2 ^ 23) (-23)) with (2 ^ 149) in Hle.
  set (a := Zpos (shl_align m e (Z.min e (-24))).1) in *.
  set (b := Zpos (shl_align 8388608 (-24) (Z.min e (-24))).1) in *.
  simpl cond_Zopp. change (- b) with (Z.opp b).
  assert (Hab : val32 (a + - b) (Z.min e (-24)) = val32 (Zpos m) e - 2 ^ 148).
  { replace (a + - b) with (a - b) by lia. rewrite val32_sub. lia. }
  assert (Hpos : 0 < val32 (Zpos m) e).
  { unfold val32. apply Z.mul_pos_pos; [lia|]. apply Z.pow_pos_nonneg; lia. }
  clearbody a b.
  unfold binary_normalize.
  destruct (a + - b) as [|p|p] eqn:Hs.
  - by vm_compute.
  - destruct (binary_round_le false p (Z.min e (-24)) _ _ ltac:(lia) HB)
      as [->|(m' & e' & -> & Hb' & Hv')].
    + change (val32 (Zpos (2 ^ 23)) (-24)) with (2 ^ 148). lia.
    + by vm_compute.
    + split; [done|]. by apply leb_of_val.
  - assert (Hneg : val32 (Zpos p) (Z.min e (-24)) = 2 ^ 148 - val32 (Zpos m) e).
    { change (Zpos p) with (- Zneg p). unfold val32 in *. lia. }
    destruct (binary_round_le true p (Z.min e (-24)) _ _ ltac:(lia) HB)
      as [->|(m' & e' & -> & Hb' & Hv')].
    + change (val32 (Zpos (2 ^ 23)) (-24)) with (2 ^ 148). lia.
    + by vm_compute.
    + split; [|done]. by apply leb_of_val.
Qed.

(** ** The random draws *)

Section RandProofs.
Context `{Libc}.

Lemma rand_max_float :
  rand_max_pow2 ->
  exists mD eD,
    F32.of_Z RAND_MAX = S754_finite false mD eD /\
    bounded 24 128 mD eD = true /\ eD <= 8 /\
    val32 RAND_MAX 0 <= val32 (Zpos mD) eD /\
    F32.div (F32.of_Z RAND_MAX) (F32.sub rand_end rand_start)
      = F32.of_Z RAND_MAX.
Proof.
  intros (k & Hk & ->).
  assert (Hcases : k = 15 \/ k = 16 \/ k = 17 \/ k = 18 \/ k = 19 \/ k = 20 \/
                   k = 21 \/ k = 22 \/ k = 23 \/ k = 24 \/ k = 25 \/ k = 26 \/
                   k = 27 \/ k = 28 \/ k = 29 \/ k = 30 \/ k = 31) by lia.
  clear Hk.
  repeat (destruct Hcases as [->|Hcases]); try subst k;
    (eexists _, _; split; [by vm_compute|];
     split; [by vm_compute|]; split; [by vm_compute|];
     split; [by vm_compute|by vm_compute]).
Qed.

(** [(float)r / D] for [0 <= r <= RAND_MAX] and [D] the float of
    [RAND_MAX]. *)
Lemma rand_quotient (r : Z) (mD : positive) (eD : Z) :
  0 <= r -> bounded 24 128 mD eD = true -> eD <= 8 ->
  val32 r 0 <= val32 (Zpos mD) eD ->
  F32.div (F32.of_Z r) (S754_finite false mD eD) = S754_zero false \/
  exists m e,
    F32.div (F32.of_Z r) (S754_finite false mD eD) = S754_finite false m e /\
    bounded 24 128 m e = true /\
    val32 (Zpos m) e <= val32 (2 ^ 23) (-23).
Proof.
  intros Hr HD HeD Hle.
  destruct (Z.eqb_spec r 0) as [->|Hr0]; [by left|].
  destruct (of_Z_bounds r mD eD ltac:(lia) HD Hle)
    as (m & e & -> & Hb & Hge & Hle').
  by apply div_le_one.
Qed.

Lemma val32_mono (a b : Z) : a <= b -> val32 a 0 <= val32 b 0.
Proof. intros. unfold val32. apply Z.mul_le_mono_nonneg_r; lia. Qed.

Lemma nn_rand_range (r : Z) :
  rand_max_pow2 -> 0 <= r <= RAND_MAX ->
  exists w, nn_rand r rand_start rand_end = Some w /\
            in_closed_range rand_start rand_end w.
Proof.
  intros Hmax Hr.
  destruct (rand_max_float Hmax) as (mD & eD & HD & Hb & HeD & Hv & Hdiv).
  unfold nn_rand. change (F32.ltb rand_start rand_end) with true.
  cbv beta iota zeta. eexists. split; [done|]. rewrite Hdiv, HD.
  pose proof (val32_mono r RAND_MAX (proj2 Hr)) as Hmono.
  apply add_start_bounds, rand_quotient; [lia|done|done|lia].
Qed.

Lemma unit_random_range (r : Z) :
  rand_max_pow2 -> 0 <= r <= RAND_MAX ->
  in_closed_range (F32.of_Z 0) f_one (unit_random r).
Proof.
  intros Hmax Hr.
  destruct (rand_max_float Hmax) as (mD & eD & HD & Hb & HeD & Hv & _).
  unfold unit_random. rewrite HD.
  pose proof (val32_mono r RAND_MAX (proj2 Hr)) as Hmono.
  destruct (rand_quotient r mD eD ltac:(lia) Hb HeD ltac:(lia))
    as [->|(m & e & -> & Hbq & Hq)]; [by vm_compute|].
  split; [done|]. by apply leb_of_val.
Qed.

End RandProofs.

Section RandomizeProofs.
Context `{Libc}.

(** C5 (amended).  For a well-formed network of at most [INT_MAX] weights,
    when [RAND_MAX] is one less than a power of two between [2 ^ 15] and
    [2 ^ 31] and [rand] returns values between 0 and [RAND_MAX],
    [nn_ffnet_randomize] succeeds and leaves in every weight a value [w]
    with [-0.5 <= w <= 0.5]. *)
Theorem nn_ffnet_randomize_range (a : addr) (h : nn_heap) (rs : rand_state)
    (blk : nn_block) :
  rand_max_pow2 -> rand_in_range ->
  h !! a = Some blk -> nn_wf a blk -> nweights (blk_net blk) <= INT_MAX ->
  exists h' rs',
    nn_ffnet_randomize a (h, rs) = Some (h', rs') /\
    forall i, 0 <= i < nweights (blk_net blk) ->
      exists w, load h' (ptr_add (weight (blk_net blk)) i) = Some w /\
                in_closed_range rand_start rand_end w.
Proof.
  intros Hmax Hrange Hb Hwf Hint. destruct blk as [net items].
  destruct Hwf as [Htop HW HN Hwp _ Hit _ _ _]. simpl in *.
  destruct (counts_nonneg _ _ _ _ Htop) as [HW0 HN0].
  rewrite <- HW in HW0. rewrite <- HN in HN0.
  unfold nn_ffnet_randomize.
  with_strategy opaque [nn_rand] simpl. rewrite Hb.
  with_strategy opaque [nn_rand] simpl.
  destruct (Z.ltb_spec INT_MAX (nweights net)); [lia|].
  rewrite Hwp.
  match goal with
  | |- context [c_for ?cnt ?i0 ?body ?s0] =>
    destruct (c_for_inv
      (fun i (st : nn_heap * rand_state) =>
         exists items1,
           st.1 !! a = Some {| blk_net := net; blk_items := items1 |} /\
           length items1 = length items /\
           forall j, 0 <= j < i ->
             exists w, items1 !! Z.to_nat j = Some w /\
                       in_closed_range rand_start rand_end w)
      body cnt i0 s0) as ([h' rs'] & Hrun & items' & Hh' & Hlen & Hall)
  end.
  - exists items. split; [done|]. split; [done|]. intros j Hj. lia.
  - intros j [h1 rs1] Hj (items1 & Hh1 & Hlen1 & Hall1). simpl in Hh1.
    rewrite Z2Nat.id in Hj by lia.
    pose proof (Hrange rs1) as Hr. cbv beta iota.
    destruct (rand rs1) as [r rs1']. simpl in Hr.
    destruct (nn_rand_range r Hmax Hr) as (v & -> & Hv). simpl.
    change (ptr_add (a, 0) j) with (a, 0 + j). rewrite Z.add_0_l.
    rewrite (store_at h1 a net items1 j v Hh1) by lia. simpl.
    eexists. split; [done|]. simpl.
    exists (<[Z.to_nat j := v]> items1).
    split; [by rewrite lookup_insert_eq|].
    split; [by rewrite length_insert|].
    intros j' Hj'. destruct (Z.eq_dec j' j) as [->|Hne].
    + exists v. split; [|done]. apply list_lookup_insert_eq. lia.
    + rewrite list_lookup_insert_ne by lia. apply Hall1. lia.
  - exists h', rs'. split; [exact Hrun|]. intros i Hi.
    rewrite Z2Nat.id in Hall by lia.
    destruct (Hall i ltac:(lia)) as (w & Hw & Hin).
    exists w. split; [|done].
    change (ptr_add (a, 0) i) with (a, 0 + i). rewrite Z.add_0_l.
    unfold load. simpl in *. rewrite Hh'. simpl.
    destruct (Z.leb_spec 0 i); [done|lia].
Qed.
End RandomizeProofs.

(** ** The population loop *)

Section NeatProofs.
Context `{Collaborators}.

(** Two results are equal when their populations, their memories and
    their generator states are. *)
Lemma world_ext (a b : option world) :
  w_pop <$> a = w_pop <$> b -> w_heap <$> a = w_heap <$> b ->
  w_rand <$> a = w_rand <$> b -> a = b.
Proof.
  destruct a as [[pa ha ra]|], b as [[pb hb rb]|]; simpl; try done.
  by intros [= ->] [= ->] [= ->].
Qed.

Lemma array_get_Some {A : Type} (l : list A) (i : Z) (x : A) :
  array_get l i = Some x <-> 0 <= i /\ l !! Z.to_nat i = Some x.
Proof.
  unfold array_get. destruct (Z.leb_spec 0 i); split; try done.
  - by intros [_ ?].
  - intros [? _]. lia.
Qed.

Lemma array_get_lt {A : Type} (l : list A) (i : Z) :
  0 <= i < Z.of_nat (length l) -> is_Some (array_get l i).
Proof.
  intros Hi. unfold array_get. destruct (Z.leb_spec 0 i); [|lia].
  apply lookup_lt_is_Some_2. lia.
Qed.

Lemma array_set_lt {A : Type} (l : list A) (i : Z) (x : A) :
  0 <= i < Z.of_nat (length l) ->
  array_set l i x = Some (<[Z.to_nat i := x]> l).
Proof.
  intros Hi. unfold array_set. destruct (Z.leb_spec 0 i); [|lia].
  destruct (Z.ltb_spec i (Z.of_nat (length l))); [done|lia].
Qed.

Lemma array_get_0 {A : Type} (l : list A) : array_get l 0 = l !! 0%nat.
Proof. reflexivity. Qed.

Lemma genome_at_lt (w : world) (i : Z) :
  pop_wf w -> 0 <= i < ngenomes (w_pop w) -> is_Some (genome_at w i).
Proof.
  intros [Hn _ Hlive _] Hi. unfold genome_at.
  destruct (array_get_lt (genomes (w_pop w)) i) as [ga Hga]; [lia|].
  rewrite Hga. simpl. rewrite Forall_lookup in Hlive.
  apply array_get_Some in Hga as [_ Hga]. by apply (Hlive _ _ Hga).
Qed.

Lemma neat_find_worst_fitness_post (w : world) :
  pop_wf w ->
  exists found worst,
    neat_find_worst_fitness w 0 = Some (found, worst) /\
    (found = true -> first_minimum w worst) /\
    (found = false ->
       (forall i g, ~ candidate w i g) /\ neat_epoch w = Some w).
Proof.
  intros Hwf. unfold neat_epoch, neat_find_worst_fitness.
  match goal with
  | |- context [c_for ?n ?i0 ?body ?s0] =>
    destruct (c_for_inv
      (fun i (st : Z * float * bool) =>
         let '(worst, wfit, found) := st in
         (found = false /\ wfit = FLT_MAX /\
          forall j g, 0 <= j < i -> ~ candidate w j g) \/
         (found = true /\ 0 <= worst < i /\
          exists g, candidate w worst g /\ wfit = fitness g /\
            forall j gj, 0 <= j < i -> candidate w j gj ->
              F32.ltb (fitness gj) (fitness g) = false /\
              (j < worst -> F32.ltb (fitness g) (fitness gj) = true)))
      body n i0 s0) as ([[worst wfit] found] & Hrun & Hinv)
  end.
  - left. split; [done|]. split; [done|]. intros j g Hj. lia.
  - intros i [[worst wfit] found] Hi Hinv.
    destruct (genome_at_lt w i) as [g Hg]; [done|lia|].
    unfold genome_at in Hg.
    destruct (array_get (genomes (w_pop w)) i) as [ga|] eqn:Hga; [|done].
    simpl in Hg. simpl. rewrite Hg. simpl.
    assert (Hcand : forall j gj, candidate w j gj -> j = i -> gj = g).
    { intros j gj (Hj & _) ->. unfold genome_at in Hj.
      rewrite Hga in Hj. simpl in Hj. congruence. }
    destruct (F32.ltb (fitness g) wfit) eqn:Hlt;
      destruct (Z.ltb_spec (genome_minimum_ticks_alive (conf (w_pop w)))
                  (time_alive g)) as [Hage|Hage]; simpl;
      eexists; (split; [done|]).
    + (* the genome becomes the worst so far *)
      right. split; [done|]. split; [lia|]. exists g.
      assert (Hg' : candidate w i g).
      { split; [by unfold genome_at; rewrite Hga|]. split; [done|].
        destruct Hinv as [(_ & -> & _)|(_ & _ & g0 & (_ & _ & Hg0) & -> & _)];
          [done|]. by apply (ltb_trans _ (fitness g0)). }
      split; [done|]. split; [done|]. intros j gj Hj Hcj.
      destruct (decide (j = i)) as [->|Hne].
      * rewrite (Hcand i gj Hcj eq_refl). split; [apply ltb_irrefl|lia].
      * destruct Hinv as [(_ & _ & Hnone)|(_ & _ & g0 & _ & -> & Hmin)].
        { exfalso. apply (Hnone j gj); [lia|done]. }
        destruct (Hmin j gj) as [Hge _]; [lia|done|].
        assert (Hnan : is_nan (fitness gj) = false).
        { destruct Hcj as (_ & _ & Hcj). by apply ltb_not_nan in Hcj. }
        pose proof (ltb_not_ltb _ _ _ Hlt Hge Hnan) as Hlt'.
        split; [|done].
        destruct (F32.ltb (fitness gj) (fitness g)) eqn:Hc; [|done].
        pose proof (ltb_trans _ _ _ Hc Hlt'). by rewrite ltb_irrefl in *.
    + destruct Hinv as [(-> & -> & Hnone)|(-> & Hw & g0 & Hc0 & -> & Hmin)].
      * left. split; [done|]. split; [done|]. intros j gj Hj Hcj.
        destruct (decide (j = i)) as [->|Hne]; [|apply (Hnone j gj); [lia|done]].
        rewrite (Hcand i gj Hcj eq_refl) in Hcj. destruct Hcj as (_ & ? & _). lia.
      * right. split; [done|]. split; [lia|]. exists g0.
        split; [done|]. split; [done|]. intros j gj Hj Hcj.
        destruct (decide (j = i)) as [->|Hne]; [|apply Hmin; [lia|done]].
        rewrite (Hcand i gj Hcj eq_refl) in Hcj. destruct Hcj as (_ & ? & _). lia.
    + destruct Hinv as [(-> & -> & Hnone)|(-> & Hw & g0 & Hc0 & -> & Hmin)].
      * left. split; [done|]. split; [done|]. intros j gj Hj Hcj.
        destruct (decide (j = i)) as [->|Hne]; [|apply (Hnone j gj); [lia|done]].
        rewrite (Hcand i gj Hcj eq_refl) in Hcj.
        destruct Hcj as (_ & _ & ?). congruence.
      * right. split; [done|]. split; [lia|]. exists g0.
        split; [done|]. split; [done|]. intros j gj Hj Hcj.
        destruct (decide (j = i)) as [->|Hne]; [|apply Hmin; [lia|done]].
        rewrite (Hcand i gj Hcj eq_refl). split; [done|lia].
    + destruct Hinv as [(-> & -> & Hnone)|(-> & Hw & g0 & Hc0 & -> & Hmin)].
      * left. split; [done|]. split; [done|]. intros j gj Hj Hcj.
        destruct (decide (j = i)) as [->|Hne]; [|apply (Hnone j gj); [lia|done]].
        rewrite (Hcand i gj Hcj eq_refl) in Hcj. destruct Hcj as (_ & ? & _). lia.
      * right. split; [done|]. split; [lia|]. exists g0.
        split; [done|]. split; [done|]. intros j gj Hj Hcj.
        destruct (decide (j = i)) as [->|Hne]; [|apply Hmin; [lia|done]].
        rewrite (Hcand i gj Hcj eq_refl) in Hcj. destruct Hcj as (_ & ? & _). lia.
  - rewrite Hrun. simpl. exists found, worst. split; [done|].
    assert (Hrange : forall j g, candidate w j g ->
              0 <= j < 0 + Z.of_nat (Z.to_nat (ngenomes (w_pop w)))).
    { intros j g ((ga & Hga & _)%bind_Some & _).
      apply array_get_Some in Hga as [Hj Hga].
      apply lookup_lt_Some in Hga. destruct Hwf as [Hn _ _ _]. lia. }
    destruct Hinv as [(-> & _ & Hnone)|(-> & Hw & g0 & Hc0 & _ & Hmin)].
    + split; [done|]. intros _. split; [|done].
      intros i g Hc. apply (Hnone i g); [|done]. by apply (Hrange i g).
    + split; [|done]. intros _. exists g0. split; [done|].
      intros j gj Hcj. apply Hmin; [|done]. by apply (Hrange j gj).
Qed.

Lemma c_for_break_scan {A St R : Type} (f : Z -> A -> St -> option (St + R)) :
  forall (l pre : list A) (s : St),
    c_for_break (length l) (Z.of_nat (length pre))
      (fun i s => x ← array_get (pre ++ l) i; f i x s) s =
    scan f l (Z.of_nat (length pre)) s.
Proof.
  induction l as [|x l IH]; intros pre s; [done|]. simpl.
  assert (Hx : array_get (pre ++ x :: l) (Z.of_nat (length pre)) = Some x).
  { apply array_get_Some. split; [lia|]. rewrite Nat2Z.id.
    by rewrite lookup_app_r, Nat.sub_diag. }
  rewrite Hx. simpl. destruct (f (Z.of_nat (length pre)) x s) as [[s'|r]|];
    try done.
  specialize (IH (pre ++ [x]) s'). rewrite <- app_assoc in IH. simpl in IH.
  rewrite length_app in IH. simpl in IH.
  replace (Z.of_nat (length pre) + 1) with (Z.of_nat (length pre + 1)) by lia.
  exact IH.
Qed.

Lemma c_for_fold {A St : Type} (g : St -> A -> St) :
  forall (l pre : list A) (s : St),
    c_for (length l) (Z.of_nat (length pre))
      (fun i s => x ← array_get (pre ++ l) i; Some (g s x)) s =
    Some (fold_left g l s).
Proof.
  induction l as [|x l IH]; intros pre s; [done|]. simpl.
  assert (Hx : array_get (pre ++ x :: l) (Z.of_nat (length pre)) = Some x).
  { apply array_get_Some. split; [lia|]. rewrite Nat2Z.id.
    by rewrite lookup_app_r, Nat.sub_diag. }
  rewrite Hx. simpl.
  specialize (IH (pre ++ [x]) (g s x)). rewrite <- app_assoc in IH.
  simpl in IH. rewrite length_app in IH. simpl in IH.
  replace (Z.of_nat (length pre) + 1) with (Z.of_nat (length pre + 1)) by lia.
  exact IH.
Qed.

Lemma neat_get_species_fitness_average_spec (w : world) :
  nspecies (w_pop w) = Z.of_nat (length (species (w_pop w))) ->
  neat_get_species_fitness_average w = Some (species_mean w).
Proof.
  intros Hn. unfold neat_get_species_fitness_average, species_mean.
  rewrite Hn, Nat2Z.id.
  rewrite (c_for_fold
    (fun total s =>
       F32.add total (neat_species_get_average_fitness (w_heap w) s))
    (species (w_pop w)) [] _). done.
Qed.

Lemma scan_roulette (w0 : world) (worst : Z) (share : neat_species -> float) :
  forall (l : list neat_species) (i : Z) (r : float),
    scan
      (fun (_ : Z) (s : neat_species) (selection_random : float) =>
         if s_ngenomes s =? 0 then Some (inl selection_random)
         else if F32.ltb (share s) selection_random then
           Some (inl (F32.sub selection_random (share s)))
         else w' ← neat_reproduce s worst w0; Some (inr w'))
      l i r =
    match roulette share l i r with
    | Some (_, s) => w' ← neat_reproduce s worst w0; Some (inr w')
    | None => Some (inl (roulette_rest share l r))
    end.
Proof.
  induction l as [|s l IH]; intros i r; [done|]. simpl.
  destruct (s_ngenomes s =? 0); [apply IH|].
  destruct (F32.ltb (share s) r); [apply IH|].
  by destruct (neat_reproduce s worst w0).
Qed.

Lemma neat_select_reproduction_species_post (worst : Z) (w : world) :
  nspecies (w_pop w) = Z.of_nat (length (species (w_pop w))) ->
  let r := unit_random (rand (w_rand w)).1 in
  let w0 := with_rand (rand (w_rand w)).2 w in
  neat_get_species_fitness_average w = Some (species_mean w) /\
  neat_select_reproduction_species worst w =
    match roulette (species_share w) (species (w_pop w)) 0 r with
    | Some (_, s) => neat_reproduce s worst w0
    | None => Some w0
    end.
Proof.
  intros Hn r w0. split; [by apply neat_get_species_fitness_average_spec|].
  unfold neat_select_reproduction_species.
  rewrite neat_get_species_fitness_average_spec by done. simpl.
  unfold r, w0, with_rand. destruct (rand (w_rand w)) as [r0 rs]. simpl.
  rewrite Hn, Nat2Z.id.
  match goal with
  | |- context [c_for_break ?n ?i0 ?body ?s0] =>
    replace (c_for_break n i0 body s0) with
      (scan
         (fun (_ : Z) (s : neat_species) (selection_random : float) =>
            if s_ngenomes s =? 0 then Some (inl selection_random)
            else if F32.ltb (species_share w s) selection_random then
              Some (inl (F32.sub selection_random (species_share w s)))
            else
              w' ← neat_reproduce s worst
                     {| w_pop := w_pop w; w_heap := w_heap w; w_rand := rs |};
              Some (inr w'))
         (species (w_pop w)) 0 s0)
      by (symmetry; exact (c_for_break_scan _ (species (w_pop w)) [] s0))
  end.
  rewrite scan_roulette.
  destruct (roulette _ (species (w_pop w)) 0 (unit_random r0)) as [[i s]|];
    simpl; [|done].
  by destruct (neat_reproduce s worst _).
Qed.

Lemma neat_create_post (config : neat_config)
    (h : gmap addr (neat_genome genome_body)) (rs : rand_state) :
  0 < population_size config ->
  sizeof_pointer * population_size config <= SIZE_MAX ->
  malloc_fresh ->
  exists w a0 g0 rs',
    neat_create config h rs = Some w /\
    neat_genome_create config 1 rs = (g0, rs') /\
    ngenomes (w_pop w) = population_size config /\
    Z.of_nat (length (genomes (w_pop w))) = population_size config /\
    NoDup (genomes (w_pop w)) /\
    Forall (fun ga => h !! ga = None) (genomes (w_pop w)) /\
    genomes (w_pop w) !! 0%nat = Some a0 /\
    w_heap w !! a0 = Some g0 /\
    (forall (i : nat) ga, (1 <= i)%nat -> genomes (w_pop w) !! i = Some ga ->
       w_heap w !! ga = Some (neat_genome_copy g0)) /\
    nspecies (w_pop w) = 1 /\
    species (w_pop w) =
      [ {| s_ngenomes := 1; s_genomes := [a0]; s_representant := Some a0 |} ].
Proof.
  intros HN Hsz Hfresh. unfold neat_create.
  destruct (Z.ltb_spec 0 (population_size config)); [|lia].
  destruct (Z.ltb_spec SIZE_MAX (sizeof_pointer * population_size config));
    [lia|]. simpl.
  unfold neat_reset_genomes. simpl.
  destruct (neat_genome_create config 1 rs) as [g0 rs'] eqn:Hg0.
  set (N := population_size config) in *.
  set (a0 := malloc (dom h)).
  assert (Ha0 : h !! a0 = None).
  { apply not_elem_of_dom. apply Hfresh. }
  rewrite (array_set_lt (replicate (Z.to_nat N) uninit_addr) 0 a0)
    by (rewrite length_replicate; lia). simpl.
  match goal with
  | |- context [c_for ?n ?i0 ?body ?s0] =>
    destruct (c_for_inv
      (fun i (st : list addr * gmap addr (neat_genome genome_body)) =>
         Z.of_nat (length st.1) = N /\
         st.1 !! 0%nat = Some a0 /\ st.2 !! a0 = Some g0 /\
         NoDup (take (Z.to_nat i) st.1) /\
         (forall x, is_Some (h !! x) -> is_Some (st.2 !! x)) /\
         Forall (fun ga => h !! ga = None /\ is_Some (st.2 !! ga))
           (take (Z.to_nat i) st.1) /\
         (forall (k : nat) ga, (1 <= k)%nat -> Z.of_nat k < i ->
            st.1 !! k = Some ga -> st.2 !! ga = Some (neat_genome_copy g0)))
      body n i0 s0) as ([gs hh] & Hrun & Hlen & Hbase & Hhb & Hnd & Hgrow & Hall & Hcopy)
  end.
  - simpl. change (Z.to_nat 0) with 0%nat.
    rewrite length_insert, length_replicate.
    split; [lia|].
    assert (Hl0 : <[0%nat:=a0]> (replicate (Z.to_nat N) uninit_addr) !! 0%nat
                  = Some a0).
    { apply list_lookup_insert_eq. rewrite length_replicate. lia. }
    split; [done|]. split; [apply lookup_insert_eq|].
    change (Z.to_nat 1) with 1%nat. change (Z.to_nat 0) with 0%nat.
    rewrite (take_S_r _ 0 a0 Hl0). simpl.
    split; [apply NoDup_singleton|].
    split.
    { intros x Hx. destruct (decide (x = a0)) as [->|Hne].
      - rewrite Ha0 in Hx. by destruct Hx.
      - by rewrite lookup_insert_ne. }
    split.
    { repeat constructor; [done|]. rewrite lookup_insert_eq. by eexists. }
    intros k ga Hk1 Hk2. lia.
  - intros i [gs hh] Hi (Hlen & Hbase & Hhb & Hnd & Hgrow & Hall & Hcopy).
    simpl in *.
    rewrite array_get_0, Hbase. simpl. rewrite Hhb. simpl.
    set (a := malloc (dom hh)).
    assert (Ha : hh !! a = None) by (apply not_elem_of_dom, Hfresh).
    rewrite (array_set_lt gs i a) by lia. simpl.
    eexists. split; [done|]. simpl.
    assert (Hne0 : a <> a0) by (intros Heq; rewrite Heq, Hhb in Ha; done).
    assert (Hli : <[Z.to_nat i := a]> gs !! Z.to_nat i = Some a).
    { apply list_lookup_insert_eq. lia. }
    rewrite length_insert. split; [done|].
    split; [rewrite list_lookup_insert_ne by lia; done|].
    split; [by rewrite lookup_insert_ne|].
    replace (Z.to_nat (i + 1)) with (S (Z.to_nat i)) by lia.
    rewrite (take_S_r _ _ a Hli). rewrite take_insert_ge by lia.
    split.
    { apply NoDup_app. split; [done|]. split; [|apply NoDup_singleton].
      intros x Hx ->%list_elem_of_singleton.
      rewrite Forall_forall in Hall. destruct (Hall a Hx) as [_ [? ?]].
      congruence. }
    split.
    { intros x Hx. destruct (decide (x = a)) as [->|Hne].
      - rewrite lookup_insert_eq. by eexists.
      - rewrite lookup_insert_ne by done. by apply Hgrow. }
    split.
    { apply Forall_app. split.
      - eapply Forall_impl; [exact Hall|]. intros x [Hx1 Hx2]. split; [done|].
        destruct (decide (x = a)) as [->|Hne].
        + rewrite lookup_insert_eq. by eexists.
        + by rewrite lookup_insert_ne.
      - repeat constructor.
        + destruct (h !! a) eqn:Hha; [|done].
          destruct (Hgrow a) as [? ?]; [by eexists|congruence].
        + rewrite lookup_insert_eq. by eexists. }
    intros k ga Hk1 Hk2 Hk.
    destruct (decide (k = Z.to_nat i)) as [->|Hne].
    + rewrite Hli in Hk. injection Hk as <-. apply lookup_insert_eq.
    + rewrite list_lookup_insert_ne in Hk by done.
      assert (Hin : ga ∈ take (Z.to_nat i) gs).
      { apply list_elem_of_lookup. exists k. rewrite lookup_take_lt by lia. done. }
      rewrite Forall_forall in Hall. destruct (Hall ga Hin) as [_ [? Hga]].
      assert (ga <> a) by (intros ->; congruence).
      rewrite lookup_insert_ne by done. apply Hcopy with (k := k); [done|lia|done].
  - simpl in *. rewrite Hrun. simpl.
    rewrite array_get_0. simpl. rewrite Hbase. simpl.
    replace (Z.to_nat (1 + Z.of_nat (Z.to_nat (N - 1)))) with (length gs)
      in * by lia.
    rewrite firstn_all in *.
    exists {| w_pop :=
                with_species (0 + 1) ([] ++ [neat_species_create config (Some a0)])
                  (with_species 0 []
                     (with_genomes gs
                        (with_innovation (1 + 1)
                           {| conf := config; solved := false; innovation := 1;
                              ngenomes := N;
                              genomes := replicate (Z.to_nat N) uninit_addr;
                              nspecies := 0; species := [] |})));
              w_heap := hh; w_rand := rs' |}, a0, g0, rs'.
    simpl. split; [done|]. split; [done|]. split; [done|]. split; [done|].
    split; [done|]. split.
    { eapply Forall_impl; [exact Hall|]. by intros x [? _]. }
    split; [done|]. split; [done|]. split; [|done].
    intros i ga Hi Hga. apply Hcopy with (k := i); [done| |done].
    apply lookup_lt_Some in Hga. lia.
Qed.

Lemma remove_loop (gs : list addr) (worst : Z) (wg : addr) :
  array_get gs worst = Some wg ->
  forall l seen : list neat_species,
    c_for (length l) (Z.of_nat (length seen))
      (fun i sp =>
         s ← array_get sp i;
         wg ← array_get gs worst;
         array_set sp i (neat_species_remove_genome s wg))
      (seen ++ l) =
    Some (seen ++ map (fun s => neat_species_remove_genome s wg) l).
Proof.
  intros Hwg. rewrite Hwg.
  induction l as [|s l IH]; intros seen; [done|]. simpl.
  assert (Hs : array_get (seen ++ s :: l) (Z.of_nat (length seen)) = Some s).
  { apply array_get_Some. split; [lia|]. rewrite Nat2Z.id.
    by rewrite lookup_app_r, Nat.sub_diag. }
  rewrite Hs. simpl.
  rewrite array_set_lt by (rewrite length_app; simpl; lia). rewrite Nat2Z.id.
  rewrite insert_app_r_alt, Nat.sub_diag by lia. simpl.
  specialize (IH (seen ++ [neat_species_remove_genome s wg])).
  rewrite <- !app_assoc in IH. simpl in IH. rewrite length_app in IH.
  simpl in IH.
  replace (Z.of_nat (length seen) + 1) with (Z.of_nat (length seen + 1)) by lia.
  exact IH.
Qed.

Lemma scan_add_to_first (compatible : neat_species -> bool) (g : addr)
    (all : list neat_species) :
  forall l pre : list neat_species,
    all = pre ++ l ->
    scan
      (fun (i : Z) (s : neat_species) (_ : ()) =>
         if compatible s then
           sp ← array_set all i (neat_species_add_genome s g); Some (inr sp)
         else Some (inl ()))
      l (Z.of_nat (length pre)) () =
    match add_to_first compatible g l with
    | Some l' => Some (inr (pre ++ l'))
    | None => Some (inl ())
    end.
Proof.
  induction l as [|s l IH]; intros pre Hall; [done|]. simpl.
  destruct (compatible s).
  - rewrite Hall, array_set_lt by (rewrite length_app; simpl; lia).
    rewrite Nat2Z.id, insert_app_r_alt, Nat.sub_diag by lia. done.
  - specialize (IH (pre ++ [s])). rewrite <- app_assoc in IH.
    specialize (IH Hall). rewrite length_app in IH. simpl in IH.
    replace (Z.of_nat (length pre) + 1) with (Z.of_nat (length pre + 1)) by lia.
    rewrite IH. destruct (add_to_first compatible g l); simpl; [|done].
    by rewrite <- app_assoc.
Qed.

Lemma add_to_first_length compatible g l l' :
  add_to_first compatible g l = Some l' -> length l' = length l.
Proof.
  revert l'. induction l as [|s l IH]; intros l'; simpl; [done|].
  destruct (compatible s); [by intros [= <-]|].
  destruct (add_to_first compatible g l) as [l2|]; simpl; [|done].
  intros [= <-]. simpl. by rewrite (IH l2).
Qed.

Lemma neat_speciate_genome_spec (genome_id : Z) (w : world) (wg : addr) :
  nspecies (w_pop w) = Z.of_nat (length (species (w_pop w))) ->
  array_get (genomes (w_pop w)) genome_id = Some wg ->
  let sp := speciate w wg (species (w_pop w)) in
  neat_speciate_genome genome_id w =
    Some (with_pop (with_species (Z.of_nat (length sp)) sp (w_pop w)) w).
Proof.
  intros Hn Hwg sp. unfold neat_speciate_genome. rewrite Hwg. simpl.
  rewrite Hn, Nat2Z.id.
  match goal with
  | |- context [c_for_break ?n ?i0 ?body ?s0] =>
    replace (c_for_break n i0 body s0) with
      (scan
         (fun (i : Z) (s : neat_species) (_ : ()) =>
            if neat_genome_is_compatible (w_heap w) wg
                 (neat_species_get_representant s)
                 (genome_compatibility_treshold (conf (w_pop w)))
            then
              sp ← array_set (species (w_pop w)) i
                     (neat_species_add_genome s wg);
              Some (inr sp)
            else Some (inl ()))
         (species (w_pop w)) 0 ())
      by (symmetry; exact (c_for_break_scan _ (species (w_pop w)) [] ()))
  end.
  rewrite (scan_add_to_first _ wg (species (w_pop w)) (species (w_pop w)) [])
    by done.
  unfold sp, speciate.
  destruct (add_to_first _ wg (species (w_pop w))) as [l'|] eqn:Hadd; simpl.
  - rewrite (add_to_first_length _ _ _ _ Hadd), <- Hn. done.
  - unfold neat_create_new_species. simpl.
    assert (Hget : array_get
              (species (w_pop w) ++ [neat_species_create (conf (w_pop w)) None])
              (Z.of_nat (length (species (w_pop w)))) =
            Some (neat_species_create (conf (w_pop w)) None)).
    { apply array_get_Some. split; [lia|]. rewrite Nat2Z.id.
      by rewrite lookup_app_r, Nat.sub_diag. }
    rewrite Hget. simpl.
    rewrite array_set_lt by (rewrite length_app; simpl; lia).
    rewrite Nat2Z.id, insert_app_r_alt, Nat.sub_diag by lia. simpl.
    rewrite length_app. simpl. unfold with_pop, with_species. simpl.
    do 3 f_equal. lia.
Qed.

Lemma neat_epoch_found (w : world) (worst : Z) (wg : addr) :
  pop_wf w ->
  neat_find_worst_fitness w 0 = Some (true, worst) ->
  array_get (genomes (w_pop w)) worst = Some wg ->
  neat_epoch w = neat_select_reproduction_species worst (detach w wg).
Proof.
  intros Hwf Hfind Hwg. unfold neat_epoch, detach. rewrite Hfind. simpl.
  rewrite (wf_nspecies w Hwf), Nat2Z.id.
  match goal with
  | |- context [c_for ?n ?i0 ?body ?s0] =>
    replace (c_for n i0 body s0) with
      (Some (map (fun s => neat_species_remove_genome s wg) (species (w_pop w))))
      by (symmetry;
          exact (remove_loop (genomes (w_pop w)) worst wg Hwg
                   (species (w_pop w)) []))
  end.
  simpl. by rewrite <- (wf_nspecies w Hwf).
Qed.

Lemma detach_nspecies (w : world) (wg : addr) :
  pop_wf w ->
  nspecies (w_pop (detach w wg))
  = Z.of_nat (length (species (w_pop (detach w wg)))).
Proof. intros Hwf. simpl. rewrite length_map. apply (wf_nspecies w Hwf). Qed.

Lemma first_minimum_slot (w : world) (worst : Z) :
  first_minimum w worst ->
  exists wg, array_get (genomes (w_pop w)) worst = Some wg /\
             is_Some (w_heap w !! wg).
Proof.
  intros (g & (Hg & _) & _). unfold genome_at in Hg.
  destruct (array_get (genomes (w_pop w)) worst) as [wg|]; [|done].
  exists wg. split; [done|]. by exists g.
Qed.

(** C9.  In an epoch where a species is selected and the crossover draw
    is below the configured crossover probability, no genome slot is
    destroyed or replaced: the genome array and the memory of the genomes
    are unchanged; the detached worst genome is added to the first
    species whose representant it is compatible with, or to a new species
    appended to the list when there is none. *)
Theorem neat_epoch_crossover (w : world) (worst : Z) (wg : addr) (i : Z)
    (s : neat_species) :
  pop_wf w ->
  neat_find_worst_fitness w 0 = Some (true, worst) ->
  array_get (genomes (w_pop w)) worst = Some wg ->
  roulette (species_share (detach w wg)) (species (w_pop (detach w wg))) 0
    (unit_random (rand (w_rand w)).1) = Some (i, s) ->
  F32.ltb (unit_random (rand (rand (w_rand w)).2).1)
    (species_crossover_probability (conf (w_pop w))) = true ->
  exists w',
    neat_epoch w = Some w' /\
    ngenomes (w_pop w') = ngenomes (w_pop w) /\
    genomes (w_pop w') = genomes (w_pop w) /\
    w_heap w' = w_heap w /\
    species (w_pop w') = speciate w wg (species (w_pop (detach w wg))) /\
    nspecies (w_pop w') = Z.of_nat (length (species (w_pop w'))).
Proof.
  intros Hwf Hfind Hwg Hsel Hcross.
  rewrite (neat_epoch_found w worst wg Hwf Hfind Hwg).
  pose proof (detach_nspecies w wg Hwf) as Hn1.
  destruct (neat_select_reproduction_species_post worst (detach w wg) Hn1)
    as [_ ->].
  change (w_rand (detach w wg)) with (w_rand w).
  rewrite Hsel. unfold neat_reproduce.
  change (w_rand (with_rand (rand (w_rand w)).2 (detach w wg)))
    with (rand (w_rand w)).2.
  destruct (rand (rand (w_rand w)).2) as [r1 rs2]. simpl in Hcross.
  change (conf (w_pop (with_rand (rand (w_rand w)).2 (detach w wg))))
    with (conf (w_pop w)).
  rewrite Hcross.
  pose proof (neat_speciate_genome_spec worst (with_rand rs2 (detach w wg)) wg
                Hn1 Hwg) as Hspec.
  eexists. split; [exact Hspec|]. simpl. done.
Qed.

Lemma neat_replace_genome_spec (dest : Z) (src : addr) (w w' : world) :
  neat_replace_genome dest src w = Some w' ->
  exists old g,
    array_get (genomes (w_pop w)) dest = Some old /\
    is_Some (w_heap w !! old) /\
    delete old (w_heap w) !! src = Some g /\
    let a := malloc (dom (delete old (w_heap w))) in
    w' = {| w_pop := with_genomes (<[Z.to_nat dest := a]> (genomes (w_pop w)))
                       (w_pop w);
            w_heap := <[a := neat_genome_copy g]> (delete old (w_heap w));
            w_rand := w_rand w |}.
Proof.
  unfold neat_replace_genome.
  destruct (array_get (genomes (w_pop w)) dest) as [old|] eqn:Hold; [|done].
  simpl. destruct (Nat.eqb old src); [done|].
  destruct (w_heap w !! old) as [go|] eqn:Hgo; [|done]. simpl.
  destruct (delete old (w_heap w) !! src) as [g|] eqn:Hg; [|done]. simpl.
  unfold array_set.
  destruct ((0 <=? dest) && (dest <? Z.of_nat (length (genomes (w_pop w)))));
    [|done]. simpl. intros [= <-].
  exists old, g. split; [done|]. split; [by eexists|]. done.
Qed.

Lemma replace_wf (w : world) (dest : Z) (old a : addr)
    (g : neat_genome genome_body) (sp : list neat_species) (n : Z)
    (rs : rand_state) :
  pop_wf w ->
  array_get (genomes (w_pop w)) dest = Some old ->
  a ∉ dom (delete old (w_heap w)) ->
  n = Z.of_nat (length sp) ->
  let w' :=
    {| w_pop := with_species n sp
                  (with_genomes (<[Z.to_nat dest := a]> (genomes (w_pop w)))
                     (w_pop w));
       w_heap := <[a := g]> (delete old (w_heap w));
       w_rand := rs |} in
  pop_wf w' /\ one_slot_replaced w w' (Z.to_nat dest).
Proof.
  intros [Hn Hns Hlive Hnd] Hold Ha Hsp w'.
  apply array_get_Some in Hold as [Hd Hold].
  assert (Hother : forall j ga, j <> Z.to_nat dest ->
            genomes (w_pop w) !! j = Some ga -> ga <> old /\ ga <> a).
  { intros j ga Hj Hga.
    assert (ga <> old).
    { intros ->. apply Hj. by apply (NoDup_lookup _ _ _ _ Hnd Hga Hold). }
    split; [done|]. intros ->. apply Ha. apply elem_of_dom.
    rewrite lookup_delete_ne by done.
    rewrite Forall_lookup in Hlive. by apply (Hlive j). }
  split; [constructor; simpl|split; simpl].
  - by rewrite length_insert.
  - done.
  - apply Forall_lookup. intros j ga Hga.
    destruct (decide (j = Z.to_nat dest)) as [->|Hj].
    + rewrite list_lookup_insert_eq in Hga by (by apply lookup_lt_Some in Hold).
      injection Hga as <-. rewrite lookup_insert_eq. by eexists.
    + rewrite list_lookup_insert_ne in Hga by done.
      destruct (Hother j ga Hj Hga) as [? ?].
      rewrite lookup_insert_ne, lookup_delete_ne by done.
      rewrite Forall_lookup in Hlive. by apply (Hlive j).
  - apply NoDup_alt. intros i j x Hi Hj.
    destruct (decide (i = Z.to_nat dest)) as [->|Hi'];
      destruct (decide (j = Z.to_nat dest)) as [->|Hj']; try done.
    + rewrite list_lookup_insert_eq in Hi by (by apply lookup_lt_Some in Hold).
      rewrite list_lookup_insert_ne in Hj by done. injection Hi as <-.
      by destruct (Hother j a Hj' Hj).
    + rewrite list_lookup_insert_eq in Hj by (by apply lookup_lt_Some in Hold).
      rewrite list_lookup_insert_ne in Hi by done. injection Hj as <-.
      by destruct (Hother i a Hi' Hi).
    + rewrite list_lookup_insert_ne in Hi, Hj by done.
      by apply (NoDup_lookup _ _ _ _ Hnd Hi Hj).
  - intros j Hj. by rewrite list_lookup_insert_ne.
  - intros ga g0 Hga Hne.
    assert (ga <> old) by (intros ->; by apply Hne).
    assert (ga <> a).
    { intros ->. apply Ha. apply elem_of_dom.
      rewrite lookup_delete_ne by done. by eexists. }
    by rewrite lookup_insert_ne, lookup_delete_ne.
Qed.

Lemma same_genomes_wf (w w' : world) :
  pop_wf w ->
  ngenomes (w_pop w') = ngenomes (w_pop w) ->
  genomes (w_pop w') = genomes (w_pop w) ->
  nspecies (w_pop w') = Z.of_nat (length (species (w_pop w'))) ->
  (forall ga, is_Some (w_heap w !! ga) -> is_Some (w_heap w' !! ga)) ->
  pop_wf w'.
Proof.
  intros [Hn Hns Hlive Hnd] Hn' Hg' Hs' Hh. constructor.
  - by rewrite Hn', Hg'.
  - done.
  - rewrite Hg'. eapply Forall_impl; [exact Hlive|]. done.
  - by rewrite Hg'.
Qed.

Lemma neat_epoch_slots (w w' : world) :
  malloc_fresh -> pop_wf w -> neat_epoch w = Some w' ->
  pop_wf w' /\
  ngenomes (w_pop w') = ngenomes (w_pop w) /\
  length (genomes (w_pop w')) = length (genomes (w_pop w)) /\
  exists i, one_slot_replaced w w' i.
Proof.
  intros Hfresh Hwf Hepoch.
  destruct (neat_find_worst_fitness_post w Hwf)
    as (found & worst & Hfind & Hmin & Hnone).
  destruct found.
  - destruct (first_minimum_slot w worst (Hmin eq_refl)) as (wg & Hwg & Hlive).
    rewrite (neat_epoch_found w worst wg Hwf Hfind Hwg) in Hepoch.
    unfold detach in Hepoch.
    set (sp1 := map (fun s => neat_species_remove_genome s wg)
                  (species (w_pop w))) in *.
    set (w1 := with_pop (with_species (nspecies (w_pop w)) sp1 (w_pop w)) w) in *.
    assert (Hn1 : nspecies (w_pop w1) = Z.of_nat (length (species (w_pop w1)))).
    { simpl. unfold sp1. rewrite length_map. apply (wf_nspecies w Hwf). }
    destruct (neat_select_reproduction_species_post worst w1 Hn1) as [_ Hsel].
    rewrite Hsel in Hepoch. clear Hsel.
    assert (Hsame : forall w2 : world,
              ngenomes (w_pop w2) = ngenomes (w_pop w) ->
              genomes (w_pop w2) = genomes (w_pop w) ->
              nspecies (w_pop w2) = Z.of_nat (length (species (w_pop w2))) ->
              w_heap w2 = w_heap w ->
              pop_wf w2 /\
              ngenomes (w_pop w2) = ngenomes (w_pop w) /\
              length (genomes (w_pop w2)) = length (genomes (w_pop w)) /\
              exists i, one_slot_replaced w w2 i).
    { intros w2 Hn2 Hg2 Hs2 Hh2.
      split; [apply (same_genomes_wf w w2); try done; by rewrite Hh2|].
      split; [done|]. split; [by rewrite Hg2|].
      exists 0%nat. split; [by rewrite Hg2|]. intros ga g Hga _. by rewrite Hh2. }
    destruct (roulette _ _ _ _) as [[i s]|].
    + unfold neat_reproduce in Hepoch.
      change (w_rand (with_rand (rand (w_rand w1)).2 w1))
        with (rand (w_rand w1)).2 in Hepoch.
      destruct (rand (rand (w_rand w1)).2) as [r1 rs2].
      destruct (F32.ltb _ _).
      * pose proof (neat_speciate_genome_spec worst (with_rand rs2 w1) wg
                      Hn1 Hwg) as Hspec.
        simpl in Hepoch. unfold with_rand in Hspec. simpl in Hspec.
        rewrite Hspec in Hepoch. injection Hepoch as <-. by apply Hsame.
      * destruct (neat_species_select_genitor _ s rs2) as [g rs3].
        simpl in Hepoch.
        destruct (neat_replace_genome worst g _) as [w2|] eqn:Hrep; [|done].
        simpl in Hepoch.
        destruct (neat_replace_genome_spec _ _ _ _ Hrep)
          as (old & g0 & Hold & Hlo & Hg0 & Hw2).
        simpl in Hold, Hlo, Hg0, Hw2. rewrite Hwg in Hold. injection Hold as <-.
        set (a := malloc (dom (delete wg (w_heap w)))) in *.
        assert (Hin : 0 <= worst /\
                      (Z.to_nat worst < length (genomes (w_pop w)))%nat).
        { apply array_get_Some in Hwg as [? Hwg]. split; [done|].
          by apply lookup_lt_Some in Hwg. }
        assert (Hwa : array_get (genomes (w_pop w2)) worst = Some a).
        { subst w2. simpl. apply array_get_Some. split; [lia|].
          apply list_lookup_insert_eq. lia. }
        assert (Hn2 : nspecies (w_pop w2)
                      = Z.of_nat (length (species (w_pop w2)))).
        { subst w2. simpl. exact Hn1. }
        rewrite (neat_speciate_genome_spec worst w2 a Hn2 Hwa) in Hepoch.
        injection Hepoch as <-. subst w2. simpl.
        destruct (replace_wf w worst wg a (neat_genome_copy g0)
                    (speciate
                       {| w_pop :=
                            with_genomes
                              (<[Z.to_nat worst:=a]> (genomes (w_pop w)))
                              (w_pop w1);
                          w_heap :=
                            <[a:=neat_genome_copy g0]> (delete wg (w_heap w));
                          w_rand := rs3 |} a sp1)
                    _ rs3 Hwf Hwg (Hfresh _) eq_refl) as [Hwf' Hslots].
        split; [exact Hwf'|]. split; [done|].
        split; [by rewrite length_insert|]. by exists (Z.to_nat worst).
    + injection Hepoch as <-. apply Hsame; done.
  - destruct (Hnone eq_refl) as [_ Hw]. rewrite Hw in Hepoch.
    injection Hepoch as <-. split; [done|]. split; [done|]. split; [done|].
    exists 0%nat. split; [done|]. by intros ga g Hga _.
Qed.

Lemma neat_create_wf (config : neat_config)
    (h : gmap addr (neat_genome genome_body)) (rs : rand_state) (w : world) :
  malloc_fresh -> neat_create config h rs = Some w ->
  pop_wf w /\ ngenomes (w_pop w) = population_size config.
Proof.
  intros Hfresh Hc.
  assert (Hpre : 0 < population_size config /\
                 sizeof_pointer * population_size config <= SIZE_MAX).
  { unfold neat_create in Hc.
    destruct (Z.ltb_spec 0 (population_size config)); [|done].
    destruct (Z.ltb_spec SIZE_MAX (sizeof_pointer * population_size config));
      [done|]. lia. }
  destruct Hpre as [HN Hsz].
  destruct (neat_create_post config h rs HN Hsz Hfresh)
    as (w0 & a0 & g0 & rs' & Hc0 & _ & Hn & Hlen & Hnd & Hnew & Ha0 & Hg0 &
        Hcopy & Hns & Hsp).
  rewrite Hc in Hc0. injection Hc0 as <-. split; [|done].
  constructor; [lia|by rewrite Hns, Hsp|  |done].
  apply Forall_lookup. intros i ga Hga. destruct i as [|i].
  - rewrite Ha0 in Hga. injection Hga as <-. by eexists.
  - rewrite (Hcopy (S i) ga); [by eexists|lia|done].
Qed.

Lemma heap_update_wf (w : world) (ga : addr) (g : neat_genome genome_body) :
  pop_wf w -> is_Some (w_heap w !! ga) ->
  pop_wf {| w_pop := w_pop w; w_heap := <[ga := g]> (w_heap w);
            w_rand := w_rand w |}.
Proof.
  intros Hwf Hga. apply (same_genomes_wf w); try done.
  - apply (wf_nspecies w Hwf).
  - intros x Hx. simpl. destruct (decide (ga = x)) as [->|Hne].
    + rewrite lookup_insert_eq. by eexists.
    + by rewrite lookup_insert_ne.
Qed.

Lemma neat_do_slots (c : neat_call) (w w' : world) :
  malloc_fresh -> pop_wf w -> neat_do c w = Some w' ->
  pop_wf w' /\
  ngenomes (w_pop w') = ngenomes (w_pop w) /\
  length (genomes (w_pop w')) = length (genomes (w_pop w)).
Proof.
  intros Hfresh Hwf. destruct c as [id inputs|id f|id|]; simpl.
  - unfold neat_run. destruct (negb _); [done|].
    destruct (array_get _ id) as [ga|]; [|done]. simpl.
    destruct (w_heap w !! ga) as [g|] eqn:Hg; [|done]. simpl.
    destruct (neat_genome_run g inputs) as [[outs g']|]; [|done]. simpl.
    intros [= <-]. split; [|done]. apply heap_update_wf; [done|by eexists].
  - unfold neat_set_fitness. destruct (negb _); [done|].
    destruct (array_get _ id) as [ga|]; [|done]. simpl.
    destruct (w_heap w !! ga) as [g|] eqn:Hg; [|done]. simpl.
    intros [= <-]. split; [|done]. apply heap_update_wf; [done|by eexists].
  - unfold neat_increase_time_alive. destruct (negb _); [done|].
    destruct (array_get _ id) as [ga|]; [|done]. simpl.
    destruct (w_heap w !! ga) as [g|] eqn:Hg; [|done]. simpl.
    intros [= <-]. split; [|done]. apply heap_update_wf; [done|by eexists].
  - intros Hepoch.
    destruct (neat_epoch_slots w w' Hfresh Hwf Hepoch) as (? & ? & ? & _).
    done.
Qed.

Lemma neat_do_all_slots (cs : list neat_call) : forall (w w' : world),
  malloc_fresh -> pop_wf w -> neat_do_all cs w = Some w' ->
  pop_wf w' /\
  ngenomes (w_pop w') = ngenomes (w_pop w) /\
  length (genomes (w_pop w')) = length (genomes (w_pop w)).
Proof.
  induction cs as [|c cs IH]; intros w w' Hfresh Hwf; simpl.
  - by intros [= <-].
  - destruct (neat_do c w) as [w1|] eqn:Hc; [|done]. simpl. intros Hrest.
    destruct (neat_do_slots c w w1 Hfresh Hwf Hc) as (Hwf1 & Hn1 & Hl1).
    destruct (IH w1 w' Hfresh Hwf1 Hrest) as (Hwf' & Hn' & Hl').
    split; [done|]. split; congruence.
Qed.

(** C1 (amended).  The worst-genome selection of [neat_epoch] considers
    the genomes that are older than the configured minimum of ticks alive
    and whose fitness is below [FLT_MAX]; among those it picks one of
    minimum fitness, the first in the order of the genome array when
    several share it, and [neat_epoch] goes on to detach that genome and
    to select a species; when no genome qualifies, [neat_epoch] returns
    the population unchanged. *)
Theorem neat_find_worst_fitness_spec (w : world) :
  pop_wf w ->
  (exists worst wg,
     neat_find_worst_fitness w 0 = Some (true, worst) /\
     first_minimum w worst /\
     array_get (genomes (w_pop w)) worst = Some wg /\
     neat_epoch w = neat_select_reproduction_species worst (detach w wg)) \/
  (exists worst,
     neat_find_worst_fitness w 0 = Some (false, worst) /\
     (forall i g, ~ candidate w i g) /\
     neat_epoch w = Some w).
Proof.
  intros Hwf.
  destruct (neat_find_worst_fitness_post w Hwf)
    as (found & worst & Hfind & Hmin & Hnone).
  destruct found.
  - left. specialize (Hmin eq_refl).
    destruct (first_minimum_slot w worst Hmin) as (wg & Hwg & _).
    exists worst, wg. split; [done|]. split; [done|]. split; [done|].
    by apply neat_epoch_found.
  - right. destruct (Hnone eq_refl) as [Hno Hepoch]. by exists worst.
Qed.

(** C3 (amended).  For a positive population size [N] whose pointer array
    fits [size_t], [neat_create] yields [N] genome slots that hold [N]
    distinct new genomes: slot 0 holds a base genome created with
    innovation 1 and every other slot holds a copy of it; it creates one
    species, whose only member and representant is the base genome: the
    genomes of the other slots are not members. *)
Theorem neat_create_spec (config : neat_config)
    (h : gmap addr (neat_genome genome_body)) (rs : rand_state) :
  0 < population_size config ->
  sizeof_pointer * population_size config <= SIZE_MAX ->
  malloc_fresh ->
  exists w a0 g0 rs' s,
    neat_create config h rs = Some w /\
    neat_genome_create config 1 rs = (g0, rs') /\
    ngenomes (w_pop w) = population_size config /\
    Z.of_nat (length (genomes (w_pop w))) = population_size config /\
    NoDup (genomes (w_pop w)) /\
    Forall (fun ga => h !! ga = None) (genomes (w_pop w)) /\
    genomes (w_pop w) !! 0%nat = Some a0 /\
    w_heap w !! a0 = Some g0 /\
    (forall (i : nat) ga, (1 <= i)%nat -> genomes (w_pop w) !! i = Some ga ->
       w_heap w !! ga = Some (neat_genome_copy g0)) /\
    nspecies (w_pop w) = 1 /\
    species (w_pop w) = [s] /\
    s_genomes s = [a0] /\
    s_representant s = Some a0 /\
    (forall (i : nat) ga, (1 <= i)%nat -> genomes (w_pop w) !! i = Some ga ->
       ga ∉ s_genomes s).
Proof.
  intros HN Hsz Hfresh.
  destruct (neat_create_post config h rs HN Hsz Hfresh)
    as (w & a0 & g0 & rs' & Hc & Hg & Hn & Hlen & Hnd & Hnew & Ha0 & Hg0 &
        Hcopy & Hns & Hsp).
  exists w, a0, g0, rs',
    {| s_ngenomes := 1; s_genomes := [a0]; s_representant := Some a0 |}.
  split; [exact Hc|]. split; [exact Hg|]. split; [exact Hn|].
  split; [exact Hlen|]. split; [exact Hnd|]. split; [exact Hnew|].
  split; [exact Ha0|]. split; [exact Hg0|]. split; [exact Hcopy|].
  split; [exact Hns|]. split; [exact Hsp|]. split; [reflexivity|].
  split; [reflexivity|].
  intros i ga Hi Hga Hin. simpl in Hin.
  apply list_elem_of_singleton in Hin. subst ga.
  pose proof (NoDup_lookup _ _ _ _ Hnd Hga Ha0). lia.
Qed.

(** C8.  The number of genome slots is constant: after any sequence of
    calls of [neat_run], [neat_set_fitness], [neat_increase_time_alive]
    and [neat_epoch] on a created population, the genome count and the
    length of the genome array are the configured population size, and
    one more [neat_epoch] changes the contents of at most one slot. *)
Theorem genome_count_constant (config : neat_config)
    (h : gmap addr (neat_genome genome_body)) (rs : rand_state) (w : world) :
  malloc_fresh ->
  neat_create config h rs = Some w ->
  forall (cs : list neat_call) (w' : world),
    neat_do_all cs w = Some w' ->
    ngenomes (w_pop w') = population_size config /\
    Z.of_nat (length (genomes (w_pop w'))) = population_size config /\
    forall w'', neat_epoch w' = Some w'' ->
      ngenomes (w_pop w'') = population_size config /\
      exists i, one_slot_replaced w' w'' i.
Proof.
  intros Hfresh Hc cs w' Hcs.
  destruct (neat_create_wf config h rs w Hfresh Hc) as [Hwf Hn].
  destruct (neat_do_all_slots cs w w' Hfresh Hwf Hcs) as (Hwf' & Hn' & Hl').
  split; [congruence|]. split; [rewrite <- (wf_ngenomes w' Hwf'); congruence|].
  intros w'' Hepoch.
  destruct (neat_epoch_slots w' w'' Hfresh Hwf' Hepoch) as (_ & Hn'' & _ & Hi).
  split; [congruence|done].
Qed.
End NeatProofs.

Section SelectProofs.
Context `{Collaborators}.

(** A species whose share is not a number is selected whatever the
    random value is. *)
Lemma roulette_nan_share (share : neat_species -> float) (s : neat_species)
    (l : list neat_species) (i : Z) (r : float) :
  s_ngenomes s <> 0 -> share s = S754_nan ->
  roulette share (s :: l) i r = Some (i, s) /\ F32.leb r (share s) = false.
Proof.
  intros Hn Hs. simpl. destruct (Z.eqb_spec (s_ngenomes s) 0); [done|].
  rewrite Hs. split; [done|]. by destruct r.
Qed.

(** C2 (amended).  The species selection draws one random value [r] with
    [0 <= r <= 1], computes the mean of the average fitness of all
    species, and walks the species in creation order: an empty species is
    skipped, a species whose share (its average fitness over the mean) is
    below [r] is passed and its share is subtracted from [r], and the
    first other species is selected; when no species is selected, the
    genomes and their memory are left as they were. *)
Theorem neat_select_reproduction_species_spec (worst : Z) (w : world) :
  nspecies (w_pop w) = Z.of_nat (length (species (w_pop w))) ->
  rand_max_pow2 -> rand_in_range ->
  let r := unit_random (rand (w_rand w)).1 in
  let w0 := with_rand (rand (w_rand w)).2 w in
  in_closed_range (F32.of_Z 0) f_one r /\
  neat_get_species_fitness_average w = Some (species_mean w) /\
  neat_select_reproduction_species worst w =
    match roulette (species_share w) (species (w_pop w)) 0 r with
    | Some (_, s) => neat_reproduce s worst w0
    | None => Some w0
    end /\
  (roulette (species_share w) (species (w_pop w)) 0 r = None ->
   exists w', neat_select_reproduction_species worst w = Some w' /\
              w_pop w' = w_pop w /\ w_heap w' = w_heap w).
Proof.
  intros Hn Hmax Hrange r w0.
  destruct (neat_select_reproduction_species_post worst w Hn) as [Havg Hsel].
  fold r w0 in Hsel.
  split; [apply unit_random_range; [done|apply Hrange]|].
  split; [done|]. split; [done|].
  intros Hnone. rewrite Hsel, Hnone. by exists w0.
Qed.
End SelectProofs.

(** ** Loops, with the index in the invariant *)

Lemma c_for_pres_at {St : Type} (P : Z -> St -> Prop)
    (body : Z -> St -> option St) :
  forall (n : nat) (i : Z) (s s' : St),
    (forall j t t', i <= j < i + Z.of_nat n -> P j t -> body j t = Some t' ->
       P (j + 1) t') ->
    P i s -> c_for n i body s = Some s' -> P (i + Z.of_nat n) s'.
Proof.
  induction n as [|n IH]; intros i s s' Hbody Hs; simpl.
  - intros [= <-]. by replace (i + Z.of_nat 0) with i by lia.
  - destruct (body i s) as [t|] eqn:Ht; [|done]. intros Hrun.
    replace (i + Z.of_nat (S n)) with (i + 1 + Z.of_nat n) by lia.
    apply (IH (i + 1) t s'); [|apply (Hbody i s t); [lia|done|done]|done].
    intros j u u' Hj. apply Hbody. lia.
Qed.

Section NeatLife.
Context `{Collaborators}.

(** *** What one epoch does *)

(** The four ways an epoch ends: nothing is old enough; no species is
    selected; the crossover draw succeeds; a copy of a genitor replaces
    the worst genome. *)
Lemma neat_epoch_cases (w w' : world) :
  pop_wf w -> neat_epoch w = Some w' ->
  w' = w \/
  exists worst wg,
    neat_find_worst_fitness w 0 = Some (true, worst) /\
    array_get (genomes (w_pop w)) worst = Some wg /\
    is_Some (w_heap w !! wg) /\
    let w1 := detach w wg in
    let rs1 := (rand (w_rand w)).2 in
    let rs2 := (rand rs1).2 in
    let selected :=
      roulette (species_share w1) (species (w_pop w1)) 0
        (unit_random (rand (w_rand w)).1) in
    let crossover :=
      F32.ltb (unit_random (rand rs1).1)
        (species_crossover_probability (conf (w_pop w))) in
    (selected = None /\ w' = with_rand rs1 w1) \/
    (exists i s, selected = Some (i, s) /\ crossover = true /\
       let sp := speciate w wg (species (w_pop w1)) in
       w' = with_pop (with_species (Z.of_nat (length sp)) sp (w_pop w1))
              (with_rand rs2 w1)) \/
    (exists i s src rs3 g, selected = Some (i, s) /\ crossover = false /\
       neat_species_select_genitor (w_heap w) s rs2 = (src, rs3) /\
       src <> wg /\ w_heap w !! src = Some g /\
       let a := malloc (dom (delete wg (w_heap w))) in
       let w2 :=
         {| w_pop := with_genomes (<[Z.to_nat worst := a]> (genomes (w_pop w)))
                       (w_pop w1);
            w_heap := <[a := neat_genome_copy g]> (delete wg (w_heap w));
            w_rand := rs3 |} in
       let sp := speciate w2 a (species (w_pop w1)) in
       w' = with_pop (with_species (Z.of_nat (length sp)) sp (w_pop w2)) w2).
Proof.
  intros Hwf Hepoch.
  destruct (neat_find_worst_fitness_post w Hwf)
    as (found & worst & Hfind & Hmin & Hnone).
  destruct found; cycle 1.
  { left. destruct (Hnone eq_refl) as [_ Hw]. congruence. }
  right. destruct (first_minimum_slot w worst (Hmin eq_refl))
    as (wg & Hwg & Hlive).
  exists worst, wg. split; [done|]. split; [done|]. split; [done|].
  intros w1 rs1 rs2 selected crossover.
  rewrite (neat_epoch_found w worst wg Hwf Hfind Hwg) in Hepoch. fold w1 in Hepoch.
  pose proof (detach_nspecies w wg Hwf) as Hn1. fold w1 in Hn1.
  destruct (neat_select_reproduction_species_post worst w1 Hn1) as [_ Hsel].
  rewrite Hsel in Hepoch. clear Hsel.
  change (w_rand w1) with (w_rand w) in Hepoch. fold selected in Hepoch.
  destruct selected as [[i s]|]; cycle 1.
  { left. split; [done|]. by injection Hepoch as <-. }
  right. unfold neat_reproduce in Hepoch.
  change (w_rand (with_rand (rand (w_rand w)).2 w1)) with rs1 in Hepoch.
  change (conf (w_pop (with_rand (rand (w_rand w)).2 w1)))
    with (conf (w_pop w)) in Hepoch.
  unfold crossover, rs2.
  destruct (rand rs1) as [r1 rs2'] eqn:Hr1. simpl.
  simpl in Hepoch.
  destruct (F32.ltb (unit_random r1) _).
  - left. exists i, s. split; [done|]. split; [done|].
    pose proof (neat_speciate_genome_spec worst (with_rand rs2' w1) wg Hn1 Hwg)
      as Hspec.
    simpl in Hepoch. unfold with_rand in Hspec. simpl in Hspec.
    rewrite Hspec in Hepoch. by injection Hepoch as <-.
  - right.
    destruct (neat_species_select_genitor _ s rs2') as [src rs3] eqn:Hgen.
    simpl in Hepoch.
    destruct (neat_replace_genome worst src _) as [w2|] eqn:Hrep; [|done].
    simpl in Hepoch.
    destruct (neat_replace_genome_spec _ _ _ _ Hrep)
      as (old & g & Hold & Hlo & Hg & Hw2).
    simpl in Hold, Hlo, Hg, Hw2. rewrite Hwg in Hold. injection Hold as <-.
    apply lookup_delete_Some in Hg as [Hne Hg].
    exists i, s, src, rs3, g. split; [done|]. split; [done|].
    split; [done|]. split; [done|]. split; [done|].
    set (a := malloc (dom (delete wg (w_heap w)))) in *.
    assert (Hin : 0 <= worst /\
                  (Z.to_nat worst < length (genomes (w_pop w)))%nat).
    { apply array_get_Some in Hwg as [? Hwg']. split; [done|].
      by apply lookup_lt_Some in Hwg'. }
    assert (Hwa : array_get (genomes (w_pop w2)) worst = Some a).
    { subst w2. simpl. apply array_get_Some. split; [lia|].
      apply list_lookup_insert_eq. lia. }
    assert (Hn2 : nspecies (w_pop w2) = Z.of_nat (length (species (w_pop w2)))).
    { subst w2. simpl. exact Hn1. }
    rewrite (neat_speciate_genome_spec worst w2 a Hn2 Hwa) in Hepoch.
    injection Hepoch as <-. subst w2. done.
Qed.

(** *** The memory the population owns *)

Lemma neat_create_frame (config : neat_config)
    (h : gmap addr (neat_genome genome_body)) (rs : rand_state) (w : world) :
  neat_create config h rs = Some w ->
  forall x, x ∉ genomes (w_pop w) -> w_heap w !! x = h !! x.
Proof.
  unfold neat_create.
  destruct (Z.ltb_spec 0 (population_size config)) as [HN|]; [|done]. simpl.
  destruct (SIZE_MAX <? _); [done|].
  unfold neat_reset_genomes. simpl.
  destruct (neat_genome_create config 1 rs) as [g0 rs'].
  set (a0 := malloc (dom h)).
  destruct (array_set _ 0 a0) as [gs0|] eqn:Hgs0; [|done]. simpl.
  destruct (c_for _ 1 _ _) as [[gs hh]|] eqn:Hrun; [|done]. simpl.
  destruct (array_get gs 0) as [base|]; [|done]. simpl.
  intros [= <-] x Hx. simpl in *.
  apply (c_for_pres_at
    (fun i (st : list addr * gmap addr (neat_genome genome_body)) =>
       Z.of_nat (length st.1) = population_size config /\
       forall x, x ∉ take (Z.to_nat i) st.1 -> st.2 !! x = h !! x)) in Hrun.
  - simpl in Hrun. destruct Hrun as [Hlen Hall]. apply Hall.
    by rewrite take_ge by lia.
  - intros j [gs1 h1] [gs2 h2] Hj [Hlen Hall]. simpl in *.
    destruct (array_get gs1 0) as [b|]; [|done]. simpl.
    destruct (h1 !! b) as [g|]; [|done]. simpl.
    unfold array_set.
    destruct (Z.leb_spec 0 j); [|done].
    destruct (Z.ltb_spec j (Z.of_nat (length gs1))); [|done]. simpl.
    intros [= <- <-]. rewrite length_insert. split; [done|].
    intros y Hy.
    replace (Z.to_nat (j + 1)) with (S (Z.to_nat j)) in Hy by lia.
    rewrite (take_S_r _ _ (malloc (dom h1))) in Hy
      by (apply list_lookup_insert_eq; lia).
    rewrite take_insert_ge in Hy by lia.
    apply not_elem_of_app in Hy as [Hy1 Hy2].
    apply not_elem_of_cons in Hy2 as [Hy2 _].
    rewrite lookup_insert_ne by done. by apply Hall.
  - simpl. unfold array_set in Hgs0.
    destruct (_ && _) eqn:Hc; [|done]. injection Hgs0 as <-.
    apply andb_prop in Hc as [_ Hc]. apply Z.ltb_lt in Hc.
    rewrite length_replicate in Hc.
    rewrite length_insert, length_replicate. split; [lia|].
    intros y Hy. change (Z.to_nat 1) with 1%nat in Hy.
    change (Z.to_nat 0) with 0%nat in Hy.
    rewrite (take_S_r _ 0 a0) in Hy
      by (apply list_lookup_insert_eq; rewrite length_replicate; lia).
    simpl in Hy. apply not_elem_of_cons in Hy as [Hy _].
    by rewrite lookup_insert_ne.
Qed.

Lemma neat_create_owned (config : neat_config)
    (h : gmap addr (neat_genome genome_body)) (rs : rand_state) (w : world) :
  malloc_fresh -> neat_create config h rs = Some w -> owned h w.
Proof.
  intros Hfresh Hc. split; [|by apply (neat_create_frame config h rs)].
  assert (Hpre : 0 < population_size config /\
                 sizeof_pointer * population_size config <= SIZE_MAX).
  { unfold neat_create in Hc.
    destruct (Z.ltb_spec 0 (population_size config)); [|done].
    destruct (Z.ltb_spec SIZE_MAX (sizeof_pointer * population_size config));
      [done|]. lia. }
  destruct Hpre as [HN Hsz].
  destruct (neat_create_post config h rs HN Hsz Hfresh)
    as (w0 & a0 & g0 & rs' & Hc0 & _ & _ & _ & _ & Hnew & _).
  congruence.
Qed.

Lemma owned_update (h : gmap addr (neat_genome genome_body)) (w : world)
    (ga : addr) (g : neat_genome genome_body) :
  owned h w -> ga ∈ genomes (w_pop w) ->
  owned h {| w_pop := w_pop w; w_heap := <[ga := g]> (w_heap w);
             w_rand := w_rand w |}.
Proof.
  intros [Hnew Hout] Hga. split; [done|]. simpl. intros x Hx.
  rewrite lookup_insert_ne by (intros ->; done). by apply Hout.
Qed.

Lemma array_get_elem_of {A : Type} (l : list A) (i : Z) (x : A) :
  array_get l i = Some x -> x ∈ l.
Proof.
  intros [_ Hx]%array_get_Some. by apply list_elem_of_lookup_2 in Hx.
Qed.

Lemma owned_epoch (h : gmap addr (neat_genome genome_body)) (w w' : world) :
  malloc_fresh -> pop_wf w -> owned h w -> neat_epoch w = Some w' ->
  owned h w'.
Proof.
  intros Hfresh Hwf Hown Hepoch.
  destruct (neat_epoch_cases w w' Hwf Hepoch)
    as [->|(worst & wg & _ & Hwg & Hlive & Hcases)]; [done|].
  destruct Hcases as [[_ ->]|[(i & s & _ & _ & ->)|Hrep]]; [done|done|].
  destruct Hrep as (i & s & src & rs3 & g & _ & _ & _ & Hne & Hg & ->).
  destruct Hown as [Hnew Hout].
  set (a := malloc (dom (delete wg (w_heap w)))).
  assert (Ha : delete wg (w_heap w) !! a = None)
    by (apply not_elem_of_dom, Hfresh).
  pose proof (array_get_elem_of _ _ _ Hwg) as Hwgin.
  apply array_get_Some in Hwg as [Hw0 Hwg].
  pose proof (lookup_lt_Some _ _ _ Hwg) as Hlt.
  rewrite Forall_forall in Hnew.
  assert (Hha : h !! a = None).
  { destruct (decide (a = wg)) as [->|Hawg]; [by apply Hnew|].
    rewrite lookup_delete_ne in Ha by done.
    destruct (decide (a ∈ genomes (w_pop w))) as [Hin|Hnin]; [by apply Hnew|].
    by rewrite <- (Hout a Hnin). }
  split; simpl.
  - apply Forall_forall. intros x Hx.
    apply list_elem_of_lookup in Hx as [k Hk].
    destruct (decide (k = Z.to_nat worst)) as [->|Hk'].
    + rewrite list_lookup_insert_eq in Hk by done. by injection Hk as <-.
    + rewrite list_lookup_insert_ne in Hk by done.
      apply Hnew. by apply list_elem_of_lookup_2 in Hk.
  - intros x Hx.
    assert (Hxa : x <> a).
    { intros ->. apply Hx. apply list_elem_of_lookup. exists (Z.to_nat worst).
      by apply list_lookup_insert_eq. }
    rewrite lookup_insert_ne by done.
    destruct (decide (x = wg)) as [->|Hxw].
    + rewrite lookup_delete_eq. symmetry. by apply Hnew.
    + rewrite lookup_delete_ne by done. apply Hout. intros Hin.
      apply list_elem_of_lookup in Hin as [k Hk].
      destruct (decide (k = Z.to_nat worst)) as [->|Hk']; [congruence|].
      apply Hx. apply list_elem_of_lookup. exists k.
      by rewrite list_lookup_insert_ne.
Qed.

Lemma owned_do (h : gmap addr (neat_genome genome_body)) (c : neat_call)
    (w w' : world) :
  malloc_fresh -> pop_wf w -> owned h w -> neat_do c w = Some w' ->
  owned h w'.
Proof.
  intros Hfresh Hwf Hown. destruct c as [id inputs|id f|id|]; simpl.
  - unfold neat_run. destruct (negb _); [done|].
    destruct (array_get _ id) as [ga|] eqn:Hga; [|done]. simpl.
    destruct (w_heap w !! ga) as [g|]; [|done]. simpl.
    destruct (neat_genome_run g inputs) as [[outs g']|]; [|done]. simpl.
    intros [= <-]. apply owned_update; [done|].
    by apply array_get_elem_of in Hga.
  - unfold neat_set_fitness. destruct (negb _); [done|].
    destruct (array_get _ id) as [ga|] eqn:Hga; [|done]. simpl.
    destruct (w_heap w !! ga) as [g|]; [|done]. simpl.
    intros [= <-]. apply owned_update; [done|].
    by apply array_get_elem_of in Hga.
  - unfold neat_increase_time_alive. destruct (negb _); [done|].
    destruct (array_get _ id) as [ga|] eqn:Hga; [|done]. simpl.
    destruct (w_heap w !! ga) as [g|]; [|done]. simpl.
    intros [= <-]. apply owned_update; [done|].
    by apply array_get_elem_of in Hga.
  - by apply owned_epoch.
Qed.

Lemma owned_do_all (h : gmap addr (neat_genome genome_body))
    (cs : list neat_call) : forall (w w' : world),
  malloc_fresh -> pop_wf w -> owned h w -> neat_do_all cs w = Some w' ->
  pop_wf w' /\ owned h w'.
Proof.
  induction cs as [|c cs IH]; intros w w' Hfresh Hwf Hown; simpl.
  - by intros [= <-].
  - destruct (neat_do c w) as [w1|] eqn:Hc; [|done]. simpl. intros Hrest.
    destruct (neat_do_slots c w w1 Hfresh Hwf Hc) as (Hwf1 & _).
    apply (IH w1 w' Hfresh Hwf1); [|done]. by apply (owned_do h c w).
Qed.

(** [neat_destroy] releases every genome of the slots, each once. *)
Lemma neat_destroy_spec (h : gmap addr (neat_genome genome_body)) (w : world) :
  pop_wf w -> owned h w -> neat_destroy w = Some h.
Proof.
  intros [Hn Hns Hlive Hnd] [Hnew Hout]. unfold neat_destroy.
  match goal with
  | |- context [c_for ?cnt ?i0 ?body (w_heap w)] =>
    destruct (c_for_inv
      (fun i (hp : gmap addr (neat_genome genome_body)) =>
         forall x,
           hp !! x =
           if decide (x ∈ take (Z.to_nat i) (genomes (w_pop w))) then None
           else w_heap w !! x)
      body cnt i0 (w_heap w)) as (hp & -> & Hhp)
  end.
  - intros x. change (Z.to_nat 0) with 0%nat. rewrite take_0.
    destruct (decide _) as [Hin|]; [by apply not_elem_of_nil in Hin|done].
  - intros j hp Hj Hhp. rewrite Hn, Nat2Z.id in Hj.
    destruct (lookup_lt_is_Some_2 (genomes (w_pop w)) (Z.to_nat j))
      as [ga Hga]; [lia|].
    assert (Hget : array_get (genomes (w_pop w)) j = Some ga)
      by (apply array_get_Some; split; [lia|done]).
    rewrite Hget. simpl.
    assert (Hnin : ga ∉ take (Z.to_nat j) (genomes (w_pop w))).
    { intros Hin. apply list_elem_of_lookup in Hin as [k Hk].
      pose proof (lookup_lt_Some _ _ _ Hk) as Hklt.
      rewrite length_take in Hklt.
      rewrite lookup_take_lt in Hk by lia.
      pose proof (NoDup_lookup _ _ _ _ Hnd Hk Hga). lia. }
    rewrite Forall_forall in Hlive.
    destruct (Hlive ga (list_elem_of_lookup_2 _ _ _ Hga)) as [g Hg].
    unfold neat_genome_destroy. rewrite Hhp, decide_False, Hg by done. simpl.
    eexists. split; [done|]. intros x.
    replace (Z.to_nat (j + 1)) with (S (Z.to_nat j)) by lia.
    rewrite (take_S_r _ _ ga Hga).
    destruct (decide (x = ga)) as [->|Hne].
    + rewrite lookup_delete_eq, decide_True; [done|].
      apply elem_of_app. right. by apply list_elem_of_singleton.
    + rewrite lookup_delete_ne, Hhp by done.
      destruct (decide (x ∈ take (Z.to_nat j) (genomes (w_pop w))))
        as [Hin|Hnotin].
      * rewrite decide_True; [done|]. apply elem_of_app. by left.
      * rewrite decide_False; [done|]. intros [?|Hx]%elem_of_app; [done|].
        by apply list_elem_of_singleton in Hx.
  - simpl.
    match goal with
    | |- context [c_for ?cnt ?i0 ?body ()] =>
      destruct (c_for_inv (fun _ (_ : unit) => True) body cnt i0 ())
        as ([] & -> & _); [done| |]
    end.
    + intros j [] Hj _. rewrite Hns, Nat2Z.id in Hj.
      destruct (array_get_lt (species (w_pop w)) j) as [s ->]; [lia|].
      simpl. by eexists.
    + simpl. f_equal. apply map_eq. intros x. rewrite Hhp.
      rewrite Hn, Z.add_0_l, !Nat2Z.id, firstn_all.
      rewrite Forall_forall in Hnew.
      destruct (decide (x ∈ genomes (w_pop w))) as [Hin|Hnin].
      * symmetry. by apply Hnew.
      * by apply Hout.
Qed.

(** X12.  No genome leaks.  Whatever calls of [neat_run],
    [neat_set_fitness], [neat_increase_time_alive] and [neat_epoch] have
    followed [neat_create], [neat_destroy] releases every genome once and
    leaves the memory of the genomes as it was before [neat_create];
    until then that memory differs from it at the addresses in the slots
    only. *)
Theorem neat_destroy_restores (config : neat_config)
    (h : gmap addr (neat_genome genome_body)) (rs : rand_state)
    (cs : list neat_call) (w w' : world) :
  malloc_fresh ->
  neat_create config h rs = Some w ->
  neat_do_all cs w = Some w' ->
  neat_destroy w' = Some h /\
  (forall x, x ∉ genomes (w_pop w') -> w_heap w' !! x = h !! x).
Proof.
  intros Hfresh Hc Hcs.
  destruct (neat_create_wf config h rs w Hfresh Hc) as [Hwf _].
  pose proof (neat_create_owned config h rs w Hfresh Hc) as Hown.
  destruct (owned_do_all h cs w w' Hfresh Hwf Hown Hcs) as [Hwf' Hown'].
  split; [by apply neat_destroy_spec|]. by destruct Hown'.
Qed.

(** *** The species *)

Lemma add_to_first_Forall (P : neat_species -> Prop)
    (compatible : neat_species -> bool) (g : addr) :
  (forall s, P s -> P (neat_species_add_genome s g)) ->
  forall l l', Forall P l -> add_to_first compatible g l = Some l' ->
    Forall P l'.
Proof.
  intros Hadd. induction l as [|s l IH]; intros l' Hl; simpl; [done|].
  apply Forall_cons in Hl as [Hs Hl].
  destruct (compatible s).
  - intros [= <-]. apply Forall_cons. split; [by apply Hadd|done].
  - destruct (add_to_first compatible g l) as [l2|]; simpl; [|done].
    intros [= <-]. apply Forall_cons. split; [done|]. by apply IH.
Qed.

Lemma speciate_Forall (P : neat_species -> Prop) (w : world) (g : addr)
    (l : list neat_species) :
  (forall s, P s -> P (neat_species_add_genome s g)) ->
  P (neat_species_create (conf (w_pop w)) None) ->
  Forall P l -> Forall P (speciate w g l).
Proof.
  intros Hadd Hnew Hl. unfold speciate.
  destruct (add_to_first _ g l) as [l'|] eqn:Hl'.
  - by apply (add_to_first_Forall P _ g Hadd l l' Hl Hl').
  - apply Forall_app. split; [done|]. apply Forall_singleton. by apply Hadd.
Qed.

Lemma speciate_length (w : world) (g : addr) (l : list neat_species) :
  (length l <= length (speciate w g l) <= length l + 1)%nat.
Proof.
  unfold speciate. destruct (add_to_first _ g l) as [l'|] eqn:Hl'.
  - rewrite (add_to_first_length _ _ _ _ Hl'). lia.
  - rewrite length_app. simpl. lia.
Qed.

Lemma members_add (gs : list addr) (s : neat_species) (g : addr) :
  g ∈ gs -> Forall (fun ga => ga ∈ gs) (s_genomes s) ->
  Forall (fun ga => ga ∈ gs) (s_genomes (neat_species_add_genome s g)).
Proof.
  intros Hg Hs. simpl. apply Forall_app. split; [done|].
  by apply Forall_singleton.
Qed.

Lemma members_detach (w : world) (wg : addr) :
  members_in_slots w ->
  Forall (fun s => Forall (fun ga => ga ∈ genomes (w_pop w) /\ ga <> wg)
                     (s_genomes s))
    (species (w_pop (detach w wg))).
Proof.
  intros Hm. simpl. apply Forall_map. eapply Forall_impl; [exact Hm|].
  intros s Hs. simpl. apply Forall_forall. intros x Hx.
  apply list_elem_of_filter in Hx as [Hne Hx]. split; [|done].
  rewrite Forall_forall in Hs. by apply Hs.
Qed.

Lemma members_epoch (w w' : world) :
  pop_wf w -> members_in_slots w -> neat_epoch w = Some w' ->
  members_in_slots w'.
Proof.
  intros Hwf Hm Hepoch.
  destruct (neat_epoch_cases w w' Hwf Hepoch)
    as [->|(worst & wg & _ & Hwg & Hlive & Hcases)]; [done|].
  pose proof (members_detach w wg Hm) as Hdet.
  pose proof (array_get_elem_of _ _ _ Hwg) as Hwgin.
  assert (Hweak : Forall (fun s => Forall (fun ga => ga ∈ genomes (w_pop w))
                                     (s_genomes s))
                    (species (w_pop (detach w wg)))).
  { eapply Forall_impl; [exact Hdet|]. intros s Hs.
    eapply Forall_impl; [exact Hs|]. by intros x [? _]. }
  destruct Hcases as [[_ ->]|[(i & s & _ & _ & ->)|Hrep]]; [done| |].
  - unfold members_in_slots. simpl.
    apply (speciate_Forall
             (fun s => Forall (fun ga => ga ∈ genomes (w_pop w)) (s_genomes s)));
      [|by apply Forall_nil|done].
    intros s0. by apply members_add.
  - destruct Hrep as (i & s & src & rs3 & g & _ & _ & _ & Hne & Hg & ->).
    unfold members_in_slots. simpl.
    set (a := malloc (dom (delete wg (w_heap w)))).
    apply array_get_Some in Hwg as [Hw0 Hwg].
    pose proof (lookup_lt_Some _ _ _ Hwg) as Hlt.
    set (gs' := <[Z.to_nat worst := a]> (genomes (w_pop w))).
    assert (Ha : a ∈ gs').
    { apply list_elem_of_lookup. exists (Z.to_nat worst).
      by apply list_lookup_insert_eq. }
    apply (speciate_Forall
             (fun s => Forall (fun ga => ga ∈ gs') (s_genomes s)));
      [|by apply Forall_nil|].
    + intros s0. by apply members_add.
    + eapply Forall_impl; [exact Hdet|]. intros s0 Hs0.
      eapply Forall_impl; [exact Hs0|]. intros x [Hx Hxw].
      apply list_elem_of_lookup in Hx as [k Hk].
      destruct (decide (k = Z.to_nat worst)) as [->|Hk']; [congruence|].
      apply list_elem_of_lookup. exists k. unfold gs'.
      by rewrite list_lookup_insert_ne.
Qed.

Lemma members_do (c : neat_call) (w w' : world) :
  pop_wf w -> members_in_slots w -> neat_do c w = Some w' ->
  members_in_slots w'.
Proof.
  intros Hwf Hm. destruct c as [id inputs|id f|id|]; simpl.
  - unfold neat_run. destruct (negb _); [done|].
    destruct (array_get _ id) as [ga|]; [|done]. simpl.
    destruct (w_heap w !! ga) as [g|]; [|done]. simpl.
    destruct (neat_genome_run g inputs) as [[outs g']|]; [|done]. simpl.
    by intros [= <-].
  - unfold neat_set_fitness. destruct (negb _); [done|].
    destruct (array_get _ id) as [ga|]; [|done]. simpl.
    destruct (w_heap w !! ga) as [g|]; [|done]. simpl. by intros [= <-].
  - unfold neat_increase_time_alive. destruct (negb _); [done|].
    destruct (array_get _ id) as [ga|]; [|done]. simpl.
    destruct (w_heap w !! ga) as [g|]; [|done]. simpl. by intros [= <-].
  - by apply members_epoch.
Qed.

Lemma neat_epoch_species_count (w w' : world) :
  pop_wf w -> neat_epoch w = Some w' ->
  nspecies (w_pop w) <= nspecies (w_pop w') <= nspecies (w_pop w) + 1.
Proof.
  intros Hwf Hepoch.
  destruct (neat_epoch_cases w w' Hwf Hepoch)
    as [->|(worst & wg & _ & Hwg & Hlive & Hcases)]; [lia|].
  pose proof (wf_nspecies w Hwf) as Hn.
  destruct Hcases as [[_ ->]|[(i & s & _ & _ & ->)|Hrep]]; simpl; [lia| |].
  - match goal with |- context [speciate ?w0 ?g ?l] =>
      pose proof (speciate_length w0 g l) as Hl end.
    rewrite length_map in Hl. lia.
  - destruct Hrep as (i & s & src & rs3 & g & _ & _ & _ & Hne & Hg & ->).
    simpl.
    match goal with |- context [speciate ?w0 ?g ?l] =>
      pose proof (speciate_length w0 g l) as Hl end.
    rewrite length_map in Hl. lia.
Qed.

Lemma neat_do_species_count (c : neat_call) (w w' : world) :
  pop_wf w -> neat_do c w = Some w' ->
  nspecies (w_pop w) <= nspecies (w_pop w') <= nspecies (w_pop w) + 1.
Proof.
  intros Hwf. destruct c as [id inputs|id f|id|]; simpl.
  - unfold neat_run. destruct (negb _); [done|].
    destruct (array_get _ id) as [ga|]; [|done]. simpl.
    destruct (w_heap w !! ga) as [g|]; [|done]. simpl.
    destruct (neat_genome_run g inputs) as [[outs g']|]; [|done]. simpl.
    intros [= <-]. simpl. lia.
  - unfold neat_set_fitness. destruct (negb _); [done|].
    destruct (array_get _ id) as [ga|]; [|done]. simpl.
    destruct (w_heap w !! ga) as [g|]; [|done]. simpl.
    intros [= <-]. simpl. lia.
  - unfold neat_increase_time_alive. destruct (negb _); [done|].
    destruct (array_get _ id) as [ga|]; [|done]. simpl.
    destruct (w_heap w !! ga) as [g|]; [|done]. simpl.
    intros [= <-]. simpl. lia.
  - by apply neat_epoch_species_count.
Qed.

(** What every call keeps. *)
Lemma life_invariants (cs : list neat_call) : forall (w w' : world),
  malloc_fresh -> pop_wf w -> members_in_slots w ->
  neat_do_all cs w = Some w' ->
  pop_wf w' /\ members_in_slots w' /\
  nspecies (w_pop w) <= nspecies (w_pop w')
    <= nspecies (w_pop w) + Z.of_nat (length cs).
Proof.
  induction cs as [|c cs IH]; intros w w' Hfresh Hwf Hm; simpl.
  - intros [= <-]. split; [done|]. split; [done|]. lia.
  - destruct (neat_do c w) as [w1|] eqn:Hc; [|done]. simpl. intros Hrest.
    destruct (neat_do_slots c w w1 Hfresh Hwf Hc) as (Hwf1 & _).
    pose proof (members_do c w w1 Hwf Hm Hc) as Hm1.
    pose proof (neat_do_species_count c w w1 Hwf Hc) as Hc1.
    destruct (IH w1 w' Hfresh Hwf1 Hm1 Hrest) as (Hwf' & Hm' & Hc').
    split; [done|]. split; [done|]. lia.
Qed.

Lemma neat_create_members (config : neat_config)
    (h : gmap addr (neat_genome genome_body)) (rs : rand_state) (w : world) :
  malloc_fresh -> neat_create config h rs = Some w ->
  members_in_slots w /\ nspecies (w_pop w) = 1.
Proof.
  intros Hfresh Hc.
  assert (Hpre : 0 < population_size config /\
                 sizeof_pointer * population_size config <= SIZE_MAX).
  { unfold neat_create in Hc.
    destruct (Z.ltb_spec 0 (population_size config)); [|done].
    destruct (Z.ltb_spec SIZE_MAX (sizeof_pointer * population_size config));
      [done|]. lia. }
  destruct Hpre as [HN Hsz].
  destruct (neat_create_post config h rs HN Hsz Hfresh)
    as (w0 & a0 & g0 & rs' & Hc0 & _ & _ & _ & _ & _ & Ha0 & _ & _ & Hns & Hsp).
  rewrite Hc in Hc0. injection Hc0 as <-. split; [|done].
  unfold members_in_slots. rewrite Hsp. apply Forall_singleton. simpl.
  apply Forall_singleton. by apply list_elem_of_lookup_2 in Ha0.
Qed.

(** *** The replacement of the worst genome *)



(** *** The fields of a genome *)

Lemma genome_at_other (w : world) (ga : addr) (g : neat_genome genome_body)
    (id j : Z) :
  pop_wf w -> array_get (genomes (w_pop w)) id = Some ga -> j <> id ->
  genome_at {| w_pop := w_pop w; w_heap := <[ga := g]> (w_heap w);
               w_rand := w_rand w |} j
  = genome_at w j.
Proof.
  intros Hwf Hga Hne. unfold genome_at. simpl.
  destruct (array_get (genomes (w_pop w)) j) as [gb|] eqn:Hgb; [|done]. simpl.
  rewrite lookup_insert_ne; [done|]. intros ->.
  apply array_get_Some in Hga as [? Hga]. apply array_get_Some in Hgb as [? Hgb].
  pose proof (NoDup_lookup _ _ _ _ (wf_nodup w Hwf) Hga Hgb). lia.
Qed.

Lemma genome_at_same (w : world) (ga : addr) (g : neat_genome genome_body)
    (id : Z) :
  array_get (genomes (w_pop w)) id = Some ga ->
  genome_at {| w_pop := w_pop w; w_heap := <[ga := g]> (w_heap w);
               w_rand := w_rand w |} id
  = Some g.
Proof.
  intros Hga. unfold genome_at. simpl. rewrite Hga. simpl.
  apply lookup_insert_eq.
Qed.

Lemma slot_live (w : world) (id : Z) :
  pop_wf w -> 0 <= id < ngenomes (w_pop w) ->
  exists ga g, array_get (genomes (w_pop w)) id = Some ga /\
               w_heap w !! ga = Some g /\ genome_at w id = Some g.
Proof.
  intros Hwf Hid.
  destruct (array_get_lt (genomes (w_pop w)) id) as [ga Hga].
  { rewrite <- (wf_ngenomes w Hwf). lia. }
  pose proof (wf_live w Hwf) as Hlive. rewrite Forall_forall in Hlive.
  destruct (Hlive ga (array_get_elem_of _ _ _ Hga)) as [g Hg].
  exists ga, g. split; [done|]. split; [done|].
  unfold genome_at. by rewrite Hga.
Qed.

Lemma id_in_range (id n : Z) :
  negb ((0 <=? id) && (id <? n)) = false <-> 0 <= id < n.
Proof.
  destruct (Z.leb_spec 0 id), (Z.ltb_spec id n); simpl; split; try done; lia.
Qed.

(** X14.  On a well-formed population [neat_set_fitness] with an id
    below [ngenomes] sets the fitness of that genome and changes neither
    the other genomes, nor the arrays, nor the generator; with any other
    id the assertion fails. *)
Theorem neat_set_fitness_spec (w : world) (id : Z) (f : float) :
  pop_wf w ->
  (0 <= id < ngenomes (w_pop w) ->
   exists w' g,
     genome_at w id = Some g /\
     neat_set_fitness id f w = Some w' /\
     genome_at w' id = Some (with_fitness f g) /\
     (forall j, j <> id -> genome_at w' j = genome_at w j) /\
     w_pop w' = w_pop w /\ w_rand w' = w_rand w /\ pop_wf w') /\
  (~ 0 <= id < ngenomes (w_pop w) -> neat_set_fitness id f w = None).
Proof.
  intros Hwf. unfold neat_set_fitness. split.
  - intros Hid. rewrite (proj2 (id_in_range id _) Hid).
    destruct (slot_live w id Hwf Hid) as (ga & g & Hga & Hg & Hat).
    rewrite Hga. simpl. rewrite Hg. simpl.
    eexists _, g. split; [done|]. split; [done|].
    split; [by apply genome_at_same|].
    split; [intros j Hj; by apply (genome_at_other w ga _ id j)|].
    split; [done|]. split; [done|].
    apply heap_update_wf; [done|by eexists].
  - intros Hid. destruct (negb _) eqn:Hc; [done|].
    by apply id_in_range in Hc.
Qed.

(** X15.  On a well-formed population [neat_increase_time_alive] with
    an id below [ngenomes] adds one to the age of that genome and changes
    neither the other genomes, nor the arrays, nor the generator; with any
    other id the assertion fails. *)
Theorem neat_increase_time_alive_spec (w : world) (id : Z) :
  pop_wf w ->
  (0 <= id < ngenomes (w_pop w) ->
   exists w' g,
     genome_at w id = Some g /\
     neat_increase_time_alive id w = Some w' /\
     genome_at w' id = Some (with_time_alive (time_alive g + 1) g) /\
     (forall j, j <> id -> genome_at w' j = genome_at w j) /\
     w_pop w' = w_pop w /\ w_rand w' = w_rand w /\ pop_wf w') /\
  (~ 0 <= id < ngenomes (w_pop w) -> neat_increase_time_alive id w = None).
Proof.
  intros Hwf. unfold neat_increase_time_alive. split.
  - intros Hid. rewrite (proj2 (id_in_range id _) Hid).
    destruct (slot_live w id Hwf Hid) as (ga & g & Hga & Hg & Hat).
    rewrite Hga. simpl. rewrite Hg. simpl.
    eexists _, g. split; [done|]. split; [done|].
    split; [by apply genome_at_same|].
    split; [intros j Hj; by apply (genome_at_other w ga _ id j)|].
    split; [done|]. split; [done|].
    apply heap_update_wf; [done|by eexists].
  - intros Hid. destruct (negb _) eqn:Hc; [done|].
    by apply id_in_range in Hc.
Qed.

(** X16.  On a well-formed population [neat_run] with an id below
    [ngenomes] returns what [neat_genome_run] returns on that genome,
    stores the genome it leaves and changes neither the other genomes,
    nor the arrays, nor the generator; it fails when [neat_genome_run]
    does, and with any other id the assertion fails. *)
Theorem neat_run_spec (w : world) (id : Z) (inputs : list float) :
  pop_wf w ->
  (0 <= id < ngenomes (w_pop w) ->
   exists g,
     genome_at w id = Some g /\
     match neat_genome_run g inputs with
     | Some (outputs, g') =>
         exists w',
           neat_run id inputs w = Some (outputs, w') /\
           genome_at w' id = Some g' /\
           (forall j, j <> id -> genome_at w' j = genome_at w j) /\
           w_pop w' = w_pop w /\ w_rand w' = w_rand w /\ pop_wf w'
     | None => neat_run id inputs w = None
     end) /\
  (~ 0 <= id < ngenomes (w_pop w) -> neat_run id inputs w = None).
Proof.
  intros Hwf. unfold neat_run. split.
  - intros Hid. rewrite (proj2 (id_in_range id _) Hid).
    destruct (slot_live w id Hwf Hid) as (ga & g & Hga & Hg & Hat).
    rewrite Hga. simpl. rewrite Hg. simpl.
    exists g. split; [done|].
    destruct (neat_genome_run g inputs) as [[outputs g']|]; [|done]. simpl.
    eexists. split; [done|].
    split; [by apply genome_at_same|].
    split; [intros j Hj; by apply (genome_at_other w ga _ id j)|].
    split; [done|]. split; [done|].
    apply heap_update_wf; [done|by eexists].
  - intros Hid. destruct (negb _) eqn:Hc; [done|].
    by apply id_in_range in Hc.
Qed.

(** *** Invariants of the life cycle *)

(** X17.  After [neat_create] and any calls that return, the counts
    agree with the arrays, no two slots hold the same genome, and every
    slot below the population size holds a live genome: no slot is left
    dangling by an epoch. *)
Theorem neat_slots_live (config : neat_config)
    (h : gmap addr (neat_genome genome_body)) (rs : rand_state)
    (cs : list neat_call) (w w' : world) :
  malloc_fresh ->
  neat_create config h rs = Some w ->
  neat_do_all cs w = Some w' ->
  pop_wf w' /\
  forall id, 0 <= id < population_size config -> is_Some (genome_at w' id).
Proof.
  intros Hfresh Hc Hcs.
  destruct (neat_create_wf config h rs w Hfresh Hc) as [Hwf Hn].
  destruct (neat_do_all_slots cs w w' Hfresh Hwf Hcs) as (Hwf' & Hn' & _).
  split; [done|]. intros id Hid. apply genome_at_lt; [done|]. lia.
Qed.

(** X18.  After [neat_create] and any calls that return, every member
    of every species is the genome of a slot and is live: an epoch
    removes the genome it destroys from every species. *)
Theorem neat_species_members_live (config : neat_config)
    (h : gmap addr (neat_genome genome_body)) (rs : rand_state)
    (cs : list neat_call) (w w' : world) :
  malloc_fresh ->
  neat_create config h rs = Some w ->
  neat_do_all cs w = Some w' ->
  forall s ga, s ∈ species (w_pop w') -> ga ∈ s_genomes s ->
    ga ∈ genomes (w_pop w') /\ is_Some (w_heap w' !! ga).
Proof.
  intros Hfresh Hc Hcs s ga Hs Hga.
  destruct (neat_create_wf config h rs w Hfresh Hc) as [Hwf _].
  destruct (neat_create_members config h rs w Hfresh Hc) as [Hm _].
  destruct (life_invariants cs w w' Hfresh Hwf Hm Hcs) as (Hwf' & Hm' & _).
  unfold members_in_slots in Hm'. rewrite Forall_forall in Hm'.
  specialize (Hm' s Hs). rewrite Forall_forall in Hm'.
  split; [by apply Hm'|].
  pose proof (wf_live w' Hwf') as Hlive. rewrite Forall_forall in Hlive.
  by apply Hlive, Hm'.
Qed.

(** X19.  After [neat_create] and any calls that return, there is at
    least one species and at most one more than the number of calls,
    [nspecies] is the length of the array of species, and an epoch keeps
    the number of species or adds one. *)
Theorem neat_species_count (config : neat_config)
    (h : gmap addr (neat_genome genome_body)) (rs : rand_state)
    (cs : list neat_call) (w w' : world) :
  malloc_fresh ->
  neat_create config h rs = Some w ->
  neat_do_all cs w = Some w' ->
  1 <= nspecies (w_pop w') <= 1 + Z.of_nat (length cs) /\
  nspecies (w_pop w') = Z.of_nat (length (species (w_pop w'))) /\
  forall w'', neat_epoch w' = Some w'' ->
    nspecies (w_pop w') <= nspecies (w_pop w'') <= nspecies (w_pop w') + 1.
Proof.
  intros Hfresh Hc Hcs.
  destruct (neat_create_wf config h rs w Hfresh Hc) as [Hwf _].
  destruct (neat_create_members config h rs w Hfresh Hc) as [Hm Hone].
  destruct (life_invariants cs w w' Hfresh Hwf Hm Hcs) as (Hwf' & _ & Hcount).
  split; [lia|]. split; [apply (wf_nspecies w' Hwf')|].
  intros w'' Hepoch. by apply neat_epoch_species_count.
Qed.
(** X11.  With a [malloc] that returns fresh blocks, [neat_create]
    returns a population exactly when the population size is positive and
    the array of that many pointers fits [size_t]. *)
Theorem neat_create_asserts (config : neat_config)
    (h : gmap addr (neat_genome genome_body)) (rs : rand_state) :
  malloc_fresh ->
  (is_Some (neat_create config h rs) <->
   0 < population_size config /\
   sizeof_pointer * population_size config <= SIZE_MAX).
Proof.
  intros Hfresh. split.
  - intros [w Hw]. unfold neat_create in Hw.
    destruct (Z.ltb_spec 0 (population_size config)); [|done].
    destruct (Z.ltb_spec SIZE_MAX (sizeof_pointer * population_size config));
      [done|]. lia.
  - intros [HN Hsz].
    destruct (neat_create_post config h rs HN Hsz Hfresh) as (w & ? & ? & ? & -> & _).
    by eexists.
Qed.

End NeatLife.

(** ** The activation functions *)

Lemma binary_round_aux_opp (prec emax : Z) (s : bool) (m e : Z) (l : location) :
  binary_round_aux prec emax (negb s) m e l
  = SFopp (binary_round_aux prec emax s m e l).
Proof.
  unfold binary_round_aux.
  destruct (shr_fexp prec emax m e l) as [mrs e1].
  destruct (shr_fexp prec emax _ e1 loc_Exact) as [mrs2 e2].
  destruct (shr_m mrs2); [done| |done].
  by destruct (e2 <=? emax - prec).
Qed.

Lemma binary_round_opp (prec emax : Z) (s : bool) (m : positive) (e : Z) :
  binary_round prec emax (negb s) m e = SFopp (binary_round prec emax s m e).
Proof.
  unfold binary_round. destruct (shl_align m e _) as [mz ez].
  apply binary_round_aux_opp.
Qed.

Lemma F64_round_opp (x : float) : F64.round (SFopp x) = SFopp (F64.round x).
Proof. destruct x as [s|s| |s m e]; try done. apply binary_round_opp. Qed.

Lemma F32_round_opp (x : float) : F32.round (SFopp x) = SFopp (F32.round x).
Proof. destruct x as [s|s| |s m e]; try done. apply binary_round_opp. Qed.

Lemma SFabs_opp (x : float) : SFabs (SFopp x) = SFabs x.
Proof. by destruct x. Qed.

Lemma SFdiv_opp_l (prec emax : Z) (x y : float) :
  SFdiv prec emax (SFopp x) y = SFopp (SFdiv prec emax x y).
Proof.
  destruct x as [sx|sx| |sx mx ex], y as [sy|sy| |sy my ey]; simpl;
    try done; try (by rewrite negb_xorb_l).
  destruct (SFdiv_core_binary prec emax (Zpos mx) ex (Zpos my) ey)
    as [[mz ez] lz].
  rewrite <- negb_xorb_l. apply binary_round_aux_opp.
Qed.

Lemma shr_1_nonneg (mrs : shr_record) :
  0 <= shr_m mrs -> 0 <= shr_m (shr_1 mrs).
Proof. destruct mrs as [[|[p|p|]|p] r s]; simpl; lia. Qed.

Lemma iter_shr_1_nonneg (n : positive) : forall mrs : shr_record,
  0 <= shr_m mrs -> 0 <= shr_m (SpecFloat.iter_pos shr_1 n mrs).
Proof.
  induction n as [n IH|n IH|]; intros mrs Hm; simpl.
  - apply IH, IH, shr_1_nonneg, Hm.
  - apply IH, IH, Hm.
  - apply shr_1_nonneg, Hm.
Qed.

Lemma shr_fexp_nonneg (prec emax m e : Z) (l : location) :
  0 <= m -> 0 <= shr_m (shr_fexp prec emax m e l).1.
Proof.
  intros Hm. unfold shr_fexp, shr.
  assert (H0 : 0 <= shr_m (shr_record_of_loc m l)) by (by destruct l as [|[]]).
  destruct (fexp prec emax (Zdigits2 m + e) - e); simpl; try done.
  by apply iter_shr_1_nonneg.
Qed.

Lemma round_nearest_even_nonneg (m : Z) (l : location) :
  0 <= m -> 0 <= round_nearest_even m l.
Proof.
  intros Hm. destruct l as [|[]]; simpl; try lia. destruct (Z.even m); lia.
Qed.

Lemma binary_round_aux_not_nan (prec emax : Z) (s : bool) (m e : Z)
    (l : location) :
  0 <= m -> is_nan (binary_round_aux prec emax s m e l) = false.
Proof.
  intros Hm. unfold binary_round_aux.
  pose proof (shr_fexp_nonneg prec emax m e l Hm) as H1.
  destruct (shr_fexp prec emax m e l) as [mrs e1]. simpl in H1.
  pose proof (shr_fexp_nonneg prec emax _ e1 loc_Exact
                (round_nearest_even_nonneg (shr_m mrs) (loc_of_shr_record mrs) H1))
    as H2.
  destruct (shr_fexp prec emax _ e1 loc_Exact) as [mrs2 e2]. simpl in H2.
  destruct (shr_m mrs2); [done| |lia].
  by destruct (e2 <=? emax - prec).
Qed.

Lemma binary_round_not_nan (prec emax : Z) (s : bool) (m : positive) (e : Z) :
  is_nan (binary_round prec emax s m e) = false.
Proof.
  unfold binary_round. destruct (shl_align m e _) as [mz ez].
  by apply binary_round_aux_not_nan.
Qed.

Lemma SFdiv_finite_not_nan (prec emax : Z) (s : bool) (m : positive) (e : Z)
    (y : float) :
  is_nan y = false ->
  is_nan (SFdiv prec emax (S754_finite s m e) y) = false.
Proof.
  destruct y as [sy|sy| |sy my ey]; try done. intros _. simpl.
  unfold SFdiv_core_binary.
  set (m' := match _ with Z0 => Zpos m | Zpos _ => _ | Zneg _ => 0 end).
  assert (Hm' : 0 <= m').
  { subst m'. destruct (_ - _ - _) as [|p|p]; try lia.
    rewrite Z.shiftl_mul_pow2 by lia.
    pose proof (Z.pow_pos_nonneg 2 (Zpos p)). nia. }
  pose proof (Z_div_mod m' (Zpos my) ltac:(lia)) as Hdm.
  destruct (Z.div_eucl m' (Zpos my)) as [q r].
  apply binary_round_aux_not_nan. destruct Hdm as [Heq Hr]. nia.
Qed.

(** The conversion of a float to double is exact: a finite float stays
    finite. *)
Lemma F64_round_finite (s : bool) (m : positive) (e : Z) :
  bounded 24 128 m e = true ->
  exists m' e', F64.round (S754_finite s m e) = S754_finite s m' e'.
Proof.
  intros (He & Hm & _)%bounded32_inv.
  pose proof (digits2_pos_bounds m) as Hd.
  set (d := Zpos (digits2_pos m)) in *. assert (Hd0 : 0 < d) by (unfold d; lia).
  assert (Hd24 : d <= 24).
  { destruct (Z.le_gt_cases d 24) as [|Hgt]; [done|].
    assert (2 ^ 24 <= 2 ^ (d - 1)) by (apply Z.pow_le_mono_r; lia). lia. }
  unfold F64.round, binary_round. fold d.
  assert (Hf : fexp F64.prec F64.emax (d + e) = d + e - 53)
    by (unfold fexp, emin, F64.prec, F64.emax; lia).
  rewrite Hf.
  destruct (shl_align_spec m e (d + e - 53)) as [[_ ->]|[Hle _]]; [|lia].
  set (mz := Z.to_pos (Zpos m * 2 ^ (e - (d + e - 53)))).
  assert (Hdz : Zdigits2 (Zpos mz) = 53).
  { unfold mz. simpl Zdigits2. rewrite digits2_shift by lia. fold d. lia. }
  eexists _, _. unfold binary_round_aux, shr_fexp. rewrite Hdz.
  assert (Hf2 : fexp F64.prec F64.emax (53 + (d + e - 53)) - (d + e - 53) = 0)
    by (unfold fexp, emin, F64.prec, F64.emax; lia).
  rewrite Hf2. simpl. change (Z.pos (digits2_pos mz)) with (Zdigits2 (Z.pos mz)). rewrite Hdz, Hf2. simpl.
  destruct (Z.leb_spec (d + e - 53) (F64.emax - F64.prec)) as [_|Hgt].
  - reflexivity.
  - unfold F64.emax, F64.prec in Hgt. lia.
Qed.

(** X9.  On a finite float, [nn_fast_sigmoid] is odd: it returns a
    number, not NaN, and on the opposite of the float it returns the
    opposite of that number, the sign of a zero included.  On an infinity
    it returns NaN, the quotient being infinity over infinity, and on NaN
    it returns NaN. *)
Theorem nn_fast_sigmoid_odd :
  (forall x : float,
     valid_binary 24 128 x = true -> is_finite x = true ->
     is_nan (nn_fast_sigmoid x) = false /\
     nn_fast_sigmoid (F32.opp x) = F32.opp (nn_fast_sigmoid x)) /\
  (forall s : bool, nn_fast_sigmoid (S754_infinity s) = S754_nan) /\
  nn_fast_sigmoid S754_nan = S754_nan.
Proof.
  split; [|split; [by intros []|done]].
  intros x Hv Hx. split.
  - destruct x as [s|s| |s m e]; try done.
    simpl in Hv. destruct (F64_round_finite s m e Hv) as (m' & e' & Hr).
    unfold nn_fast_sigmoid. rewrite Hr.
    assert (Hy : is_nan (F64.add (F64.of_Z 1) (F64.abs (S754_finite s m' e')))
                 = false).
    { change (F64.of_Z 1) with (S754_finite false 4503599627370496 (-52)).
      unfold F64.add, F64.abs. simpl SFabs. unfold SFadd.
      set (ez := Z.min (-52) e').
      destruct (shl_align 4503599627370496 (-52) ez) as [a ?].
      destruct (shl_align m' e' ez) as [b ?]. simpl.
      apply binary_round_not_nan. }
    pose proof (SFdiv_finite_not_nan F64.prec F64.emax s m' e' _ Hy) as Hq.
    fold F64.div in Hq.
    destruct (F64.div _ _) as [sq|sq| |sq mq eq]; try done.
    apply binary_round_not_nan.
  - unfold nn_fast_sigmoid, F32.opp, F64.abs, F64.div.
    rewrite F64_round_opp, SFabs_opp, SFdiv_opp_l. apply F32_round_opp.
Qed.

(** ** Loops that fail *)

Lemma c_for_None {St : Type} (body : Z -> St -> option St) (j : Z) :
  (forall s, body j s = None) ->
  forall (n : nat) (i : Z) (s : St),
    i <= j < i + Z.of_nat n -> c_for n i body s = None.
Proof.
  intros Hj. induction n as [|n IH]; intros i s Hi; simpl; [lia|].
  destruct (Z.eq_dec i j) as [->|Hne]; [by rewrite Hj|].
  destruct (body i s) as [t|]; [|done]. apply IH. lia.
Qed.

Section NNExtra.
Context `{Libc}.

(** ** Creation and destruction *)

(** X6.  With a [malloc] that returns fresh blocks, [nn_ffnet_create]
    allocates at an address that was free and changes no other block,
    [nn_ffnet_destroy] of the new network gives the memory back as it
    was, and destroying it once more is an error. *)
Theorem nn_ffnet_create_destroy (I Hd O L : Z) (h h' : nn_heap) (a : addr) :
  malloc_fresh ->
  nn_ffnet_create I Hd O L h = Some (a, h') ->
  h !! a = None /\
  (forall b, b <> a -> h' !! b = h !! b) /\
  nn_ffnet_destroy a h' = Some h /\
  nn_ffnet_destroy a h = None.
Proof.
  intros Hfresh. unfold nn_ffnet_create.
  destruct (negb (0 <? I)); [done|]. destruct (negb (0 <? O)); [done|].
  destruct (negb (Bool.eqb _ _)); [done|]. destruct (SIZE_MAX <? _); [done|].
  intros [= <- <-].
  assert (Ha : h !! malloc (dom h) = None) by (apply not_elem_of_dom, Hfresh).
  split; [done|]. split; [intros b Hb; by rewrite lookup_insert_ne|].
  unfold nn_ffnet_destroy. rewrite lookup_insert_eq, Ha. simpl.
  split; [|done]. f_equal. by rewrite delete_insert_id.
Qed.

(** X5.  [nn_ffnet_create] returns a network only if there is an input,
    there is an output, and there are hidden neurons if and only if there
    are hidden layers: otherwise an assertion stops it before anything is
    allocated.  When the sizes fit [size_t] and [malloc] returns a fresh
    block, so that the allocation succeeds, these conditions are also
    enough for it to return. *)
Theorem nn_ffnet_create_asserts (I Hd O L : Z) (h : nn_heap) :
  0 <= Hd -> 0 <= L ->
  (is_Some (nn_ffnet_create I Hd O L h) ->
   0 < I /\ 0 < O /\ (0 < Hd <-> 0 < L)) /\
  (malloc_fresh -> fits I Hd O L ->
   0 < I -> 0 < O -> (0 < Hd <-> 0 < L) ->
   is_Some (nn_ffnet_create I Hd O L h)).
Proof.
  intros HH HL. split.
  - intros [r Hr]. unfold nn_ffnet_create in Hr.
    destruct (Z.ltb_spec 0 I); [|done]. destruct (Z.ltb_spec 0 O); [|done].
    simpl in Hr.
    destruct (Z.ltb_spec 0 Hd), (Z.ltb_spec 0 L); simpl in Hr; try done;
      (split; [done|]; split; [done|]; split; lia).
  - intros _ Hf HI HO HHL.
    assert (Hv : valid_topology I Hd O L) by (unfold valid_topology; tauto).
    destruct (nn_ffnet_create_spec I Hd O L h Hv Hf) as [-> _]. by eexists.
Qed.

(** ** The run *)

(** X4.  [nn_ffnet_run] does not return when the output activation is
    none of the enumerators and there is an output, or when the hidden
    activation is none of the enumerators and there is a hidden neuron:
    [nn_activate] prints and exits on the first neuron of the layer. *)
Theorem nn_ffnet_run_errors (h : nn_heap) (a : addr) (blk : nn_block)
    (inputs : list float) :
  h !! a = Some blk ->
  (forall n, 0 < noutputs (blk_net blk) ->
     output_activation (blk_net blk) = NN_ACTIVATION_other n ->
     nn_ffnet_run a inputs h = None) /\
  (forall n, 0 < nhidden_layers (blk_net blk) -> 0 < nhiddens (blk_net blk) ->
     hidden_activation (blk_net blk) = NN_ACTIVATION_other n ->
     nn_ffnet_run a inputs h = None).
Proof.
  intros Hb.
  assert (Hneuron : forall b n input nw c,
            nn_neuron b (NN_ACTIVATION_other n) input nw c = None).
  { intros b n input nw c. unfold nn_neuron.
    destruct (load _ _); [|done]. simpl.
    destruct (c_for _ _ _ _) as [[sum w]|]; [|done]. done. }
  assert (Hlayer : forall b n input nw count c, 0 < count ->
            nn_layer b (NN_ACTIVATION_other n) input nw count c = None).
  { intros b n input nw count c Hc. unfold nn_layer.
    apply (c_for_None _ 0); [intros s; apply Hneuron|lia]. }
  unfold nn_ffnet_run, nn_ffnet_run_loops. rewrite Hb. simpl.
  split.
  - intros n Hout Hact. rewrite Hact.
    destruct (copy_inputs _ _ _ _) as [h1|]; [|done]. simpl.
    destruct (c_for _ _ _ _) as [[c input]|]; [|done]. simpl.
    by rewrite Hlayer.
  - intros n HL HH Hact. rewrite Hact.
    destruct (copy_inputs _ _ _ _) as [h1|]; [|done]. simpl.
    match goal with
    | |- context [c_for ?cnt 0 ?body ?s0] =>
      rewrite (c_for_None body 0); [done| |lia]
    end.
    intros [c input]. by rewrite Hlayer.
Qed.
End NNExtra.

(** ** The function the run computes *)

Lemma slice_insert {A : Type} (l : list A) (k n i : nat) (v : A) :
  (k + n <= i)%nat -> take n (drop k (<[i := v]> l)) = take n (drop k l).
Proof.
  intros Hi. rewrite drop_insert_ge by lia. apply take_insert_ge. lia.
Qed.

Lemma drop_take_slice {A : Type} (l : list A) (j m : nat) :
  (j <= m)%nat -> drop j (take m l) = take (m - j) (drop j l).
Proof.
  intros Hj. rewrite take_drop_commute. by replace (j + (m - j))%nat with m by lia.
Qed.

Lemma c_for_shift {St : Type} (f : St -> option St) :
  forall (n : nat) (i j : Z) (s : St),
    c_for n i (fun _ => f) s = c_for n j (fun _ => f) s.
Proof.
  induction n as [|n IH]; intros i j s; simpl; [done|].
  destruct (f s); [apply IH|done].
Qed.

Section Forward.
Context `{Libc}.

Lemma load_nat (h : nn_heap) a net items (k : nat) :
  h !! a = Some {| blk_net := net; blk_items := items |} ->
  load h (a, Z.of_nat k) = items !! k.
Proof.
  intros Hh. unfold load. simpl. rewrite Hh. simpl.
  destruct (Z.leb_spec 0 (Z.of_nat k)); [|lia]. by rewrite Nat2Z.id.
Qed.

Lemma nn_dot_loop (h : nn_heap) a net items (ii : nat) :
  h !! a = Some {| blk_net := net; blk_items := items |} ->
  forall (n : nat) (k : Z) (wi : nat) (sum : float),
    0 <= k ->
    (wi + n <= length items)%nat ->
    (ii + Z.to_nat k + n <= length items)%nat ->
    c_for n k
      (fun k '(sum, w) =>
         wk ← load h w;
         x ← load h (ptr_add (a, Z.of_nat ii) k);
         Some (F32.add sum (F32.mul wk x), ptr_add w 1))
      (sum, (a, Z.of_nat wi)) =
    Some (weighted_sum sum (take n (drop wi items))
            (take n (drop (ii + Z.to_nat k) items)),
          (a, Z.of_nat (wi + n))).
Proof.
  intros Hh. induction n as [|n IH]; intros k wi sum Hk Hw Hi; simpl.
  - by rewrite Nat.add_0_r.
  - destruct (lookup_lt_is_Some_2 items wi) as [wk Hwk]; [lia|].
    destruct (lookup_lt_is_Some_2 items (ii + Z.to_nat k)) as [x Hx]; [lia|].
    rewrite (load_nat h a net items wi Hh), Hwk. simpl.
    change (ptr_add (a, Z.of_nat ii) k) with (a, Z.of_nat ii + k).
    replace (Z.of_nat ii + k) with (Z.of_nat (ii + Z.to_nat k)) by lia.
    rewrite (load_nat h a net items _ Hh), Hx. simpl.
    change (ptr_add (a, Z.of_nat wi) 1) with (a, Z.of_nat wi + 1).
    replace (Z.of_nat wi + 1) with (Z.of_nat (S wi)) by lia.
    rewrite IH by lia.
    rewrite (drop_S _ _ _ Hwk), (drop_S _ _ _ Hx). simpl.
    replace (ii + Z.to_nat (k + 1))%nat with (S (ii + Z.to_nat k)) by lia.
    do 3 f_equal. lia.
Qed.

Lemma nn_neuron_value (h : nn_heap) a net items b act (wi ii oi nw : nat) :
  h !! a = Some {| blk_net := net; blk_items := items |} ->
  (wi + S nw <= length items)%nat -> (ii + nw <= length items)%nat ->
  (oi < length items)%nat ->
  nn_neuron b act (a, Z.of_nat ii) (Z.of_nat nw)
    {| c_heap := h; c_weight := (a, Z.of_nat wi); c_output := (a, Z.of_nat oi) |}
  = v ← neuron_value b act (take (S nw) (drop wi items))
          (take nw (drop ii items));
    Some {| c_heap := <[a := {| blk_net := net;
                                blk_items := <[oi := v]> items |}]> h;
            c_weight := (a, Z.of_nat (wi + S nw));
            c_output := (a, Z.of_nat (S oi)) |}.
Proof.
  intros Hh Hw Hi Ho. unfold nn_neuron. simpl.
  destruct (lookup_lt_is_Some_2 items wi) as [w0 Hw0]; [lia|].
  rewrite (load_nat h a net items wi Hh), Hw0. simpl.
  rewrite Nat2Z.id.
  change (ptr_add (a, Z.of_nat wi) 1) with (a, Z.of_nat wi + 1).
  replace (Z.of_nat wi + 1) with (Z.of_nat (S wi)) by lia.
  rewrite (nn_dot_loop h a net items ii Hh nw 0 (S wi)) by lia. simpl.
  rewrite (drop_S _ _ _ Hw0). simpl.
  change (Z.to_nat 0) with 0%nat. rewrite Nat.add_0_r.
  destruct (nn_activate act _) as [v|]; [|done]. simpl.
  rewrite (store_at h a net items (Z.of_nat oi) v Hh) by lia. simpl.
  rewrite Nat2Z.id.
  change (ptr_add (a, Z.of_nat oi) 1) with (a, Z.of_nat oi + 1).
  do 3 f_equal; [f_equal; lia|f_equal; lia].
Qed.

Lemma nn_layer_S b act input nw (count : nat) (c : cursor) :
  nn_layer b act input nw (Z.of_nat (S count)) c =
  c' ← nn_neuron b act input nw c; nn_layer b act input nw (Z.of_nat count) c'.
Proof.
  unfold nn_layer. rewrite !Nat2Z.id. simpl.
  destruct (nn_neuron b act input nw c) as [c'|]; [|done]. simpl.
  apply c_for_shift.
Qed.

Lemma nn_layer_values b act (ii nw : nat) a net :
  known_activation act ->
  forall (count : nat) (h : nn_heap) items (wi oi m : nat),
    h !! a = Some {| blk_net := net; blk_items := items |} ->
    (count * S nw <= m)%nat -> (wi + m <= oi)%nat -> (ii + nw <= oi)%nat ->
    (oi + count <= length items)%nat ->
    exists vs items',
      layer_values b act count (take m (drop wi items))
        (take nw (drop ii items))
      = Some (vs, drop (count * S nw) (take m (drop wi items))) /\
      nn_layer b act (a, Z.of_nat ii) (Z.of_nat nw) (Z.of_nat count)
        {| c_heap := h; c_weight := (a, Z.of_nat wi);
           c_output := (a, Z.of_nat oi) |}
      = Some {| c_heap := <[a := {| blk_net := net; blk_items := items' |}]> h;
                c_weight := (a, Z.of_nat (wi + count * S nw));
                c_output := (a, Z.of_nat (oi + count)) |} /\
      length items' = length items /\
      take oi items' = take oi items /\
      take count (drop oi items') = vs.
Proof.
  intros Hact. induction count as [|count IH];
    intros h items wi oi m Hh Hm Hwi Hii Hoi.
  - exists [], items. simpl. rewrite drop_0, !Nat.add_0_r.
    split; [done|]. split; [|done].
    unfold nn_layer. simpl. by rewrite insert_id.
  - assert (Hlen : length (take nw (drop ii items)) = nw).
    { rewrite length_take, length_drop. lia. }
    simpl layer_values. rewrite Hlen.
    rewrite take_take, Nat.min_l by lia.
    rewrite nn_layer_S.
    rewrite (nn_neuron_value h a net items b act wi ii oi nw Hh) by lia.
    destruct (neuron_value b act _ _) as [v|] eqn:Hv; cycle 1.
    { exfalso. destruct (lookup_lt_is_Some_2 items wi) as [w0 Hw0]; [lia|].
      rewrite (drop_S _ _ _ Hw0) in Hv. simpl in Hv.
      destruct (nn_activate_known act
                  (weighted_sum (F32.mul w0 b) (take nw (drop (S wi) items))
                     (take nw (drop ii items))) Hact) as [v Hv'].
      congruence. }
    simpl.
    set (items1 := <[oi := v]> items).
    set (h1 := <[a := {| blk_net := net; blk_items := items1 |}]> h).
    destruct (IH h1 items1 (wi + S nw)%nat (S oi) (m - S nw)%nat)
      as (vs & items' & Hvs & Hrun & Hl & Htake & Hval).
    { apply lookup_insert_eq. }
    { simpl in Hm. lia. }
    { lia. }
    { lia. }
    { unfold items1. rewrite length_insert. lia. }
    unfold items1 in Hvs.
    rewrite !slice_insert in Hvs by lia.
    rewrite drop_take_slice, drop_drop by (simpl in Hm; lia).
    rewrite Hvs. simpl.
    exists (v :: vs), items'.
    split.
    { replace (drop (S (nw + count * S nw)) (take m (drop wi items)))
        with (drop (count * S nw)
                (take (m - S nw) (drop (wi + S nw) items))); [done|].
      simpl in Hm.
      rewrite (drop_take_slice _ (count * S nw)) by lia.
      rewrite (drop_take_slice _ (S (nw + count * S nw))) by lia.
      rewrite !drop_drop. f_equal; [lia|f_equal; lia]. }
    split.
    { rewrite Hrun. unfold h1. rewrite insert_insert_eq.
      do 3 f_equal; f_equal; lia. }
    split; [rewrite Hl; unfold items1; by rewrite length_insert|].
    assert (Hv_at : items' !! oi = Some v).
    { rewrite <- (lookup_take_lt items' (S oi) oi) by lia.
      rewrite Htake, lookup_take_lt by lia.
      apply list_lookup_insert_eq. lia. }
    split.
    { rewrite <- (Nat.min_l oi (S oi)) by lia.
      rewrite <- take_take, Htake, take_take, Nat.min_l by lia.
      apply take_insert_ge. lia. }
    rewrite (drop_S _ _ _ Hv_at). simpl. by rewrite Hval.
Qed.

Lemma obind_eq {A B : Type} (m : option A) (f : A -> option B) v r :
  m = Some v -> f v = r -> m ≫= f = r.
Proof. by intros -> <-. Qed.

Lemma slice_take_eq {A : Type} (l1 l2 : list A) (p k n : nat) :
  take p l1 = take p l2 -> (k + n <= p)%nat ->
  take n (drop k l1) = take n (drop k l2).
Proof.
  intros Hp Hk. rewrite !take_drop_commute.
  replace (take (k + n) l1) with (take (k + n) (take p l1))
    by (rewrite take_take; f_equal; lia).
  replace (take (k + n) l2) with (take (k + n) (take p l2))
    by (rewrite take_take; f_equal; lia).
  by rewrite Hp.
Qed.

Lemma take_take_eq {A : Type} (l1 l2 : list A) (p q : nat) :
  take p l1 = take p l2 -> (q <= p)%nat -> take q l1 = take q l2.
Proof.
  intros Hp Hq. generalize (slice_take_eq l1 l2 p 0 q Hp). simpl. auto.
Qed.

Lemma nn_hidden_values a net (In Hn : nat) :
  known_activation (hidden_activation net) ->
  ninputs net = Z.of_nat In -> nhiddens net = Z.of_nat Hn ->
  forall (n : nat) (i : Z) (h : nn_heap) items (wi ii oi m : nat),
    0 <= i ->
    let nwn := if i =? 0 then In else Hn in
    h !! a = Some {| blk_net := net; blk_items := items |} ->
    (hidden_consumed n nwn Hn <= m)%nat ->
    (wi + m <= ii)%nat -> (ii + nwn = oi)%nat ->
    (oi + n * Hn <= length items)%nat ->
    exists xs ws items' (ii' nw' : nat),
      hidden_values (bias net) (hidden_activation net) n Hn
        (take m (drop wi items)) (take nwn (drop ii items)) = Some (xs, ws) /\
      c_for n i
        (fun i '(c, input) =>
           let nw := if i =? 0 then ninputs net else nhiddens net in
           c' ← nn_layer (bias net) (hidden_activation net) input nw
                  (nhiddens net) c;
           Some (c', ptr_add input nw))
        ({| c_heap := h; c_weight := (a, Z.of_nat wi);
            c_output := (a, Z.of_nat oi) |}, (a, Z.of_nat ii))
      = Some ({| c_heap := <[a := {| blk_net := net; blk_items := items' |}]> h;
                 c_weight := (a, Z.of_nat (wi + hidden_consumed n nwn Hn));
                 c_output := (a, Z.of_nat (oi + n * Hn)) |},
              (a, Z.of_nat ii')) /\
      length items' = length items /\
      take oi items' = take oi items /\
      ws = take (m - hidden_consumed n nwn Hn)
             (drop (wi + hidden_consumed n nwn Hn) items') /\
      xs = take nw' (drop ii' items') /\
      (ii' + nw' = oi + n * Hn)%nat /\
      nw' = (match n with O => nwn | S _ => Hn end) /\
      (wi + m <= ii')%nat.
Proof.
  intros Hact HI HH. induction n as [|n IH];
    intros i h items wi ii oi m Hi nwn Hh Hm Hwi Hio Hlen.
  - exists (take nwn (drop ii items)), (take m (drop wi items)), items, ii, nwn.
    simpl. rewrite insert_id by done. rewrite !Nat.add_0_r, Nat.sub_0_r.
    repeat split; try done; lia.
  - simpl in Hm.
    destruct (nn_layer_values (bias net) (hidden_activation net) ii nwn a net
                Hact Hn h items wi oi m Hh) as (vs & items1 & Hlv & Hl & Hlen1 & Htk1 & Hvs);
      [lia..|].
    assert (Hh1 : (<[a := {| blk_net := net; blk_items := items1 |}]> h) !! a
                  = Some {| blk_net := net; blk_items := items1 |})
      by apply lookup_insert_eq.
    destruct (IH (i + 1) _ items1 (wi + Hn * S nwn)%nat oi (oi + Hn)%nat
                (m - Hn * S nwn)%nat ltac:(lia) Hh1)
      as (xs & ws & items' & ii' & nw' & Hhv & Hloop & Hlen' & Htk' & Hws & Hxs
          & Hii' & Hnw' & Hwi');
      try (destruct (Z.eqb_spec (i + 1) 0); [lia|]);
      try (destruct n; simpl; lia); try lia.
    destruct (Z.eqb_spec (i + 1) 0) as [|_]; [lia|].
    assert (Hc' : hidden_consumed n Hn Hn = (n * (Hn * S Hn))%nat)
      by (destruct n; simpl; lia).
    rewrite Hc' in *.
    exists xs, ws, items', ii', nw'.
    split; [|split; [|split; [|split; [|split; [|split; [|split; [|split]]]]]]].
    + simpl. rewrite Hlv. simpl.
      rewrite drop_take_slice by lia. rewrite drop_drop.
      rewrite <- Hvs.
      rewrite <- (slice_take_eq items1 items oi (wi + Hn * S nwn)
                    (m - Hn * S nwn) Htk1) by lia.
      exact Hhv.
    + simpl.
      replace (if i =? 0 then ninputs net else nhiddens net)
        with (Z.of_nat nwn)
        by (subst nwn; destruct (i =? 0); congruence).
      rewrite HH. rewrite Hl. simpl.
      change (ptr_add (a, Z.of_nat ii) (Z.of_nat nwn))
        with (a, Z.of_nat ii + Z.of_nat nwn).
      replace (Z.of_nat ii + Z.of_nat nwn) with (Z.of_nat oi) by lia.
      rewrite <- HH. etransitivity; [exact Hloop|]. rewrite insert_insert_eq.
      do 3 f_equal; f_equal; f_equal; lia.
    + lia.
    + rewrite <- Htk1. apply (take_take_eq _ _ (oi + Hn)); [done|lia].
    + rewrite Hws. unfold hidden_consumed. f_equal; [lia|f_equal; lia].
    + done.
    + lia.
    + by destruct n.
    + lia.
Qed.

Lemma read_floats_exact (h : nn_heap) a net items (base n : nat) :
  h !! a = Some {| blk_net := net; blk_items := items |} ->
  (base + n <= length items)%nat ->
  read_floats h (a, Z.of_nat base) (Z.of_nat n)
  = Some (take n (drop base items)).
Proof.
  intros Hh Hlen. unfold read_floats. rewrite Nat2Z.id.
  apply mapM_Some_2. apply Forall2_same_length_lookup_2.
  - rewrite length_seq, length_take, length_drop. lia.
  - intros k x y Hx Hy. apply lookup_seq in Hx as [-> Hk]. simpl.
    change (ptr_add (a, Z.of_nat base) (Z.of_nat k))
      with (a, Z.of_nat base + Z.of_nat k).
    replace (Z.of_nat base + Z.of_nat k) with (Z.of_nat (base + k)) by lia.
    rewrite (load_nat h a net items _ Hh).
    rewrite lookup_take_lt in Hy by done. by rewrite lookup_drop in Hy.
Qed.

Lemma copy_inputs_exact (h : nn_heap) a net items (base n : nat) inputs :
  h !! a = Some {| blk_net := net; blk_items := items |} ->
  (base + n <= length items)%nat -> (n <= length inputs)%nat ->
  exists items',
    copy_inputs (a, Z.of_nat base) inputs (Z.of_nat n) h
    = Some (<[a := {| blk_net := net; blk_items := items' |}]> h) /\
    length items' = length items /\
    take base items' = take base items /\
    take n (drop base items') = take n inputs /\
    drop (base + n) items' = drop (base + n) items.
Proof.
  intros Hh Hlen Hin.
  destruct (copy_inputs_spec h a net items (Z.of_nat base) inputs (Z.of_nat n) Hh)
    as (items' & Hc & Hl & Hsame & Hval); [lia..|].
  exists items'. split; [done|]. split; [done|].
  split; [|split].
  - apply list_eq. intros k. destruct (decide (k < base)%nat).
    + rewrite !lookup_take_lt by done. apply Hsame. lia.
    + rewrite !lookup_take_ge by lia. done.
  - apply list_eq. intros k. destruct (decide (k < n)%nat).
    + rewrite !lookup_take_lt by done. rewrite lookup_drop.
      rewrite <- (Hval k) by lia. by rewrite Nat2Z.id.
    + rewrite !lookup_take_ge by lia. done.
  - apply list_eq. intros k. rewrite !lookup_drop. apply Hsame. lia.
Qed.

Lemma weight_count_of_nat (In Hn On Ln : nat) :
  weight_count (Z.of_nat In) (Z.of_nat Hn) (Z.of_nat On) (Z.of_nat Ln)
  = Z.of_nat (weight_count_nat In Hn On Ln).
Proof.
  unfold weight_count, weight_count_nat. destruct Ln as [|n].
  - simpl hidden_consumed. change (0 <? Z.of_nat 0) with false. cbv iota.
    rewrite Nat.add_0_l, Nat2Z.inj_mul, Nat2Z.inj_succ. ring.
  - destruct (Z.ltb_spec 0 (Z.of_nat (S n))); [|lia].
    unfold hidden_consumed.
    rewrite !Nat2Z.inj_add, !Nat2Z.inj_mul, !Nat2Z.inj_succ. ring.
Qed.

Lemma nn_ffnet_run_forward (h : nn_heap) a net items inputs :
  h !! a = Some {| blk_net := net; blk_items := items |} ->
  nn_wf a {| blk_net := net; blk_items := items |} ->
  ninputs net <= Z.of_nat (length inputs) ->
  exists outs items',
    forward net (take (Z.to_nat (nweights net)) items)
      (take (Z.to_nat (ninputs net)) inputs) = Some outs /\
    nn_ffnet_run a inputs h
    = Some ((a, nweights net + ninputs net + nhiddens net * nhidden_layers net),
            <[a := {| blk_net := net; blk_items := items' |}]> h) /\
    nn_outputs a inputs h = Some outs /\
    length outs = Z.to_nat (noutputs net) /\
    length items' = length items /\
    take (Z.to_nat (nweights net)) items'
    = take (Z.to_nat (nweights net)) items /\
    take (Z.to_nat (ninputs net)) (drop (Z.to_nat (nweights net)) items')
    = take (Z.to_nat (ninputs net)) inputs.
Proof.
  intros Hh [Htop HW HN Hwp Hop Hlen _ Hha Hoa] Hin. simpl in *.
  destruct Htop as (HI & HO & HH & HL & HHL).
  remember (Z.to_nat (ninputs net)) as In eqn:EIn.
  remember (Z.to_nat (nhiddens net)) as Hn eqn:EHn.
  remember (Z.to_nat (noutputs net)) as On eqn:EOn.
  remember (Z.to_nat (nhidden_layers net)) as Ln eqn:ELn.
  assert (HIn : ninputs net = Z.of_nat In) by lia.
  assert (HHn : nhiddens net = Z.of_nat Hn) by lia.
  assert (HOn : noutputs net = Z.of_nat On) by lia.
  assert (HLn : nhidden_layers net = Z.of_nat Ln) by lia.
  rewrite HIn, HHn, HOn, HLn in HW, HN.
  rewrite weight_count_of_nat in HW. unfold neuron_count in HN.
  set (NW := weight_count_nat In Hn On Ln) in *.
  assert (HLH : (Ln = 0 <-> Hn = 0)%nat) by lia.
  assert (Hlen' : length items = (NW + (In + Hn * Ln + On))%nat) by lia.
  assert (Hc0 : (hidden_consumed Ln In Hn <= NW)%nat)
    by (unfold NW, weight_count_nat; lia).
  destruct (copy_inputs_exact h a net items NW In inputs Hh)
    as (items0 & Hcopy & Hl0 & Htw0 & Hti0 & _); [lia..|].
  assert (Hh0 : (<[a := {| blk_net := net; blk_items := items0 |}]> h) !! a
                = Some {| blk_net := net; blk_items := items0 |})
    by apply lookup_insert_eq.
  destruct (nn_hidden_values a net In Hn Hha HIn HHn Ln 0 _ items0
              0%nat NW (NW + In)%nat NW ltac:(lia) Hh0)
    as (xs & ws & items1 & ii1 & nw1 & Hhv & Hloop & Hl1 & Htk1 & Hws & Hxs
        & Hii1 & Hnw1 & Hwi1); [simpl; lia..|].
  simpl in Hhv, Hloop, Hws, Hnw1, Hii1, Hwi1. rewrite drop_0 in Hhv.
  rewrite insert_insert_eq in Hloop.
  set (h1 := <[a := {| blk_net := net; blk_items := items1 |}]> h) in *.
  assert (Hh1 : h1 !! a = Some {| blk_net := net; blk_items := items1 |})
    by apply lookup_insert_eq.
  set (C := hidden_consumed Ln In Hn) in *.
  assert (HNWC : (NW - C = On * S nw1)%nat)
    by (rewrite Hnw1; unfold NW, weight_count_nat; fold C; lia).
  destruct (nn_layer_values (bias net) (output_activation net) ii1 nw1 a net
              Hoa On h1 items1 C (NW + In + Ln * Hn)%nat (NW - C)%nat Hh1)
    as (outs & items2 & Hlv & Hl & Hl2 & Htk2 & Houts); [lia..|].
  unfold h1 in Hl. rewrite insert_insert_eq in Hl.
  assert (Hrun : nn_ffnet_run_loops a inputs h
    = Some ((a, Z.of_nat (NW + In + Ln * Hn)),
            {| c_heap := <[a := {| blk_net := net; blk_items := items2 |}]> h;
               c_weight := (a, Z.of_nat (C + On * S nw1));
               c_output := (a, Z.of_nat (NW + In + Ln * Hn + On)) |})).
  { unfold nn_ffnet_run_loops. rewrite Hh. simpl. rewrite Hop, Hwp, HW.
    rewrite <- HIn in Hcopy. rewrite <- ELn.
    apply (obind_eq _ _ _ _ Hcopy).
    change (ptr_add (a, Z.of_nat NW) (ninputs net))
      with (a, Z.of_nat NW + ninputs net).
    replace (Z.of_nat NW + ninputs net) with (Z.of_nat (NW + In)) by lia.
    apply (obind_eq _ _ _ _ Hloop). simpl.
    replace (if nhidden_layers net =? 0 then ninputs net else nhiddens net)
      with (Z.of_nat nw1).
    2:{ rewrite Hnw1. destruct Ln; [rewrite HLn; simpl; lia|].
        destruct (Z.eqb_spec (nhidden_layers net) 0); lia. }
    rewrite HOn. apply (obind_eq _ _ _ _ Hl). done. }
  assert (Hrun2 : nn_ffnet_run a inputs h
    = Some ((a, Z.of_nat (NW + In + Ln * Hn)),
            <[a := {| blk_net := net; blk_items := items2 |}]> h)).
  { unfold nn_ffnet_run. rewrite Hh. simpl. rewrite Hrun. simpl.
    rewrite Hwp, Hop, HW, HN. unfold ptr_diff. simpl. rewrite Nat.eqb_refl.
    rewrite !bool_decide_eq_true_2 by (f_equal; lia). done. }
  exists outs, items2.
  split; [|split; [|split; [|split; [|split; [|split]]]]].
  - unfold forward. rewrite HW, Nat2Z.id, <- ?EIn, <- ?ELn, <- ?EHn, <- ?EOn.
    rewrite <- Htw0, <- Hti0. rewrite Hhv. simpl.
    rewrite Hws, Hxs. rewrite Hlv. done.
  - rewrite Hrun2. do 3 f_equal. lia.
  - unfold nn_outputs. rewrite Hh. simpl. rewrite Hrun2. simpl.
    rewrite HOn.
    rewrite (read_floats_exact _ a net items2 _ On
               (lookup_insert_eq _ _ _)) by lia.
    by rewrite Houts.
  - rewrite <- Houts, length_take, length_drop. lia.
  - lia.
  - rewrite HW, Nat2Z.id.
    rewrite (take_take_eq items2 items1 (NW + In + Ln * Hn) NW Htk2) by lia.
    rewrite (take_take_eq items1 items0 (NW + In) NW Htk1) by lia.
    done.
  - rewrite HW, Nat2Z.id.
    rewrite (slice_take_eq items2 items1 (NW + In + Ln * Hn) NW In Htk2) by lia.
    rewrite (slice_take_eq items1 items0 (NW + In) NW In Htk1) by lia.
    done.
Qed.

End Forward.

Section RunExtras.
Context `{Libc}.

Lemma wf_same_net a net items items' :
  nn_wf a {| blk_net := net; blk_items := items |} ->
  length items' = length items ->
  nn_wf a {| blk_net := net; blk_items := items' |}.
Proof.
  intros [? ? ? ? ? Hlen ? ? ?] Hl. split; simpl in *; try done.
  by rewrite Hl.
Qed.

(** X1.  For a well-formed network and at least [ninputs] inputs,
    [nn_ffnet_run] returns, and the [noutputs] floats behind the returned
    pointer are the values of [forward]: layer after layer, each neuron is
    the activation of its first weight times the bias plus, from the left,
    each further weight times a value of the layer before, computed from
    the weights and the first [ninputs] inputs alone. *)
Theorem nn_ffnet_run_function (h : nn_heap) a net items inputs :
  h !! a = Some {| blk_net := net; blk_items := items |} ->
  nn_wf a {| blk_net := net; blk_items := items |} ->
  ninputs net <= Z.of_nat (length inputs) ->
  exists outs,
    forward net (take (Z.to_nat (nweights net)) items)
      (take (Z.to_nat (ninputs net)) inputs) = Some outs /\
    nn_outputs a inputs h = Some outs /\
    length outs = Z.to_nat (noutputs net).
Proof.
  intros Hh Hwf Hin.
  destruct (nn_ffnet_run_forward h a net items inputs Hh Hwf Hin)
    as (outs & items' & Hf & _ & Ho & Hl & _).
  by exists outs.
Qed.

(** X2.  A run of a well-formed network returns the pointer
    [output + ninputs + nhiddens * nhidden_layers], changes no other
    block, leaves the struct and every weight as they were, keeps the
    network well formed, and leaves the first [ninputs] inputs at the
    start of the neurons. *)
Theorem nn_ffnet_run_frame (h : nn_heap) a net items inputs :
  h !! a = Some {| blk_net := net; blk_items := items |} ->
  nn_wf a {| blk_net := net; blk_items := items |} ->
  ninputs net <= Z.of_nat (length inputs) ->
  exists items',
    nn_ffnet_run a inputs h
    = Some ((a, nweights net + ninputs net + nhiddens net * nhidden_layers net),
            <[a := {| blk_net := net; blk_items := items' |}]> h) /\
    nn_wf a {| blk_net := net; blk_items := items' |} /\
    take (Z.to_nat (nweights net)) items'
    = take (Z.to_nat (nweights net)) items /\
    take (Z.to_nat (ninputs net)) (drop (Z.to_nat (nweights net)) items')
    = take (Z.to_nat (ninputs net)) inputs.
Proof.
  intros Hh Hwf Hin.
  destruct (nn_ffnet_run_forward h a net items inputs Hh Hwf Hin)
    as (outs & items' & _ & Hr & _ & _ & Hl & Hw & Hi).
  exists items'. split; [done|]. split; [|done].
  by apply (wf_same_net a net items).
Qed.

(** X3.  What a run of a well-formed network outputs does not depend on
    the runs before it: after a run on any [earlier] inputs, a run on
    [inputs] outputs what it outputs on the network as it was. *)
Theorem nn_ffnet_run_again (h h' : nn_heap) a net items earlier inputs r :
  h !! a = Some {| blk_net := net; blk_items := items |} ->
  nn_wf a {| blk_net := net; blk_items := items |} ->
  ninputs net <= Z.of_nat (length earlier) ->
  ninputs net <= Z.of_nat (length inputs) ->
  nn_ffnet_run a earlier h = Some (r, h') ->
  is_Some (nn_outputs a inputs h) /\
  nn_outputs a inputs h' = nn_outputs a inputs h.
Proof.
  intros Hh Hwf Hearlier Hin Hrun.
  destruct (nn_ffnet_run_forward h a net items earlier Hh Hwf Hearlier)
    as (_ & items1 & _ & Hr & _ & _ & Hl1 & Hw1 & _).
  rewrite Hr in Hrun. injection Hrun as _ <-.
  destruct (nn_ffnet_run_forward h a net items inputs Hh Hwf Hin)
    as (outs & _ & Hf & _ & Ho & _).
  destruct (nn_ffnet_run_forward
              (<[a := {| blk_net := net; blk_items := items1 |}]> h)
              a net items1 inputs (lookup_insert_eq _ _ _)
              (wf_same_net a net items items1 Hwf Hl1) Hin)
    as (outs' & _ & Hf' & _ & Ho' & _).
  rewrite Hw1, Hf in Hf'. rewrite Ho, Ho'. split; [by eexists|].
  congruence.
Qed.

(** X8.  [nn_ffnet_set_activations] followed by [nn_ffnet_set_bias]
    replaces the two selectors and the bias in the struct and nothing
    else, and the next run computes [forward] with the new selectors and
    the new bias on the weights as they were. *)
Theorem nn_ffnet_set_then_run (h : nn_heap) a net items hid out b inputs :
  h !! a = Some {| blk_net := net; blk_items := items |} ->
  nn_wf a {| blk_net := net; blk_items := items |} ->
  known_activation hid -> known_activation out ->
  ninputs net <= Z.of_nat (length inputs) ->
  exists h1 h2,
    nn_ffnet_set_activations a hid out h = Some h1 /\
    nn_ffnet_set_bias a b h1 = Some h2 /\
    h2 = <[a := {| blk_net := with_bias b (with_activations hid out net);
                   blk_items := items |}]> h /\
    is_Some (nn_outputs a inputs h2) /\
    nn_outputs a inputs h2
    = forward (with_bias b (with_activations hid out net))
        (take (Z.to_nat (nweights net)) items)
        (take (Z.to_nat (ninputs net)) inputs).
Proof.
  intros Hh Hwf Hhid Hout Hin.
  unfold nn_ffnet_set_activations, nn_ffnet_set_bias. rewrite Hh. simpl.
  eexists. eexists. split; [done|]. rewrite lookup_insert_eq. simpl.
  split; [done|]. rewrite insert_insert_eq. split; [done|].
  set (net' := with_bias b (with_activations hid out net)).
  assert (Hwf' : nn_wf a {| blk_net := net'; blk_items := items |}).
  { destruct Hwf. by split. }
  destruct (nn_ffnet_run_forward
              (<[a := {| blk_net := net'; blk_items := items |}]> h)
              a net' items inputs (lookup_insert_eq _ _ _) Hwf' Hin)
    as (outs & _ & Hf & _ & Ho & _).
  change (nweights net) with (nweights net').
  change (ninputs net) with (ninputs net').
  rewrite Ho, Hf. split; [by eexists|done].
Qed.

(** X7.  [nn_ffnet_randomize] on a well-formed network of at most
    [INT_MAX] weights calls [rand] once per weight, in order: weight [k]
    is [nn_rand] of draw number [k], the generator is left in its state
    after [nweights] draws, and the struct, the neurons and the other
    blocks are unchanged.  With more weights the [int] counter of the
    loop overflows. *)
Theorem nn_ffnet_randomize_draws (a : addr) (h : nn_heap) (rs : rand_state)
    net items :
  h !! a = Some {| blk_net := net; blk_items := items |} ->
  nn_wf a {| blk_net := net; blk_items := items |} ->
  (INT_MAX < nweights net -> nn_ffnet_randomize a (h, rs) = None) /\
  (nweights net <= INT_MAX ->
   exists items',
     nn_ffnet_randomize a (h, rs)
     = Some (<[a := {| blk_net := net; blk_items := items' |}]> h,
             rand_after (Z.to_nat (nweights net)) rs) /\
     length items' = length items /\
     drop (Z.to_nat (nweights net)) items'
     = drop (Z.to_nat (nweights net)) items /\
     forall k : nat, (k < Z.to_nat (nweights net))%nat ->
       items' !! k = nn_rand (rand (rand_after k rs)).1 rand_start rand_end).
Proof.
  intros Hb Hwf.
  pose proof Hwf as [Htop HW HN Hwp _ Hit _ _ _]. simpl in *.
  destruct (counts_nonneg _ _ _ _ Htop) as [HW0 HN0].
  rewrite <- HW in HW0. rewrite <- HN in HN0.
  unfold nn_ffnet_randomize.
  with_strategy opaque [nn_rand] simpl. rewrite Hb.
  with_strategy opaque [nn_rand] simpl.
  split; intros Hint.
  { destruct (Z.ltb_spec INT_MAX (nweights net)); [done|lia]. }
  destruct (Z.ltb_spec INT_MAX (nweights net)); [lia|].
  rewrite Hwp.
  match goal with
  | |- context [c_for ?cnt ?i0 ?body ?s0] =>
    destruct (c_for_inv
      (fun i (st : nn_heap * rand_state) =>
         exists items1,
           st = (<[a := {| blk_net := net; blk_items := items1 |}]> h,
                 rand_after (Z.to_nat i) rs) /\
           length items1 = length items /\
           drop (Z.to_nat i) items1 = drop (Z.to_nat i) items /\
           forall k : nat, (k < Z.to_nat i)%nat ->
             items1 !! k
             = nn_rand (rand (rand_after k rs)).1 rand_start rand_end)
      body cnt i0 s0) as (st' & Hrun & items' & -> & Hlen & Hdrop & Hall)
  end.
  - exists items. split; [by rewrite insert_id|]. split; [done|].
    split; [done|]. intros k Hk. simpl in Hk. lia.
  - intros j st Hj (items1 & -> & Hlen1 & Hdrop1 & Hall1).
    rewrite Z2Nat.id in Hj by lia. cbv beta iota.
    destruct (rand (rand_after (Z.to_nat j) rs)) as [r rs1'] eqn:Hr.
    assert (Hv : exists v, nn_rand r rand_start rand_end = Some v).
    { unfold nn_rand. change (F32.ltb rand_start rand_end) with true.
      cbv beta iota zeta. by eexists. }
    destruct Hv as [v Hv]. rewrite Hv. simpl.
    change (ptr_add (a, 0) j) with (a, 0 + j). rewrite Z.add_0_l.
    rewrite (store_at _ a net items1 j v (lookup_insert_eq _ _ _)) by lia.
    simpl. eexists. split; [done|].
    exists (<[Z.to_nat j := v]> items1).
    replace (Z.to_nat (j + 1)) with (S (Z.to_nat j)) by lia.
    split; [|split; [|split]].
    + rewrite insert_insert_eq. f_equal. simpl. by rewrite Hr.
    + by rewrite length_insert.
    + rewrite drop_insert_lt by lia.
      replace (S (Z.to_nat j)) with (Z.to_nat j + 1)%nat by lia.
      rewrite <- !drop_drop. by rewrite Hdrop1.
    + intros k Hk. destruct (decide (k = Z.to_nat j)) as [->|Hne].
      * rewrite list_lookup_insert_eq by lia. by rewrite Hr.
      * rewrite list_lookup_insert_ne by done. apply Hall1. lia.
  - exists items'. rewrite Z.add_0_l, Nat2Z.id in *. done.
Qed.

(** X10.  With a [malloc] that returns fresh blocks, destroying the copy
    that [nn_ffnet_copy] returns gives the memory back as it was, and
    destroying the original instead leaves a copy that still runs and
    outputs what the original did. *)
Theorem nn_ffnet_copy_destroy (h : nn_heap) a net items :
  malloc_fresh ->
  h !! a = Some {| blk_net := net; blk_items := items |} ->
  nn_wf a {| blk_net := net; blk_items := items |} ->
  exists b h1 h2,
    nn_ffnet_copy a h = Some (b, h1) /\
    h !! b = None /\
    nn_ffnet_destroy b h1 = Some h /\
    nn_ffnet_destroy a h1 = Some h2 /\
    h2 !! a = None /\
    forall inputs, ninputs net <= Z.of_nat (length inputs) ->
      is_Some (nn_outputs b inputs h2) /\
      nn_outputs b inputs h2 = nn_outputs a inputs h.
Proof.
  intros Hfresh Hh Hwf.
  destruct (nn_ffnet_copy_spec h a net items Hh Hwf) as [Hc Hwfb].
  set (b := malloc (dom h)) in *.
  assert (Hb : h !! b = None) by (apply not_elem_of_dom, Hfresh).
  assert (Hba : b <> a) by (intros ->; congruence).
  set (netb := nn_ffnet_set_pointers b net) in *.
  set (h1 := <[b := {| blk_net := netb; blk_items := items |}]> h) in *.
  exists b, h1, (delete a h1).
  split; [done|]. split; [done|].
  unfold nn_ffnet_destroy, h1.
  rewrite lookup_insert_eq, lookup_insert_ne, Hh by done. simpl.
  split; [by rewrite delete_insert_id|]. split; [done|].
  split; [apply lookup_delete_eq|].
  intros inputs Hin.
  assert (Hb2 : delete a (<[b := {| blk_net := netb; blk_items := items |}]> h)
                !! b = Some {| blk_net := netb; blk_items := items |}).
  { rewrite lookup_delete_ne by done. apply lookup_insert_eq. }
  destruct (nn_ffnet_run_forward _ b netb items inputs Hb2 Hwfb Hin)
    as (outs & _ & Hf & _ & Ho & _).
  destruct (nn_ffnet_run_forward h a net items inputs Hh Hwf Hin)
    as (outs' & _ & Hf' & _ & Ho' & _).
  rewrite Ho, Ho'. split; [by eexists|].
  change (forward net (take (Z.to_nat (nweights net)) items)
            (take (Z.to_nat (ninputs net)) inputs) = Some outs) in Hf.
  congruence.
Qed.

End RunExtras.

(** ** Witnesses and counterexamples on the concrete C library *)

#[local] Existing Instance libc_model.
#[local] Existing Instance collaborators_model.

Lemma libc_model_exp_zero : exp_zero_one.
Proof. intros []; reflexivity. Defined.

Lemma libc_model_malloc_fresh : malloc_fresh.
Proof. intros live. apply is_fresh. Defined.

Lemma valid_2_3_2_2 : valid_topology 2 3 2 2.
Proof. unfold valid_topology. lia. Defined.

Lemma fits_2_3_2_2 : fits 2 3 2 2.
Proof. unfold fits. vm_compute. discriminate. Defined.

Lemma nn_ffnet_counts_witness :
  valid_topology 2 3 2 2 /\ fits 2 3 2 2 /\
  exists a net items,
    nn_ffnet_create 2 3 2 2 ∅ =
      Some (a, <[a := {| blk_net := net; blk_items := items |}]> ∅) /\
    nweights net = 29 /\ nneurons net = 10.
Proof.
  split; [exact valid_2_3_2_2|]. split; [exact fits_2_3_2_2|].
  destruct (nn_ffnet_counts 2 3 2 2 valid_2_3_2_2 fits_2_3_2_2) as [Hc Hr].
  destruct (Hc ∅) as (a & net & items & Hcreate & HI & HH & HO & HL & Hwf).
  exists a, net, items. split; [exact Hcreate|].
  destruct Hwf as [_ HW HN _ _ _ _ _ _]. simpl in HW, HN.
  rewrite HI, HH, HO, HL in HW, HN. split; [exact HW|exact HN].
Defined.

Lemma nn_ffnet_counts_overflow :
  valid_topology (2 ^ 32) (2 ^ 32) 1 1 /\
  exists a h' net items,
    nn_ffnet_create (2 ^ 32) (2 ^ 32) 1 1 ∅ = Some (a, h') /\
    h' !! a = Some {| blk_net := net; blk_items := items |} /\
    nweights net = 2 ^ 33 + 1 /\
    weight_count (2 ^ 32) (2 ^ 32) 1 1 = 2 ^ 64 + 2 ^ 33 + 1 /\
    nweights net <> weight_count (2 ^ 32) (2 ^ 32) 1 1.
Proof.
  split; [unfold valid_topology; lia|].
  destruct (nn_ffnet_create_is_Some (2 ^ 32) (2 ^ 32) 1 1 ∅) as [[a h'] Hc];
    [lia|lia|reflexivity|by vm_compute|].
  destruct (nn_ffnet_create_fields _ _ _ _ _ _ _ Hc) as (net & items & Hl & HW & _).
  exists a, h', net, items. split; [done|]. split; [done|].
  rewrite HW. by vm_compute.
Qed.

Lemma relu_zero_block_wf : nn_wf 0 relu_zero_block.
Proof.
  constructor; simpl; try done; try (unfold valid_topology; lia).
Defined.

Lemma nn_outputs_zero_witness :
  exists outs,
    nn_outputs 0%nat [F32.of_Z 3] relu_zero_heap = Some outs /\
    length outs = 1%nat /\ Forall (zero_value NN_ACTIVATION_RELU) outs.
Proof.
  apply (nn_outputs_zero relu_zero_heap 0%nat relu_zero_net
           (replicate 4 (S754_zero false)) [F32.of_Z 3]).
  - reflexivity.
  - exact relu_zero_block_wf.
  - exact libc_model_exp_zero.
  - simpl. repeat constructor.
  - reflexivity.
  - simpl. lia.
  - simpl. repeat constructor.
Defined.

Lemma nn_outputs_zero_infinite_input :
  relu_zero_heap !! 0%nat = Some relu_zero_block /\
  nn_wf 0 relu_zero_block /\
  Forall (fun w => is_zero w = true) (blk_items relu_zero_block) /\
  is_zero (bias relu_zero_net) = true /\
  nn_outputs 0%nat [S754_infinity false] relu_zero_heap
    = Some [S754_nan] /\
  ~ zero_value NN_ACTIVATION_RELU S754_nan.
Proof.
  split; [reflexivity|]. split; [exact relu_zero_block_wf|].
  split; [repeat constructor|]. split; [reflexivity|].
  split; [by vm_compute|]. simpl. discriminate.
Qed.

Lemma nn_ffnet_create_fresh_witness :
  valid_topology 2 3 2 2 /\ fits 2 3 2 2 /\ exp_zero_one /\
  exists a h1 outs,
    nn_ffnet_create 2 3 2 2 ∅ = Some (a, h1) /\
    nn_outputs a [F32.of_Z 1; F32.of_Z 2] h1 = Some outs /\
    Forall (fun v => v = f_half) outs.
Proof.
  split; [exact valid_2_3_2_2|]. split; [exact fits_2_3_2_2|].
  split; [exact libc_model_exp_zero|].
  destruct (nn_ffnet_create_fresh 2 3 2 2 ∅ valid_2_3_2_2 fits_2_3_2_2
              libc_model_exp_zero)
    as (a & net & items & Hc & _ & _ & _ & _ & Hrun).
  destruct (Hrun [F32.of_Z 1; F32.of_Z 2]) as (outs & Ho & _ & Hv).
  - simpl. lia.
  - simpl. repeat constructor.
  - exists a, (<[a := {| blk_net := net; blk_items := items |}]> ∅), outs.
    split; [exact Hc|]. split; [exact Ho|exact Hv].
Defined.

Lemma nn_ffnet_create_fresh_infinite_input :
  valid_topology 1 0 1 0 /\
  exists a h1,
    nn_ffnet_create 1 0 1 0 ∅ = Some (a, h1) /\
    nn_outputs a [S754_infinity false] h1 = Some [S754_nan] /\
    S754_nan <> f_half.
Proof.
  split; [unfold valid_topology; lia|].
  eexists _, _. split; [by vm_compute|]. split; [by vm_compute|done].
Qed.

Lemma nn_ffnet_copy_independent_witness :
  malloc_fresh /\ nn_wf 0 relu_zero_block /\
  exists b h1,
    nn_ffnet_copy 0%nat relu_zero_heap = Some (b, h1) /\
    b <> 0%nat /\
    h1 = <[b := {| blk_net := nn_ffnet_set_pointers b relu_zero_net;
                   blk_items := replicate 4 (S754_zero false) |}]>
           relu_zero_heap /\
    forall inputs,
      nn_outputs b inputs h1 = nn_outputs 0%nat inputs relu_zero_heap.
Proof.
  split; [exact libc_model_malloc_fresh|]. split; [exact relu_zero_block_wf|].
  destruct (nn_ffnet_copy_independent relu_zero_heap 0%nat
              relu_zero_net (replicate 4 (S754_zero false))
              libc_model_malloc_fresh eq_refl relu_zero_block_wf)
    as (b & h1 & Hc & Hne & _ & Hh1 & _ & Hsame & _).
  exists b, h1. split; [exact Hc|]. split; [exact Hne|].
  split; [exact Hh1|exact Hsame].
Defined.

Lemma libc_model_rand_max_pow2 : rand_max_pow2.
Proof. exists 31. split; [lia|reflexivity]. Defined.

Lemma libc_model_rand_in_range : rand_in_range.
Proof.
  intros rs. simpl.
  pose proof (Z.mod_pos_bound (rs * 1103515245 + 12345) (2 ^ 31) eq_refl).
  lia.
Defined.

Lemma valid_1_0_1_0 : valid_topology 1 0 1 0.
Proof. unfold valid_topology. lia. Defined.

Lemma fits_1_0_1_0 : fits 1 0 1 0.
Proof. unfold fits. by vm_compute. Defined.

Lemma nn_ffnet_randomize_range_witness :
  rand_max_pow2 /\ rand_in_range /\
  exists a h blk h' rs',
    nn_ffnet_create 1 0 1 0 ∅ = Some (a, h) /\
    h !! a = Some blk /\ nn_wf a blk /\ nweights (blk_net blk) <= INT_MAX /\
    nn_ffnet_randomize a (h, 1) = Some (h', rs') /\
    forall i, 0 <= i < nweights (blk_net blk) ->
      exists w, load h' (ptr_add (weight (blk_net blk)) i) = Some w /\
                in_closed_range rand_start rand_end w.
Proof.
  split; [exact libc_model_rand_max_pow2|].
  split; [exact libc_model_rand_in_range|].
  destruct (nn_ffnet_create_spec 1 0 1 0 ∅ valid_1_0_1_0 fits_1_0_1_0)
    as [Hc Hwf].
  match type of Hwf with nn_wf ?a ?blk =>
    assert (Hl : (<[a := blk]> (∅ : nn_heap)) !! a = Some blk)
      by apply lookup_insert_eq;
    assert (Hint : nweights (blk_net blk) <= INT_MAX) by (by vm_compute);
    destruct (@nn_ffnet_randomize_range libc_model a (<[a := blk]> ∅) 1 blk
                libc_model_rand_max_pow2 libc_model_rand_in_range
                Hl Hwf Hint) as (h' & rs' & Hrun & Hall);
    exists a, (<[a := blk]> ∅), blk, h', rs'
  end.
  split; [exact Hc|]. split; [exact Hl|]. split; [exact Hwf|].
  split; [exact Hint|]. split; [exact Hrun|exact Hall].
Defined.

Lemma nn_ffnet_randomize_half :
  (rand seed_max).1 = RAND_MAX /\
  exists a h h' rs',
    nn_ffnet_create 1 0 1 0 ∅ = Some (a, h) /\
    nn_ffnet_randomize a (h, seed_max) = Some (h', rs') /\
    load h' (a, 0) = Some rand_end /\
    F32.ltb rand_end rand_end = false.
Proof.
  split; [by vm_compute|].
  eexists _, _, _, _. split; [by vm_compute|]. split; [by vm_compute|].
  split; by vm_compute.
Qed.

Ltac world_compute := apply world_ext; by vm_compute.

Lemma world_created_2_eq : neat_create config_2 ∅ 1 = Some world_created_2.
Proof. world_compute. Defined.

Lemma world_2_eq : neat_sample config_2 calls_2 = Some world_2.
Proof. world_compute. Defined.

Lemma world_flt_max_eq :
  neat_sample config_1 calls_flt_max = Some world_flt_max.
Proof. world_compute. Defined.

Lemma neat_sample_wf (config : neat_config) (cs : list neat_call)
    (w : world) :
  neat_sample config cs = Some w -> pop_wf w.
Proof.
  unfold neat_sample. intros Hs.
  match type of Hs with
  | ?c ≫= _ = _ => destruct c as [w0|] eqn:Hc; [|done]
  end.
  simpl in Hs.
  destruct (neat_create_wf config ∅ _ w0 libc_model_malloc_fresh Hc)
    as [Hwf _].
  by destruct (neat_do_all_slots cs w0 w libc_model_malloc_fresh Hwf Hs).
Defined.

Lemma world_2_wf : pop_wf world_2.
Proof. exact (neat_sample_wf config_2 calls_2 world_2 world_2_eq). Defined.

Lemma neat_select_reproduction_species_spec_witness :
  nspecies (w_pop world_2) = Z.of_nat (length (species (w_pop world_2))) /\
  rand_max_pow2 /\ rand_in_range /\
  in_closed_range (F32.of_Z 0) f_one
    (unit_random (rand (w_rand world_2)).1) /\
  neat_select_reproduction_species 1 world_2 =
    match roulette (species_share world_2) (species (w_pop world_2)) 0
            (unit_random (rand (w_rand world_2)).1) with
    | Some (_, s) =>
        neat_reproduce s 1 (with_rand (rand (w_rand world_2)).2 world_2)
    | None => Some (with_rand (rand (w_rand world_2)).2 world_2)
    end.
Proof.
  assert (Hn : nspecies (w_pop world_2)
               = Z.of_nat (length (species (w_pop world_2))))
    by reflexivity.
  destruct (neat_select_reproduction_species_spec 1 world_2 Hn
              libc_model_rand_max_pow2 libc_model_rand_in_range)
    as (Hr & _ & Hsel & _).
  split; [exact Hn|]. split; [exact libc_model_rand_max_pow2|].
  split; [exact libc_model_rand_in_range|]. split; [exact Hr|exact Hsel].
Defined.

Lemma neat_select_reproduction_species_edges :
  ((rand seed_max).1 = RAND_MAX /\
   unit_random (rand seed_max).1 = f_one /\
   F32.ltb (unit_random (rand seed_max).1) f_one = false) /\
  neat_create config_2 ∅ 1 = Some world_created_2 /\
  species (w_pop world_created_2) = [species_sample [0%nat]] /\
  species_share world_created_2 (species_sample [0%nat]) = S754_nan /\
  F32.leb (unit_random (rand (w_rand world_created_2)).1)
    (species_share world_created_2 (species_sample [0%nat])) = false /\
  roulette (species_share world_created_2)
    (species (w_pop world_created_2)) 0
    (unit_random (rand (w_rand world_created_2)).1)
  = Some (0, species_sample [0%nat]) /\
  neat_select_reproduction_species 1 world_created_2 =
    neat_reproduce (species_sample [0%nat]) 1
      (with_rand (rand (w_rand world_created_2)).2 world_created_2).
Proof.
  split; [split; [|split]; by vm_compute|].
  split; [exact world_created_2_eq|]. split; [reflexivity|].
  split; [by vm_compute|]. split; [by vm_compute|].
  split; [by vm_compute|]. world_compute.
Qed.

Lemma world_2_worst : neat_find_worst_fitness world_2 0 = Some (true, 1).
Proof. by vm_compute. Defined.

Lemma neat_find_worst_fitness_spec_witness :
  pop_wf world_2 /\
  neat_find_worst_fitness world_2 0 = Some (true, 1) /\
  first_minimum world_2 1 /\
  neat_epoch world_2 =
    neat_select_reproduction_species 1 (detach world_2 1%nat).
Proof.
  split; [exact world_2_wf|]. split; [exact world_2_worst|].
  destruct (neat_find_worst_fitness_spec world_2 world_2_wf)
    as [(worst & wg & Hf & Hmin & Hwg & He)|(worst & Hf & _)];
    rewrite world_2_worst in Hf; [|discriminate].
  injection Hf as <-. injection Hwg as <-. split; [exact Hmin|exact He].
Defined.

Lemma neat_find_worst_fitness_flt_max :
  neat_sample config_1 calls_flt_max = Some world_flt_max /\
  pop_wf world_flt_max /\
  genome_at world_flt_max 0 = Some (genome_sample FLT_MAX 1) /\
  genome_minimum_ticks_alive (conf (w_pop world_flt_max))
    < time_alive (genome_sample FLT_MAX 1) /\
  neat_find_worst_fitness world_flt_max 0 = Some (false, 0) /\
  neat_epoch world_flt_max = Some world_flt_max.
Proof.
  split; [exact world_flt_max_eq|].
  split; [exact (neat_sample_wf _ _ _ world_flt_max_eq)|].
  split; [by vm_compute|]. split; [by vm_compute|].
  split; [by vm_compute|]. world_compute.
Qed.

Lemma neat_create_spec_witness :
  0 < population_size config_2 /\
  sizeof_pointer * population_size config_2 <= SIZE_MAX /\
  malloc_fresh /\
  exists w a0 s,
    neat_create config_2 ∅ 1 = Some w /\
    ngenomes (w_pop w) = 2 /\
    genomes (w_pop w) !! 0%nat = Some a0 /\
    nspecies (w_pop w) = 1 /\
    species (w_pop w) = [s] /\
    s_genomes s = [a0] /\
    (forall (i : nat) ga, (1 <= i)%nat -> genomes (w_pop w) !! i = Some ga ->
       ga ∉ s_genomes s).
Proof.
  assert (HN : 0 < population_size config_2) by (by vm_compute).
  assert (Hsz : sizeof_pointer * population_size config_2 <= SIZE_MAX)
    by (by vm_compute).
  split; [exact HN|]. split; [exact Hsz|].
  split; [exact libc_model_malloc_fresh|].
  destruct (@neat_create_spec libc_model collaborators_model config_2 ∅ 1
              HN Hsz libc_model_malloc_fresh)
    as (w & a0 & g0 & rs' & s & Hc & _ & Hn & _ & _ & _ & Ha0 & _ & _ & Hns &
        Hsp & Hmem & Hrep & Hother).
  exists w, a0, s. split; [exact Hc|]. split; [exact Hn|].
  split; [exact Ha0|]. split; [exact Hns|]. split; [exact Hsp|].
  split; [exact Hmem|exact Hother].
Defined.

Lemma neat_create_species_base_only :
  0 < population_size config_2 /\
  neat_create config_2 ∅ 1 = Some world_created_2 /\
  genomes (w_pop world_created_2) = [0%nat; 1%nat] /\
  species (w_pop world_created_2) = [species_sample [0%nat]] /\
  s_genomes (species_sample [0%nat]) = [0%nat] /\
  1%nat ∉ s_genomes (species_sample [0%nat]).
Proof.
  split; [by vm_compute|]. split; [exact world_created_2_eq|].
  split; [reflexivity|]. split; [reflexivity|]. split; [reflexivity|].
  simpl. intros Hin. apply list_elem_of_singleton in Hin. discriminate.
Qed.

Lemma world_2_epoch_eq :
  neat_do_all (calls_2 ++ [call_epoch]) world_created_2 = Some world_2_epoch.
Proof. world_compute. Defined.

Lemma genome_count_constant_witness :
  malloc_fresh /\
  neat_create config_2 ∅ 1 = Some world_created_2 /\
  neat_do_all (calls_2 ++ [call_epoch]) world_created_2 = Some world_2_epoch /\
  ngenomes (w_pop world_2_epoch) = population_size config_2 /\
  Z.of_nat (length (genomes (w_pop world_2_epoch)))
  = population_size config_2.
Proof.
  split; [exact libc_model_malloc_fresh|].
  split; [exact world_created_2_eq|]. split; [exact world_2_epoch_eq|].
  destruct (@genome_count_constant libc_model collaborators_model
              config_2 ∅ 1 world_created_2
              libc_model_malloc_fresh world_created_2_eq
              (calls_2 ++ [call_epoch]) world_2_epoch world_2_epoch_eq)
    as (Hn & Hl & _).
  split; [exact Hn|exact Hl].
Defined.

Lemma world_2_slot : array_get (genomes (w_pop world_2)) 1 = Some 1%nat.
Proof. reflexivity. Defined.

Lemma world_2_selected :
  roulette (species_share (detach world_2 1%nat))
    (species (w_pop (detach world_2 1%nat))) 0
    (unit_random (rand (w_rand world_2)).1)
  = Some (0, species_sample [0%nat]).
Proof. by vm_compute. Defined.

Lemma world_2_crossover :
  F32.ltb (unit_random (rand (rand (w_rand world_2)).2).1)
    (species_crossover_probability (conf (w_pop world_2))) = true.
Proof. by vm_compute. Defined.

Lemma neat_epoch_crossover_witness :
  pop_wf world_2 /\
  neat_find_worst_fitness world_2 0 = Some (true, 1) /\
  array_get (genomes (w_pop world_2)) 1 = Some 1%nat /\
  roulette (species_share (detach world_2 1%nat))
    (species (w_pop (detach world_2 1%nat))) 0
    (unit_random (rand (w_rand world_2)).1)
  = Some (0, species_sample [0%nat]) /\
  F32.ltb (unit_random (rand (rand (w_rand world_2)).2).1)
    (species_crossover_probability (conf (w_pop world_2))) = true /\
  exists w',
    neat_epoch world_2 = Some w' /\
    genomes (w_pop w') = genomes (w_pop world_2) /\
    w_heap w' = w_heap world_2 /\
    species (w_pop w') = [species_sample [0%nat; 1%nat]].
Proof.
  split; [exact world_2_wf|]. split; [exact world_2_worst|].
  split; [exact world_2_slot|]. split; [exact world_2_selected|].
  split; [exact world_2_crossover|].
  destruct (neat_epoch_crossover world_2 1 1%nat 0 _ world_2_wf world_2_worst
              world_2_slot world_2_selected world_2_crossover)
    as (w' & He & _ & Hg & Hh & Hsp & _).
  exists w'. split; [exact He|]. split; [exact Hg|]. split; [exact Hh|].
  rewrite Hsp. by vm_compute.
Defined.

(** ** Further witnesses on the concrete C library *)

Lemma relu_zero_heap_block :
  relu_zero_heap !! 0%nat
  = Some {| blk_net := relu_zero_net;
            blk_items := replicate 4 (S754_zero false) |}.
Proof. reflexivity. Defined.

Lemma nn_ffnet_create_destroy_witness :
  malloc_fresh /\
  exists a h',
    nn_ffnet_create 1 0 1 0 ∅ = Some (a, h') /\
    nn_ffnet_destroy a h' = Some ∅ /\
    nn_ffnet_destroy a ∅ = None.
Proof.
  split; [exact libc_model_malloc_fresh|].
  destruct (nn_ffnet_create 1 0 1 0 (∅ : nn_heap)) as [[a h']|] eqn:Hc;
    [|by vm_compute in Hc].
  exists a, h'. split; [reflexivity|].
  destruct (nn_ffnet_create_destroy 1 0 1 0 ∅ h' a
              libc_model_malloc_fresh Hc) as (_ & _ & Hd & Hn).
  split; [exact Hd|exact Hn].
Defined.

Lemma nn_ffnet_create_asserts_witness :
  0 <= 0 /\ malloc_fresh /\ fits 1 0 1 0 /\
  is_Some (nn_ffnet_create 1 0 1 0 (∅ : nn_heap)) /\
  ~ is_Some (nn_ffnet_create 1 1 1 0 (∅ : nn_heap)).
Proof.
  destruct (nn_ffnet_create_asserts 1 0 1 0 ∅) as [_ Hyes]; [lia|lia|].
  destruct (nn_ffnet_create_asserts 1 1 1 0 ∅) as [Hno _]; [lia|lia|].
  split; [lia|]. split; [exact libc_model_malloc_fresh|].
  split; [exact fits_1_0_1_0|]. split.
  - apply Hyes; [exact libc_model_malloc_fresh|exact fits_1_0_1_0|lia|lia|lia].
  - intros Hs. destruct (Hno Hs) as (_ & _ & Hiff). lia.
Defined.

Lemma nn_ffnet_run_errors_witness :
  exists h1,
    nn_ffnet_set_activations 0%nat NN_ACTIVATION_RELU (NN_ACTIVATION_other 7)
      relu_zero_heap = Some h1 /\
    h1 !! 0%nat
    = Some {| blk_net :=
                with_activations NN_ACTIVATION_RELU (NN_ACTIVATION_other 7)
                  relu_zero_net;
              blk_items := replicate 4 (S754_zero false) |} /\
    nn_ffnet_run 0%nat [F32.of_Z 3] h1 = None.
Proof.
  eexists. split; [reflexivity|]. split; [reflexivity|].
  destruct (nn_ffnet_run_errors
              (<[0%nat := {| blk_net :=
                               with_activations NN_ACTIVATION_RELU
                                 (NN_ACTIVATION_other 7) relu_zero_net;
                             blk_items := replicate 4 (S754_zero false) |}]>
                 relu_zero_heap)
              0%nat _ [F32.of_Z 3] (lookup_insert_eq _ _ _)) as [Hout _].
  apply (Hout 7); [simpl; lia|reflexivity].
Defined.

Lemma one_input_fits :
  ninputs relu_zero_net <= Z.of_nat (length [F32.of_Z 3]).
Proof. simpl. lia. Defined.

Lemma nn_ffnet_run_function_witness :
  nn_wf 0 relu_zero_block /\
  exists outs,
    forward relu_zero_net (replicate 2 (S754_zero false)) [F32.of_Z 3]
    = Some outs /\
    nn_outputs 0%nat [F32.of_Z 3] relu_zero_heap = Some outs /\
    length outs = 1%nat.
Proof.
  split; [exact relu_zero_block_wf|].
  exact (nn_ffnet_run_function relu_zero_heap 0%nat relu_zero_net
           (replicate 4 (S754_zero false)) [F32.of_Z 3]
           relu_zero_heap_block relu_zero_block_wf one_input_fits).
Defined.

Lemma nn_ffnet_run_frame_witness :
  nn_wf 0 relu_zero_block /\
  exists items',
    nn_ffnet_run 0%nat [F32.of_Z 3] relu_zero_heap
    = Some ((0%nat, 3),
            <[0%nat := {| blk_net := relu_zero_net; blk_items := items' |}]>
              relu_zero_heap) /\
    take 2 items' = replicate 2 (S754_zero false) /\
    take 1 (drop 2 items') = [F32.of_Z 3].
Proof.
  split; [exact relu_zero_block_wf|].
  destruct (nn_ffnet_run_frame relu_zero_heap 0%nat relu_zero_net
              (replicate 4 (S754_zero false)) [F32.of_Z 3]
              relu_zero_heap_block relu_zero_block_wf one_input_fits)
    as (items' & Hr & _ & Hw & Hi).
  exists items'. split; [exact Hr|]. split; [exact Hw|exact Hi].
Defined.

Lemma nn_ffnet_run_again_witness :
  nn_wf 0 relu_zero_block /\
  exists r h',
    nn_ffnet_run 0%nat [F32.of_Z 5] relu_zero_heap = Some (r, h') /\
    nn_outputs 0%nat [F32.of_Z 3] h'
    = nn_outputs 0%nat [F32.of_Z 3] relu_zero_heap.
Proof.
  split; [exact relu_zero_block_wf|].
  destruct (nn_ffnet_run 0%nat [F32.of_Z 5] relu_zero_heap)
    as [[r h']|] eqn:Hr; [|by vm_compute in Hr].
  exists r, h'. split; [reflexivity|].
  apply (nn_ffnet_run_again relu_zero_heap h' 0%nat relu_zero_net
           (replicate 4 (S754_zero false)) [F32.of_Z 5] [F32.of_Z 3] r
           relu_zero_heap_block relu_zero_block_wf);
    [simpl; lia|simpl; lia|exact Hr].
Defined.

Lemma nn_ffnet_set_then_run_witness :
  nn_wf 0 relu_zero_block /\
  exists h1 h2,
    nn_ffnet_set_activations 0%nat NN_ACTIVATION_FAST_SIGMOID
      NN_ACTIVATION_RELU relu_zero_heap = Some h1 /\
    nn_ffnet_set_bias 0%nat (F32.of_Z 1) h1 = Some h2 /\
    is_Some (nn_outputs 0%nat [F32.of_Z 3] h2).
Proof.
  split; [exact relu_zero_block_wf|].
  destruct (nn_ffnet_set_then_run relu_zero_heap 0%nat relu_zero_net
              (replicate 4 (S754_zero false)) NN_ACTIVATION_FAST_SIGMOID
              NN_ACTIVATION_RELU (F32.of_Z 1) [F32.of_Z 3]
              relu_zero_heap_block relu_zero_block_wf I I one_input_fits)
    as (h1 & h2 & Ha & Hb & _ & Ho & _).
  exists h1, h2. split; [exact Ha|]. split; [exact Hb|exact Ho].
Defined.

Lemma nn_ffnet_randomize_draws_witness :
  nn_wf 0 relu_zero_block /\
  exists items',
    nn_ffnet_randomize 0%nat (relu_zero_heap, 1)
    = Some (<[0%nat := {| blk_net := relu_zero_net; blk_items := items' |}]>
              relu_zero_heap,
            rand_after 2 1) /\
    drop 2 items' = replicate 2 (S754_zero false).
Proof.
  split; [exact relu_zero_block_wf|].
  destruct (@nn_ffnet_randomize_draws libc_model 0%nat relu_zero_heap 1
              relu_zero_net (replicate 4 (S754_zero false))
              relu_zero_heap_block relu_zero_block_wf) as (_ & Hok).
  destruct Hok as (items' & Hr & _ & Hd & _); [by vm_compute|].
  exists items'. split; [exact Hr|exact Hd].
Defined.

Lemma neat_destroy_restores_witness :
  malloc_fresh /\
  neat_create config_2 ∅ 1 = Some world_created_2 /\
  neat_do_all (calls_2 ++ [call_epoch]) world_created_2 = Some world_2_epoch /\
  neat_destroy world_2_epoch = Some ∅.
Proof.
  split; [exact libc_model_malloc_fresh|].
  split; [exact world_created_2_eq|]. split; [exact world_2_epoch_eq|].
  exact (proj1 (@neat_destroy_restores libc_model collaborators_model
                  config_2 ∅ 1 (calls_2 ++ [call_epoch])
                  world_created_2 world_2_epoch
                  libc_model_malloc_fresh world_created_2_eq
                  world_2_epoch_eq)).
Defined.

Lemma neat_slots_live_witness :
  malloc_fresh /\
  neat_create config_2 ∅ 1 = Some world_created_2 /\
  neat_do_all (calls_2 ++ [call_epoch]) world_created_2 = Some world_2_epoch /\
  is_Some (genome_at world_2_epoch 1).
Proof.
  split; [exact libc_model_malloc_fresh|].
  split; [exact world_created_2_eq|]. split; [exact world_2_epoch_eq|].
  destruct (@neat_slots_live libc_model collaborators_model
              config_2 ∅ 1 (calls_2 ++ [call_epoch])
              world_created_2 world_2_epoch
              libc_model_malloc_fresh world_created_2_eq world_2_epoch_eq)
    as [_ Hlive].
  apply Hlive. simpl. lia.
Defined.

Lemma neat_species_members_live_witness :
  malloc_fresh /\
  neat_create config_2 ∅ 1 = Some world_created_2 /\
  neat_do_all (calls_2 ++ [call_epoch]) world_created_2 = Some world_2_epoch /\
  species_sample [0%nat; 1%nat] ∈ species (w_pop world_2_epoch) /\
  1%nat ∈ s_genomes (species_sample [0%nat; 1%nat]) /\
  is_Some (w_heap world_2_epoch !! 1%nat).
Proof.
  assert (Hs : species_sample [0%nat; 1%nat] ∈ species (w_pop world_2_epoch))
    by (simpl; apply list_elem_of_here).
  assert (Hg : 1%nat ∈ s_genomes (species_sample [0%nat; 1%nat]))
    by (simpl; apply list_elem_of_further, list_elem_of_here).
  split; [exact libc_model_malloc_fresh|].
  split; [exact world_created_2_eq|]. split; [exact world_2_epoch_eq|].
  split; [exact Hs|]. split; [exact Hg|].
  exact (proj2 (@neat_species_members_live libc_model collaborators_model
                  config_2 ∅ 1 (calls_2 ++ [call_epoch])
                  world_created_2 world_2_epoch
                  libc_model_malloc_fresh world_created_2_eq
                  world_2_epoch_eq _ _ Hs Hg)).
Defined.

Lemma neat_species_count_witness :
  malloc_fresh /\
  neat_create config_2 ∅ 1 = Some world_created_2 /\
  neat_do_all (calls_2 ++ [call_epoch]) world_created_2 = Some world_2_epoch /\
  1 <= nspecies (w_pop world_2_epoch) <= 6.
Proof.
  split; [exact libc_model_malloc_fresh|].
  split; [exact world_created_2_eq|]. split; [exact world_2_epoch_eq|].
  exact (proj1 (@neat_species_count libc_model collaborators_model
                  config_2 ∅ 1 (calls_2 ++ [call_epoch])
                  world_created_2 world_2_epoch
                  libc_model_malloc_fresh world_created_2_eq
                  world_2_epoch_eq)).
Defined.

Lemma neat_set_fitness_spec_witness :
  pop_wf world_2 /\
  exists w',
    neat_set_fitness 1 (F32.of_Z 7) world_2 = Some w' /\
    genome_at w' 1 = Some (genome_sample (F32.of_Z 7) 1) /\
    genome_at w' 0 = genome_at world_2 0.
Proof.
  split; [exact world_2_wf|].
  destruct (neat_set_fitness_spec world_2 1 (F32.of_Z 7) world_2_wf)
    as [Hin _].
  destruct Hin as (w' & g & Hg & Hs & Hat & Hother & _); [simpl; lia|].
  exists w'. split; [exact Hs|]. split; [|apply Hother; lia].
  rewrite Hat. injection Hg as <-. reflexivity.
Defined.

Lemma neat_increase_time_alive_spec_witness :
  pop_wf world_2 /\
  exists w',
    neat_increase_time_alive 1 world_2 = Some w' /\
    genome_at w' 1 = Some (genome_sample (F32.of_Z 1) 2) /\
    genome_at w' 0 = genome_at world_2 0.
Proof.
  split; [exact world_2_wf|].
  destruct (neat_increase_time_alive_spec world_2 1 world_2_wf) as [Hin _].
  destruct Hin as (w' & g & Hg & Hs & Hat & Hother & _); [simpl; lia|].
  exists w'. split; [exact Hs|]. split; [|apply Hother; lia].
  rewrite Hat. injection Hg as <-. reflexivity.
Defined.

Lemma neat_run_spec_witness :
  pop_wf world_2 /\
  (exists w', neat_run 1 [] world_2 = Some ([], w') /\
              w_pop w' = w_pop world_2) /\
  neat_run 2 [] world_2 = None.
Proof.
  split; [exact world_2_wf|].
  destruct (neat_run_spec world_2 1 [] world_2_wf) as [Hin _].
  destruct (neat_run_spec world_2 2 [] world_2_wf) as [_ Hout].
  split; [|apply Hout; simpl; lia].
  destruct Hin as (g & Hg & Hrun); [simpl; lia|]. simpl in Hrun.
  destruct Hrun as (w' & Hr & _ & _ & Hp & _).
  exists w'. split; [exact Hr|exact Hp].
Defined.










Lemma nn_ffnet_copy_destroy_witness :
  malloc_fresh /\ nn_wf 0 relu_zero_block /\
  exists b h1 h2,
    nn_ffnet_copy 0%nat relu_zero_heap = Some (b, h1) /\
    nn_ffnet_destroy b h1 = Some relu_zero_heap /\
    nn_ffnet_destroy 0%nat h1 = Some h2 /\
    is_Some (nn_outputs b [F32.of_Z 3] h2).
Proof.
  split; [exact libc_model_malloc_fresh|]. split; [exact relu_zero_block_wf|].
  destruct (nn_ffnet_copy_destroy relu_zero_heap 0%nat relu_zero_net
              (replicate 4 (S754_zero false)) libc_model_malloc_fresh
              relu_zero_heap_block relu_zero_block_wf)
    as (b & h1 & h2 & Hc & _ & Hdb & Hda & _ & Hrun).
  exists b, h1, h2. split; [exact Hc|]. split; [exact Hdb|].
  split; [exact Hda|]. exact (proj1 (Hrun [F32.of_Z 3] one_input_fits)).
Defined.

Lemma neat_create_asserts_witness :
  malloc_fresh /\
  0 < population_size config_2 /\
  sizeof_pointer * population_size config_2 <= SIZE_MAX /\
  is_Some (neat_create config_2 ∅ 1).
Proof.
  assert (HN : 0 < population_size config_2) by (simpl; lia).
  assert (Hsz : sizeof_pointer * population_size config_2 <= SIZE_MAX)
    by (by vm_compute).
  split; [exact libc_model_malloc_fresh|]. split; [exact HN|].
  split; [exact Hsz|].
  exact (proj2 (@neat_create_asserts libc_model collaborators_model
                  config_2 ∅ 1 libc_model_malloc_fresh) (conj HN Hsz)).
Defined.

Lemma nn_fast_sigmoid_odd_witness :
  valid_binary 24 128 (F32.of_Z 3) = true /\
  is_finite (F32.of_Z 3) = true /\
  is_nan (nn_fast_sigmoid (F32.of_Z 3)) = false /\
  nn_fast_sigmoid (F32.opp (F32.of_Z 3))
  = F32.opp (nn_fast_sigmoid (F32.of_Z 3)).
Proof.
  assert (Hv : valid_binary 24 128 (F32.of_Z 3) = true) by reflexivity.
  assert (Hf : is_finite (F32.of_Z 3) = true) by reflexivity.
  split; [exact Hv|]. split; [exact Hf|].
  exact (proj1 nn_fast_sigmoid_odd (F32.of_Z 3) Hv Hf).
Defined.
